(** * Billing engine of wms-api: invoice generation and invoice life cycle

    Shallow embedding of [src/routes/billingEngine.js]: the rounding helper
    [trunc100], the invoice sequencer, and the five transactional handlers
    (generate, issue, mark-paid, duplicate-admin, mark-pending); then the
    exchange-rate settings routes, the creation of billing events, the CSV
    export of events, the invoice detail route and the billing-unit mapping of
    the service catalog; and, in module [Inbound], the routes of
    [src/routes/inboundOrders.js] with their status log.  The properties
    proved about them follow the definitions.

    Modelling conventions.
    - A JavaScript number is a rational [Fin q] or [NaN]; [Fin q] stands for
      the value of a DECIMAL column or of a JSON number.  The products and the
      quotient the engine takes of such values (amount by rate, unit price by
      quantity, line amount by quantity) are those of IEEE 754 binary64:
      each operand is read as the double nearest to it and the result is
      rounded to the nearest double, ties to even ([fmul], [fdiv]); so is
      the sum of quantities ([fadd]).  The sums of amounts are exact, as
      sums of multiples of 100 are in doubles below 2^53; [trunc100] takes
      the floor of the exact hundredth; and the VAT is the truncation of the
      exact product of the subtotal by 7/100.  The sign of zero and the
      infinities are not represented: a DECIMAL column holds neither, and
      its at most 65 digits keep every product far from the overflow of a
      double.
    - A value is undefined, null, a boolean, a number or a plain object, which
      is truthy and converts to NaN.  Strings are not represented: the
      DECIMAL columns a driver hands over as numeric strings are kept as the
      numbers they denote.
    - A table is the list of its rows in insertion order; soft deletion is the
      [deleted_at] column, as in the SQL.
    - A handler is a function from the store to a completion and a store. *)

From Stdlib Require Import ZArith QArith Qabs Qpower Qround List String Ascii Bool Lia Lqa Permutation Sorted.
Import ListNotations.

(** ** JavaScript values and numbers *)

Module Js.

Inductive num : Type :=
| Fin (q : Q)
| NaN.

(** [VObject] is a plain object such as the literal of an empty object. *)
Inductive value : Type :=
| VUndefined
| VNull
| VBool (b : bool)
| VNum (n : num)
| VObject.

(** [ToBoolean]: undefined, null, false, 0 and NaN are the falsy values. *)
Definition ToBoolean (v : value) : bool :=
  match v with
  | VUndefined | VNull => false
  | VBool b => b
  | VNum (Fin q) => negb (Qeq_bool q 0)
  | VNum NaN => false
  | VObject => true
  end.

(** [Number(v)].  A plain object converts through its string form, which is
    no numeric literal. *)
Definition Number (v : value) : num :=
  match v with
  | VUndefined => NaN
  | VNull => Fin 0
  | VBool true => Fin 1
  | VBool false => Fin 0
  | VNum n => n
  | VObject => NaN
  end.

(** [a || b]. *)
Definition or_else (a b : value) : value := if ToBoolean a then a else b.

(** [v !== null && v !== undefined]. *)
Definition present (v : value) : bool :=
  match v with
  | VUndefined | VNull => false
  | _ => true
  end.

(** Exact sum, product and quotient, for the sums of amounts, the product of
    a subtotal by the VAT rate and the division and product by 100. *)
Definition nadd (a b : num) : num :=
  match a, b with
  | Fin x, Fin y => Fin (x + y)
  | _, _ => NaN
  end.

Definition nmul (a b : num) : num :=
  match a, b with
  | Fin x, Fin y => Fin (x * y)
  | _, _ => NaN
  end.

(** A zero divisor gives [NaN] here; JavaScript gives an infinity for a
    non-zero dividend, which this model has no value for.  The engine divides
    by 100 and by a quantity it has tested to be positive. *)
Definition ndiv (a b : num) : num :=
  match a, b with
  | Fin x, Fin y => if Qeq_bool y 0 then NaN else Fin (x / y)
  | _, _ => NaN
  end.

(** *** Binary64 *)

(** The integer part of the binary logarithm of a positive rational.  With
    the numerator in [2^a, 2^(a+1)) and the denominator in [2^b, 2^(b+1)) the
    quotient lies between 2^(a-b-1) and 2^(a-b+1). *)
Definition Qlog2 (q : Q) : Z :=
  let k := (Z.log2 (Qnum q) - Z.log2 (Zpos (Qden q)))%Z in
  if Qle_bool (2 ^ k) q then k else (k - 1)%Z.

(** The nearest integer, the even one of the two when they are equally near. *)
Definition nearest_even (q : Q) : Z :=
  let f := Qfloor q in
  match Qcompare (q - inject_Z f) (1 # 2) with
  | Lt => f
  | Gt => (f + 1)%Z
  | Eq => if Z.even f then f else (f + 1)%Z
  end.

(** The double nearest to a rational, ties to even: a significand of 53 bits
    over a unit in the last place of 2^e, where e is at least -1074 (below
    2^-1022 the doubles are subnormal).  The exponent is not bounded above. *)
Definition binary64 (q : Q) : Q :=
  if Qeq_bool q 0 then 0
  else
    let e := Z.max (Qlog2 (Qabs q) - 52) (-1074) in
    Qred (inject_Z (nearest_even (q / 2 ^ e)) * 2 ^ e).

(** [a + b], [a * b] and [a / b] on doubles: what the engine computes on
    quantities, unit prices, amounts in baht and rates. *)
Definition fadd (a b : num) : num :=
  match a, b with
  | Fin x, Fin y => Fin (binary64 (binary64 x + binary64 y))
  | _, _ => NaN
  end.

Definition fmul (a b : num) : num :=
  match a, b with
  | Fin x, Fin y => Fin (binary64 (binary64 x * binary64 y))
  | _, _ => NaN
  end.

(** As for [ndiv], a zero divisor gives [NaN]. *)
Definition fdiv (a b : num) : num :=
  match a, b with
  | Fin x, Fin y =>
      if Qeq_bool (binary64 y) 0 then NaN
      else Fin (binary64 (binary64 x / binary64 y))
  | _, _ => NaN
  end.

#[global] Arguments binary64 : simpl never.
#[global] Arguments fadd : simpl never.
#[global] Arguments fmul : simpl never.
#[global] Arguments fdiv : simpl never.

(** [Math.floor]. *)
Definition nfloor (a : num) : num :=
  match a with
  | Fin x => Fin (inject_Z (Qfloor x))
  | NaN => NaN
  end.

(** [a > b]: false as soon as one side is NaN. *)
Definition ngt (a b : num) : bool :=
  match a, b with
  | Fin x, Fin y => negb (Qle_bool x y)
  | _, _ => false
  end.


End Js.

Import Js.

(** [trunc100], lines 18-21. *)
Definition trunc100 (input : value) : num :=
  let value := Number (or_else input (VNum (Fin 0))) in
  nmul (nfloor (ndiv value (Fin 100))) (Fin 100).

(** ** Dates and months *)

Record date : Type := mkDate { d_year : Z; d_month : Z; d_day : Z }.

(** Comparison of two [YYYY-MM-DD] dates. *)
Definition date_ltb (a b : date) : bool :=
  (d_year a <? d_year b)%Z
  || ((d_year a =? d_year b)%Z
      && ((d_month a <? d_month b)%Z
          || ((d_month a =? d_month b)%Z && (d_day a <? d_day b)%Z))).

Definition date_eqb (a b : date) : bool :=
  (d_year a =? d_year b)%Z && (d_month a =? d_month b)%Z && (d_day a =? d_day b)%Z.

Definition date_leb (a b : date) : bool := date_ltb a b || date_eqb a b.

(** An invoice month [YYYY-MM]. *)
Record month : Type := mkMonth { m_year : Z; m_month : Z }.

Definition month_eqb (a b : month) : bool :=
  (m_year a =? m_year b)%Z && (m_month a =? m_month b)%Z.

(** [monthRange], lines 23-28: the first day of the month and the first day of
    the next one. *)
Definition monthRange (invoiceMonth : month) : date * date :=
  let from := mkDate (m_year invoiceMonth) (m_month invoiceMonth) 1 in
  let to :=
    if (m_month invoiceMonth =? 12)%Z
    then mkDate (m_year invoiceMonth + 1) 1 1
    else mkDate (m_year invoiceMonth) (m_month invoiceMonth + 1) 1 in
  (from, to).

(** ** Tables *)

Inductive RateStatus : Type := rate_draft | rate_active | rate_superseded.
Inductive EventStatus : Type := PENDING | INVOICED.
Inductive PricingPolicy : Type := THB_BASED | KRW_FIXED.
Inductive InvoiceStatus : Type := draft | issued | paid.

Definition is_active (s : RateStatus) : bool :=
  match s with rate_active => true | _ => false end.
Definition is_pending (s : EventStatus) : bool :=
  match s with PENDING => true | INVOICED => false end.
Definition is_draft (s : InvoiceStatus) : bool :=
  match s with draft => true | _ => false end.
Definition is_issued (s : InvoiceStatus) : bool :=
  match s with issued => true | _ => false end.

(** Rank of a status in the life cycle draft -> issued -> paid. *)
Definition status_rank (s : InvoiceStatus) : Z :=
  match s with draft => 0 | issued => 1 | paid => 2 end.

Definition is_null {A} (o : option A) : bool :=
  match o with None => true | Some _ => false end.

Record ExchangeRate : Type := mkRate {
  er_id : Z;
  er_rate_date : date;
  er_base_currency : string;
  er_quote_currency : string;
  er_rate : Q;
  er_status : RateStatus;
  er_locked : bool;
  er_deleted_at : option Z
}.

Record BillingEvent : Type := mkEvent {
  be_id : Z;
  be_client_id : Z;
  be_service_code : string;
  be_event_date : date;
  be_qty : value;
  be_pricing_policy : PricingPolicy;
  be_unit_price_thb : value;
  be_amount_thb : value;
  be_unit_price_krw : value;
  be_amount_krw : value;
  be_fx_rate_thbkrw : value;
  be_status : EventStatus;
  be_invoice_id : option Z;
  be_deleted_at : option Z
}.

(** The invoice number [KRW-{client}-{yyyymm}-{seq:04d}], kept as its three
    components. *)
Record InvoiceNo : Type := mkInvoiceNo {
  no_client : Z;
  no_yyyymm : month;
  no_seq : Z
}.

Record Invoice : Type := mkInvoice {
  inv_id : Z;
  inv_client_id : Z;
  inv_invoice_month : month;
  inv_invoice_no : InvoiceNo;
  inv_status : InvoiceStatus;
  inv_issue_date : date;
  inv_invoice_date : option date;
  inv_due_date : date;
  inv_fx_rate_thbkrw : num;
  inv_subtotal_krw : num;
  inv_vat_krw : num;
  inv_total_krw : num;
  inv_total_amount : num;
  inv_created_by : Z;
  inv_deleted_at : option Z
}.

Record InvoiceItem : Type := mkItem {
  it_id : Z;
  it_invoice_id : Z;
  it_service_code : string;
  it_description : string;
  it_qty : num;
  it_unit_price_krw : num;
  it_amount_krw : num;
  it_deleted_at : option Z
}.

Record InvoiceSequence : Type := mkSeq {
  sq_id : Z;
  sq_client_id : Z;
  sq_yyyymm : month;
  sq_last_seq : Z;
  sq_deleted_at : option Z
}.

Record Service : Type := mkService {
  sc_service_code : string;
  sc_service_name : option string;
  sc_service_name_kr : option string;
  sc_deleted_at : option Z
}.

(** The data store.  [has_invoice_date] is the schema flag read by
    [hasInvoiceDateColumn]: whether table invoices has column invoice_date. *)
Record Store : Type := mkStore {
  exchange_rates : list ExchangeRate;
  billing_events : list BillingEvent;
  invoices : list Invoice;
  invoice_items : list InvoiceItem;
  invoice_sequences : list InvoiceSequence;
  service_catalog : list Service;
  has_invoice_date : bool
}.

Definition set_exchange_rates (db : Store) (l : list ExchangeRate) : Store :=
  mkStore l (billing_events db) (invoices db) (invoice_items db)
          (invoice_sequences db) (service_catalog db) (has_invoice_date db).
Definition set_billing_events (db : Store) (l : list BillingEvent) : Store :=
  mkStore (exchange_rates db) l (invoices db) (invoice_items db)
          (invoice_sequences db) (service_catalog db) (has_invoice_date db).
Definition set_invoices (db : Store) (l : list Invoice) : Store :=
  mkStore (exchange_rates db) (billing_events db) l (invoice_items db)
          (invoice_sequences db) (service_catalog db) (has_invoice_date db).
Definition set_invoice_items (db : Store) (l : list InvoiceItem) : Store :=
  mkStore (exchange_rates db) (billing_events db) (invoices db) l
          (invoice_sequences db) (service_catalog db) (has_invoice_date db).
Definition set_invoice_sequences (db : Store) (l : list InvoiceSequence) : Store :=
  mkStore (exchange_rates db) (billing_events db) (invoices db) (invoice_items db)
          l (service_catalog db) (has_invoice_date db).

(** ** Query helpers *)

(** AUTO_INCREMENT: the id given to a row inserted into a table holding the
    ids [ids] is one more than the largest of them. *)
Definition fresh_id (ids : list Z) : Z := (1 + fold_right Z.max 0 ids)%Z.

(** [ORDER BY ... LIMIT 1]: the row the ordering puts first, [before x y]
    meaning that x is sorted strictly before y. *)
Fixpoint first_by {A} (before : A -> A -> bool) (rows : list A) : option A :=
  match rows with
  | [] => None
  | x :: rest =>
      match first_by before rest with
      | None => Some x
      | Some y => if before y x then Some y else Some x
      end
  end.

(** [ORDER BY id ASC], by insertion. *)
Fixpoint insert_by_id {A} (id : A -> Z) (x : A) (sorted : list A) : list A :=
  match sorted with
  | [] => [x]
  | y :: rest =>
      if (id x <=? id y)%Z then x :: sorted else y :: insert_by_id id x rest
  end.

Definition order_by_id {A} (id : A -> Z) (rows : list A) : list A :=
  fold_right (insert_by_id id) [] rows.

(** The rows an [INSERT ... SELECT] adds: consecutive fresh ids. *)
Fixpoint number_from {A} (n : Z) (rows : list A) : list (Z * A) :=
  match rows with
  | [] => []
  | x :: rest => (n, x) :: number_from (n + 1) rest
  end.

Definition mem_id (id : Z) (ids : list Z) : bool :=
  existsb (Z.eqb id) ids.

Definition opt_id_eqb (o : option Z) (id : Z) : bool :=
  match o with Some x => (x =? id)%Z | None => false end.

(** ** Transactions and responses *)

Inductive ErrorCode : Type :=
| INVOICE_ALREADY_ISSUED
| FX_NOT_FOUND
| NO_PENDING_EVENTS
| NOT_FOUND
| INVALID_STATUS
| EVENTS_NOT_FOUND
| EVENTS_LOCKED.

(** What a transaction callback returns: [{ok: true, data}] or
    [{ok: false, code, message}]. *)
Inductive Result (A : Type) : Type :=
| Ok (data : A)
| Failed (code : ErrorCode).

Arguments Ok {A} data.
Arguments Failed {A} code.

(** How a callback ends: it returns a value or throws. *)
Inductive Completion (A : Type) : Type :=
| Returned (r : A)
| Thrown.

Arguments Returned {A} r.
Arguments Thrown {A}.

(** Modelled from the spec: [withTransaction] is imported from
    services/stock, which is not among the sources.  Following section 5 (one
    transaction per request, a failure aborts it and rolls everything back) it
    runs the callback on the store, commits the callback's store and hands
    back its value when the callback returns, and restores the store it
    started from when the callback throws. *)
Definition withTransaction {A} (callback : Store -> Completion A * Store)
    (db : Store) : Completion A * Store :=
  match callback db with
  | (Returned r, db') => (Returned r, db')
  | (Thrown, _) => (Thrown, db)
  end.

(** ** The invoice sequencer *)

(** [resolveInvoiceSequence], lines 68-90. *)
Definition resolveInvoiceSequence (db : Store) (clientId : Z) (yyyymm : month)
    : Z * Store :=
  let seqRows :=
    filter (fun r => (sq_client_id r =? clientId)%Z
                     && month_eqb (sq_yyyymm r) yyyymm
                     && is_null (sq_deleted_at r))
           (invoice_sequences db) in
  match seqRows with
  | [] =>
      let row := mkSeq (fresh_id (map sq_id (invoice_sequences db)))
                       clientId yyyymm 1 None in
      (1%Z, set_invoice_sequences db (invoice_sequences db ++ [row]))
  | first :: _ =>
      let nextSeq := (sq_last_seq first + 1)%Z in
      (nextSeq,
       set_invoice_sequences db
         (map (fun r => if (sq_id r =? sq_id first)%Z
                        then mkSeq (sq_id r) (sq_client_id r) (sq_yyyymm r)
                                   nextSeq (sq_deleted_at r)
                        else r)
              (invoice_sequences db)))
  end.

(** [parseCreator], lines 30-34; [user_sub] is [req.user?.sub]. *)
Definition parseCreator (user_sub payloadCreatedBy : option Z) : Z :=
  let fromAuth :=
    let authUserId := match user_sub with Some u => u | None => 0%Z end in
    if (authUserId >? 0)%Z then authUserId else 1%Z in
  match payloadCreatedBy with
  | Some c => if (c =? 0)%Z then fromAuth else c
  | None => fromAuth
  end.

(** ** Invoice generation, lines 970-1191 *)

Record GeneratePayload : Type := mkPayload {
  client_id : Z;
  invoice_month : month;
  invoice_date : date;
  regenerate_draft : bool;
  created_by : option Z
}.

Inductive Generated : Type :=
| Reused (invoice_id : Z)
| Fresh (invoice : option Invoice) (events_count : nat) (fx_rate_id : Z).

(** Lines 978-988: the latest live invoice of the client and month. *)
Definition existingRows (db : Store) (clientId : Z) (invoiceMonth : month)
    : option Invoice :=
  first_by (fun a b => (inv_id a >? inv_id b)%Z)
    (filter (fun i => (inv_client_id i =? clientId)%Z
                      && month_eqb (inv_invoice_month i) invoiceMonth
                      && is_null (inv_deleted_at i))
            (invoices db)).

Definition revert_event (e : BillingEvent) : BillingEvent :=
  mkEvent (be_id e) (be_client_id e) (be_service_code e) (be_event_date e)
          (be_qty e) (be_pricing_policy e) (be_unit_price_thb e) (be_amount_thb e)
          (be_unit_price_krw e) (be_amount_krw e) VNull PENDING None
          (be_deleted_at e).

Definition delete_item (now : Z) (it : InvoiceItem) : InvoiceItem :=
  mkItem (it_id it) (it_invoice_id it) (it_service_code it) (it_description it)
         (it_qty it) (it_unit_price_krw it) (it_amount_krw it) (Some now).

Definition delete_invoice (now : Z) (i : Invoice) : Invoice :=
  mkInvoice (inv_id i) (inv_client_id i) (inv_invoice_month i) (inv_invoice_no i)
            (inv_status i) (inv_issue_date i) (inv_invoice_date i) (inv_due_date i)
            (inv_fx_rate_thbkrw i) (inv_subtotal_krw i) (inv_vat_krw i)
            (inv_total_krw i) (inv_total_amount i) (inv_created_by i) (Some now).

(** Lines 1007-1014: the three updates that take a draft apart before it is
    regenerated. *)
Definition discard_draft (now : Z) (db : Store) (existing_id : Z) : Store :=
  let db1 :=
    set_billing_events db
      (map (fun e => if opt_id_eqb (be_invoice_id e) existing_id
                        && is_null (be_deleted_at e)
                     then revert_event e else e)
           (billing_events db)) in
  let db2 :=
    set_invoice_items db1
      (map (fun it => if (it_invoice_id it =? existing_id)%Z
                         && is_null (it_deleted_at it)
                      then delete_item now it else it)
           (invoice_items db1)) in
  set_invoices db2
    (map (fun i => if (inv_id i =? existing_id)%Z then delete_invoice now i else i)
         (invoices db2)).

(** Lines 1017-1029: the candidate rates and the one the ordering puts first. *)
Definition applicable_rate (invoiceDate : date) (r : ExchangeRate) : bool :=
  String.eqb (er_base_currency r) "THB"
  && String.eqb (er_quote_currency r) "KRW"
  && is_null (er_deleted_at r)
  && is_active (er_status r)
  && date_leb (er_rate_date r) invoiceDate.

Definition rate_before (a b : ExchangeRate) : bool :=
  date_ltb (er_rate_date b) (er_rate_date a)
  || (date_eqb (er_rate_date a) (er_rate_date b) && (er_id a >? er_id b)%Z).

Definition fxRows (db : Store) (invoiceDate : date) : option ExchangeRate :=
  first_by rate_before (filter (applicable_rate invoiceDate) (exchange_rates db)).

(** Line 1041. *)
Definition lock_rate (db : Store) (fxRateId : Z) : Store :=
  set_exchange_rates db
    (map (fun r => if (er_id r =? fxRateId)%Z
                   then mkRate (er_id r) (er_rate_date r) (er_base_currency r)
                               (er_quote_currency r) (er_rate r) (er_status r)
                               true (er_deleted_at r)
                   else r)
         (exchange_rates db)).

(** Lines 1043-1054. *)
Definition pending_event (clientId : Z) (from to : date) (e : BillingEvent) : bool :=
  (be_client_id e =? clientId)%Z
  && is_pending (be_status e)
  && is_null (be_deleted_at e)
  && date_leb from (be_event_date e)
  && date_ltb (be_event_date e) to.

Definition pendingEvents (db : Store) (clientId : Z) (from to : date)
    : list BillingEvent :=
  order_by_id be_id (filter (pending_event clientId from to) (billing_events db)).

(** Lines 1103-1116: the normalized KRW amount of one event under rate [fx]. *)
Definition normalizedAmount (fx : num) (event : BillingEvent) : num :=
  match be_pricing_policy event with
  | THB_BASED =>
      let amountThb :=
        if present (be_amount_thb event)
        then Number (be_amount_thb event)
        else fmul (Number (or_else (be_unit_price_thb event) (VNum (Fin 0))))
                  (Number (or_else (be_qty event) (VNum (Fin 0)))) in
      trunc100 (VNum (fmul amountThb fx))
  | KRW_FIXED =>
      let amountKrw :=
        if present (be_amount_krw event)
        then Number (be_amount_krw event)
        else fmul (Number (or_else (be_unit_price_krw event) (VNum (Fin 0))))
                  (Number (or_else (be_qty event) (VNum (Fin 0)))) in
      trunc100 (VNum amountKrw)
  end.

(** Lines 1118-1123: the row of an invoiced event. *)
Definition invoice_event (amount fx : num) (invoiceId : Z) (e : BillingEvent)
    : BillingEvent :=
  mkEvent (be_id e) (be_client_id e) (be_service_code e) (be_event_date e)
          (be_qty e) (be_pricing_policy e) (be_unit_price_thb e) (be_amount_thb e)
          (be_unit_price_krw e) (VNum amount) (VNum fx) INVOICED (Some invoiceId)
          (be_deleted_at e).

Definition mark_invoiced (amount fx : num) (invoiceId eventId : Z)
    (events : list BillingEvent) : list BillingEvent :=
  map (fun e => if (be_id e =? eventId)%Z
                then invoice_event amount fx invoiceId e else e)
      events.

(** The aggregation map [grouped]: service codes in first-seen order. *)
Record Agg : Type := mkAgg { agg_qty : num; agg_amount_krw : num }.

Definition Grouped : Type := list (string * Agg).

Fixpoint grouped_has (g : Grouped) (code : string) : bool :=
  match g with
  | [] => false
  | (k, _) :: rest => String.eqb k code || grouped_has rest code
  end.

Fixpoint grouped_update (g : Grouped) (code : string) (f : Agg -> Agg) : Grouped :=
  match g with
  | [] => []
  | (k, a) :: rest =>
      if String.eqb k code then (k, f a) :: rest
      else (k, a) :: grouped_update rest code f
  end.

(** Lines 1125-1130. *)
Definition accumulate (g : Grouped) (event : BillingEvent) (amount : num)
    : Grouped :=
  let code := be_service_code event in
  let g1 := if grouped_has g code then g
            else g ++ [(code, mkAgg (Fin 0) (Fin 0))] in
  grouped_update g1 code
    (fun current =>
       mkAgg (fadd (agg_qty current)
                   (Number (or_else (be_qty event) (VNum (Fin 0)))))
             (nadd (agg_amount_krw current) amount)).

(** Lines 1102-1131: the loop over the selected events. *)
Definition consume_event (fx : num) (invoiceId : Z)
    (st : list BillingEvent * Grouped) (event : BillingEvent)
    : list BillingEvent * Grouped :=
  let amount := normalizedAmount fx event in
  (mark_invoiced amount fx invoiceId (be_id event) (fst st),
   accumulate (snd st) event amount).

Definition consume_events (fx : num) (invoiceId : Z) (events : list BillingEvent)
    (table : list BillingEvent) : list BillingEvent * Grouped :=
  fold_left (consume_event fx invoiceId) events (table, []).

(** [new Map(rows)] then [get]: the last row of a code wins. *)
Fixpoint map_get {V} (m : list (string * V)) (k : string) : option V :=
  match m with
  | [] => None
  | (k', v) :: rest =>
      match map_get rest k with
      | Some v' => Some v'
      | None => if String.eqb k' k then Some v else None
      end
  end.

Definition coalesce {A} (a b : option A) : option A :=
  match a with Some x => Some x | None => b end.

(** Lines 1094-1099. *)
Definition serviceNameMap (db : Store) : list (string * option string) :=
  map (fun r => (sc_service_code r,
                 coalesce (sc_service_name r) (sc_service_name_kr r)))
      (filter (fun r => is_null (sc_deleted_at r)) (service_catalog db)).

(** [serviceNameMap.get(serviceCode) || serviceCode]. *)
Definition description_of (names : list (string * option string))
    (serviceCode : string) : string :=
  match map_get names serviceCode with
  | Some (Some name) =>
      match name with EmptyString => serviceCode | _ => name end
  | _ => serviceCode
  end.

(** Lines 1134-1146: one invoice item per group, accumulating the subtotal. *)
Definition emit_item (names : list (string * option string)) (invoiceId : Z)
    (st : num * list InvoiceItem) (entry : string * Agg)
    : num * list InvoiceItem :=
  let serviceCode := fst entry in
  let qty := agg_qty (snd entry) in
  let lineAmount := trunc100 (VNum (agg_amount_krw (snd entry))) in
  let subtotalKrw := nadd (fst st) lineAmount in
  let unitDisplay :=
    if ngt qty (Fin 0) then trunc100 (VNum (fdiv lineAmount qty))
    else lineAmount in
  (subtotalKrw,
   snd st ++ [mkItem (fresh_id (map it_id (snd st))) invoiceId serviceCode
                     (description_of names serviceCode) qty unitDisplay
                     lineAmount None]).

Definition emit_items (names : list (string * option string)) (invoiceId : Z)
    (grouped : Grouped) (table : list InvoiceItem) : num * list InvoiceItem :=
  fold_left (emit_item names invoiceId) grouped (Fin 0, table).

(** Lines 1148-1150: subtotal, VAT and total of an accumulated subtotal. *)
Definition vat_rate : num := Fin (7 # 100).

Definition totals (accumulated : num) : num * num * num :=
  let subtotalKrw := trunc100 (VNum accumulated) in
  let vatKrw := trunc100 (VNum (nmul subtotalKrw vat_rate)) in
  let totalKrw := trunc100 (VNum (nadd subtotalKrw vatKrw)) in
  (subtotalKrw, vatKrw, totalKrw).

(** Lines 1152-1157: the synthetic VAT item. *)
Definition vat_item (id invoiceId : Z) (vatKrw : num) : InvoiceItem :=
  mkItem id invoiceId "VAT_7" "VAT 7%" (Fin 1) vatKrw vatKrw None.

(** Lines 1159-1164. *)
Definition set_totals (subtotalKrw vatKrw totalKrw : num) (i : Invoice) : Invoice :=
  mkInvoice (inv_id i) (inv_client_id i) (inv_invoice_month i) (inv_invoice_no i)
            (inv_status i) (inv_issue_date i) (inv_invoice_date i) (inv_due_date i)
            (inv_fx_rate_thbkrw i) subtotalKrw vatKrw totalKrw totalKrw
            (inv_created_by i) (inv_deleted_at i).

(** Lines 1017-1183: generation proper, run once no live invoice stands in the
    way. *)
Definition generate_fresh (user_sub : option Z) (payload : GeneratePayload)
    (db : Store) : Result Generated * Store :=
  let createdBy := parseCreator user_sub (created_by payload) in
  let hasInvoiceDate := has_invoice_date db in
  let '(from, to) := monthRange (invoice_month payload) in
  match fxRows db (invoice_date payload) with
  | None => (Failed FX_NOT_FOUND, db)
  | Some fxRow =>
      let fxRateId := er_id fxRow in
      let fx := Fin (er_rate fxRow) in
      let db1 := lock_rate db fxRateId in
      let events := pendingEvents db1 (client_id payload) from to in
      match events with
      | [] => (Failed NO_PENDING_EVENTS, db1)
      | _ :: _ =>
          let yyyymm := invoice_month payload in
          let '(nextSeq, db2) :=
            resolveInvoiceSequence db1 (client_id payload) yyyymm in
          let invoiceNo := mkInvoiceNo (client_id payload) yyyymm nextSeq in
          let invoiceId := fresh_id (map inv_id (invoices db2)) in
          let row :=
            mkInvoice invoiceId (client_id payload) (invoice_month payload)
                      invoiceNo draft (invoice_date payload)
                      (if hasInvoiceDate then Some (invoice_date payload) else None)
                      (invoice_date payload) fx (Fin 0) (Fin 0) (Fin 0) (Fin 0)
                      createdBy None in
          let db3 := set_invoices db2 (invoices db2 ++ [row]) in
          let names := serviceNameMap db3 in
          let '(table, grouped) :=
            consume_events fx invoiceId events (billing_events db3) in
          let db4 := set_billing_events db3 table in
          let '(accumulated, items) :=
            emit_items names invoiceId grouped (invoice_items db4) in
          let '(subtotalKrw, vatKrw, totalKrw) := totals accumulated in
          let db5 :=
            set_invoice_items db4
              (items ++ [vat_item (fresh_id (map it_id items)) invoiceId vatKrw]) in
          let db6 :=
            set_invoices db5
              (map (fun i => if (inv_id i =? invoiceId)%Z
                             then set_totals subtotalKrw vatKrw totalKrw i else i)
                   (invoices db5)) in
          let invoiceRows :=
            filter (fun i => (inv_id i =? invoiceId)%Z) (invoices db6) in
          (Ok (Fresh (hd_error invoiceRows) (List.length events) fxRateId), db6)
      end
  end.

(** Lines 972-1184: the callback of the generate transaction. *)
Definition generate_callback (now : Z) (user_sub : option Z)
    (payload : GeneratePayload) (db : Store)
    : Completion (Result Generated) * Store :=
  let '(r, db') :=
    match existingRows db (client_id payload) (invoice_month payload) with
    | Some existing =>
        if negb (is_draft (inv_status existing))
        then (Failed INVOICE_ALREADY_ISSUED, db)
        else if negb (regenerate_draft payload)
        then (Ok (Reused (inv_id existing)), db)
        else generate_fresh user_sub payload
               (discard_draft now db (inv_id existing))
    | None => generate_fresh user_sub payload db
    end in
  (Returned r, db').

Definition generateInvoice (now : Z) (user_sub : option Z)
    (payload : GeneratePayload) (db : Store)
    : Completion (Result Generated) * Store :=
  withTransaction (generate_callback now user_sub payload) db.

(** ** The invoice life cycle *)

Definition set_status (st : InvoiceStatus) (i : Invoice) : Invoice :=
  mkInvoice (inv_id i) (inv_client_id i) (inv_invoice_month i) (inv_invoice_no i)
            st (inv_issue_date i) (inv_invoice_date i) (inv_due_date i)
            (inv_fx_rate_thbkrw i) (inv_subtotal_krw i) (inv_vat_krw i)
            (inv_total_krw i) (inv_total_amount i) (inv_created_by i)
            (inv_deleted_at i).

(** [SELECT ... FROM invoices WHERE id = ? AND deleted_at IS NULL LIMIT 1]. *)
Definition live_invoice (db : Store) (invoiceId : Z) : option Invoice :=
  hd_error (filter (fun i => (inv_id i =? invoiceId)%Z && is_null (inv_deleted_at i))
                   (invoices db)).

(** [UPDATE invoices SET status = ? WHERE id = ?]. *)
Definition update_status (db : Store) (invoiceId : Z) (st : InvoiceStatus) : Store :=
  set_invoices db
    (map (fun i => if (inv_id i =? invoiceId)%Z then set_status st i else i)
         (invoices db)).

(** Lines 1194-1206. *)
Definition issue_callback (invoiceId : Z) (db : Store)
    : Completion (Result (Z * InvoiceStatus)) * Store :=
  match live_invoice db invoiceId with
  | None => (Returned (Failed NOT_FOUND), db)
  | Some row =>
      if negb (is_draft (inv_status row))
      then (Returned (Failed INVALID_STATUS), db)
      else (Returned (Ok (invoiceId, issued)), update_status db invoiceId issued)
  end.

Definition issueInvoice (invoiceId : Z) (db : Store)
    : Completion (Result (Z * InvoiceStatus)) * Store :=
  withTransaction (issue_callback invoiceId) db.

(** Lines 1216-1228. *)
Definition markPaid_callback (invoiceId : Z) (db : Store)
    : Completion (Result (Z * InvoiceStatus)) * Store :=
  match live_invoice db invoiceId with
  | None => (Returned (Failed NOT_FOUND), db)
  | Some row =>
      if negb (is_issued (inv_status row))
      then (Returned (Failed INVALID_STATUS), db)
      else (Returned (Ok (invoiceId, paid)), update_status db invoiceId paid)
  end.

Definition markInvoicePaid (invoiceId : Z) (db : Store)
    : Completion (Result (Z * InvoiceStatus)) * Store :=
  withTransaction (markPaid_callback invoiceId) db.

(** Lines 1265-1285: the copy of an invoice row under a new id and number. *)
Definition copy_invoice (hasInvoiceDate : bool) (newInvoiceNo : InvoiceNo)
    (entry : Z * Invoice) : Invoice :=
  let i := snd entry in
  mkInvoice (fst entry) (inv_client_id i) (inv_invoice_month i) newInvoiceNo draft
            (inv_issue_date i)
            (if hasInvoiceDate then inv_invoice_date i else None)
            (inv_due_date i) (inv_fx_rate_thbkrw i) (inv_subtotal_krw i)
            (inv_vat_krw i) (inv_total_krw i) (inv_total_krw i)
            (inv_created_by i) None.

(** Lines 1288-1294. *)
Definition copy_item (newInvoiceId : Z) (entry : Z * InvoiceItem) : InvoiceItem :=
  let it := snd entry in
  mkItem (fst entry) newInvoiceId (it_service_code it) (it_description it)
         (it_qty it) (it_unit_price_krw it) (it_amount_krw it) None.

(** Lines 1240-1305.  The role check that precedes the transaction in this
    route and in mark-pending answers before the store is read and is left
    out. *)
Definition duplicate_callback (sourceInvoiceId : Z) (db : Store)
    : Completion (Result (option Invoice)) * Store :=
  let hasInvoiceDate := has_invoice_date db in
  match live_invoice db sourceInvoiceId with
  | None => (Returned (Failed NOT_FOUND), db)
  | Some source =>
      if is_draft (inv_status source)
      then (Returned (Failed INVALID_STATUS), db)
      else
        let yyyymm := inv_invoice_month source in
        let '(nextSeq, db1) :=
          resolveInvoiceSequence db (inv_client_id source) yyyymm in
        let newInvoiceNo := mkInvoiceNo (inv_client_id source) yyyymm nextSeq in
        let newInvoiceId := fresh_id (map inv_id (invoices db1)) in
        let db2 :=
          set_invoices db1
            (invoices db1
             ++ map (copy_invoice hasInvoiceDate newInvoiceNo)
                    (number_from newInvoiceId
                       (filter (fun i => (inv_id i =? sourceInvoiceId)%Z)
                               (invoices db1)))) in
        let db3 :=
          set_invoice_items db2
            (invoice_items db2
             ++ map (copy_item newInvoiceId)
                    (number_from (fresh_id (map it_id (invoice_items db2)))
                       (filter (fun it => (it_invoice_id it =? sourceInvoiceId)%Z
                                          && is_null (it_deleted_at it))
                               (invoice_items db2)))) in
        let newRows :=
          filter (fun i => (inv_id i =? newInvoiceId)%Z) (invoices db3) in
        (Returned (Ok (hd_error newRows)), db3)
  end.

Definition duplicateInvoiceForAdmin (sourceInvoiceId : Z) (db : Store)
    : Completion (Result (option Invoice)) * Store :=
  withTransaction (duplicate_callback sourceInvoiceId) db.

(** ** Reverting events to pending, lines 816-860 *)

(** Lines 823-830: the targeted live events, each joined to the live invoice
    it points to ([None] when the join finds none). *)
Definition targeted (ids : list Z) (e : BillingEvent) : bool :=
  mem_id (be_id e) ids && is_null (be_deleted_at e).

Definition join_invoice (db : Store) (e : BillingEvent)
    : list (BillingEvent * option InvoiceStatus) :=
  match filter (fun i => opt_id_eqb (be_invoice_id e) (inv_id i)
                         && is_null (inv_deleted_at i))
               (invoices db) with
  | [] => [(e, None)]
  | matches => map (fun i => (e, Some (inv_status i))) matches
  end.

Definition markPending_rows (db : Store) (ids : list Z)
    : list (BillingEvent * option InvoiceStatus) :=
  flat_map (join_invoice db) (filter (targeted ids) (billing_events db)).

(** Line 836: the joined invoice is issued or paid. *)
Definition is_blocked (r : BillingEvent * option InvoiceStatus) : bool :=
  match snd r with
  | Some issued | Some paid => true
  | _ => false
  end.

Definition markPending_callback (ids : list Z) (db : Store)
    : Completion (Result nat) * Store :=
  let rows := markPending_rows db ids in
  match rows with
  | [] => (Returned (Failed EVENTS_NOT_FOUND), db)
  | _ :: _ =>
      match filter is_blocked rows with
      | _ :: _ => (Returned (Failed EVENTS_LOCKED), db)
      | [] =>
          (Returned (Ok (List.length rows)),
           set_billing_events db
             (map (fun e => if targeted ids e then revert_event e else e)
                  (billing_events db)))
      end
  end.

Definition markEventsPending (ids : list Z) (db : Store)
    : Completion (Result nat) * Store :=
  withTransaction (markPending_callback ids) db.

(** ** Exchange-rate settings

    The routes PUT and DELETE /billing/settings/exchange-rates/:id, lines
    644-717, with [getExchangeRateUsageCount], lines 55-66.  They run outside
    any transaction, statement by statement.  The columns source and
    entered_by, which no route reads back into a decision, are not part of
    [ExchangeRate]. *)

(** [i.fx_rate_thbkrw = er.rate]. *)
Definition fx_is (fx : num) (rate : Q) : bool :=
  match fx with Fin x => Qeq_bool x rate | NaN => false end.

(** [getExchangeRateUsageCount], lines 55-66: the live invoices joined to the
    rate rows of the given id, counted where the frozen rate of the invoice
    equals the rate of the row.  Every invoice of the model carries its
    invoice month, so that [invoice_month IS NOT NULL] holds of each. *)
Definition getExchangeRateUsageCount (db : Store) (exchangeRateId : Z) : nat :=
  List.length
    (flat_map
       (fun i => filter (fun er => (er_id er =? exchangeRateId)%Z
                                   && fx_is (inv_fx_rate_thbkrw i) (er_rate er))
                        (exchange_rates db))
       (filter (fun i => is_null (inv_deleted_at i)) (invoices db))).

(** Lines 648-651 and 695-698. *)
Definition live_rate (db : Store) (id : Z) : option ExchangeRate :=
  hd_error (filter (fun r => (er_id r =? id)%Z && is_null (er_deleted_at r))
                   (exchange_rates db)).

(** The body [exchangeRateSchema] lets through, without source and
    entered_by. *)
Record RatePayload : Type := mkRatePayload {
  rp_rate_date : date;
  rp_rate : Q;
  rp_locked : bool;
  rp_status : RateStatus
}.

(** The answers of the two routes: 403 ADMIN_ONLY, 404, 409
    EXCHANGE_RATE_LOCKED, 409 for a duplicate key, and the two 200. *)
Inductive RateAnswer : Type :=
| RateForbidden
| RateNotFound
| RateLocked
| RateDuplicate
| RateUpdated (data : option ExchangeRate)
| RateDeleted.

(** Line 657 and line 704. *)
Definition rate_in_use (db : Store) (id : Z) (row : ExchangeRate) : bool :=
  er_locked row || (0 <? getExchangeRateUsageCount db id)%nat.

Definition delete_rate (now : Z) (r : ExchangeRate) : ExchangeRate :=
  mkRate (er_id r) (er_rate_date r) (er_base_currency r) (er_quote_currency r)
         (er_rate r) (er_status r) (er_locked r) (Some now).

(** DELETE /billing/settings/exchange-rates/:id, lines 692-717; [is_admin] is
    [req.user?.role === "admin"]. *)
Definition deleteExchangeRate (now : Z) (is_admin : bool) (id : Z) (db : Store)
    : RateAnswer * Store :=
  if negb is_admin then (RateForbidden, db)
  else
    match live_rate db id with
    | None => (RateNotFound, db)
    | Some row =>
        if rate_in_use db id row then (RateLocked, db)
        else
          (RateDeleted,
           set_exchange_rates db
             (map (fun r => if (er_id r =? id)%Z && is_null (er_deleted_at r)
                            then delete_rate now r else r)
                  (exchange_rates db)))
    end.

Definition update_rate (payload : RatePayload) (r : ExchangeRate) : ExchangeRate :=
  mkRate (er_id r) (rp_rate_date payload) (er_base_currency r) (er_quote_currency r)
         (rp_rate payload) (rp_status payload) (rp_locked payload) (er_deleted_at r).

Section RateUpdate.

(** The unique keys of table exchange_rates are declared in the schema, which
    is not among the sources: [duplicate_entry table] tells whether the table
    an UPDATE would leave violates one, in which case the statement fails
    with ER_DUP_ENTRY (lines 685-687). *)
Variable duplicate_entry : list ExchangeRate -> bool.

(** PUT /billing/settings/exchange-rates/:id, lines 644-690. *)
Definition putExchangeRate (is_admin : bool) (id : Z) (payload : RatePayload)
    (db : Store) : RateAnswer * Store :=
  if negb is_admin then (RateForbidden, db)
  else
    match live_rate db id with
    | None => (RateNotFound, db)
    | Some row =>
        if rate_in_use db id row then (RateLocked, db)
        else
          let matched :=
            filter (fun r => (er_id r =? id)%Z && is_null (er_deleted_at r))
                   (exchange_rates db) in
          let table :=
            map (fun r => if (er_id r =? id)%Z && is_null (er_deleted_at r)
                          then update_rate payload r else r)
                (exchange_rates db) in
          if duplicate_entry table then (RateDuplicate, db)
          else
            let db' := set_exchange_rates db table in
            match matched with
            | [] => (RateNotFound, db')
            | _ :: _ => (RateUpdated (live_rate db' id), db')
            end
    end.

End RateUpdate.

(** ** Recording a billing event, lines 862-920 *)

(** The body [billingEventSchema] lets through, without the warehouse and
    reference fields, which the engine never reads. *)
Record EventPayload : Type := mkEventPayload {
  ep_client_id : Z;
  ep_service_code : string;
  ep_event_date : date;
  ep_qty : value;
  ep_pricing_policy : PricingPolicy;
  ep_unit_price_thb : value;
  ep_amount_thb : value;
  ep_unit_price_krw : value;
  ep_amount_krw : value
}.

(** [a ?? b]. *)
Definition nullish (a b : value) : value := if present a then a else b.

(** Lines 864-865: [amount ?? (unit_price ?? 0) * (qty ?? 0)]. *)
Definition resolved_amount (amount unit_price qty : value) : value :=
  nullish amount
    (VNum (fmul (Number (nullish unit_price (VNum (Fin 0))))
                (Number (nullish qty (VNum (Fin 0)))))).

(** POST /billing/events: the inserted row and the store.  Modelled from the
    spec: the columns the INSERT leaves out take the defaults of a table
    declaration that is not among the sources; following section 3 (created
    PENDING with a null invoice link) the row starts PENDING, without rate,
    invoice or deletion mark. *)
Definition createBillingEvent (payload : EventPayload) (db : Store)
    : BillingEvent * Store :=
  let amountThb :=
    resolved_amount (ep_amount_thb payload) (ep_unit_price_thb payload) (ep_qty payload) in
  let amountKrw :=
    resolved_amount (ep_amount_krw payload) (ep_unit_price_krw payload) (ep_qty payload) in
  let row :=
    mkEvent (fresh_id (map be_id (billing_events db)))
            (ep_client_id payload) (ep_service_code payload) (ep_event_date payload)
            (ep_qty payload) (ep_pricing_policy payload)
            (or_else (ep_unit_price_thb payload) VNull)
            (match ep_pricing_policy payload with
             | THB_BASED => amountThb
             | KRW_FIXED => VNull
             end)
            (or_else (ep_unit_price_krw payload) VNull)
            (match ep_pricing_policy payload with
             | KRW_FIXED => VNum (trunc100 amountKrw)
             | THB_BASED => VNull
             end)
            VNull PENDING None None in
  (row, set_billing_events db (billing_events db ++ [row])).

(** ** The CSV export of billing events, lines 785-810 *)

Definition quote : ascii := "034"%char.
Definition comma : ascii := ","%char.
Definition newline : ascii := "010"%char.

(** Line 802, the global replace: every quote character is doubled. *)
Fixpoint double_quotes (s : string) : string :=
  match s with
  | EmptyString => EmptyString
  | String c rest =>
      if Ascii.eqb c quote then String quote (String quote (double_quotes rest))
      else String c (double_quotes rest)
  end.

(** A value of a selected row, as the export sees it: [None] for null or
    undefined, [Some s] for a value that [String(v)] renders as [s]. *)
Definition cell : Type := option string.

Definition cell_text (v : cell) : string :=
  match v with None => EmptyString | Some s => s end.

(** Lines 800-803. *)
Definition csv_cell (v : cell) : string :=
  String quote (double_quotes (cell_text v) ++ String quote EmptyString).

(** [Array.prototype.join]. *)
Fixpoint join (sep : string) (parts : list string) : string :=
  match parts with
  | [] => EmptyString
  | [x] => x
  | x :: rest => x ++ sep ++ join sep rest
  end.

(** The columns the export selects for one event, lines 787-799. *)
Record ExportRow : Type := mkExportRow {
  x_event_date : cell;
  x_client_code : cell;
  x_service_code : cell;
  x_qty : cell;
  x_amount_thb : cell;
  x_fx_rate_thbkrw : cell;
  x_amount_krw : cell;
  x_reference_type : cell;
  x_reference_id : cell;
  x_warehouse_id : cell;
  x_status : cell
}.

Definition row_values (r : ExportRow) : list cell :=
  [x_event_date r; x_client_code r; x_service_code r; x_qty r; x_amount_thb r;
   x_fx_rate_thbkrw r; x_amount_krw r; x_reference_type r; x_reference_id r;
   x_warehouse_id r; x_status r].

(** Lines 786-805: the line of one row. *)
Definition csv_line (r : ExportRow) : string :=
  join (String comma EmptyString) (map csv_cell (row_values r)).

Definition csv_header : string :=
  "event_date,client,service_code,qty,amount_thb,fx_rate_thbkrw,amount_krw,reference_type,reference_id,warehouse_id,status".

(** Line 809: the body that is sent. *)
Definition csv_body (rows : list ExportRow) : string :=
  join (String newline EmptyString) (csv_header :: map csv_line rows).

(** ** Reading an invoice, lines 1367-1428 *)

(** What the schema probes of lines 1369-1380 find; the probe for column
    invoice_date is [has_invoice_date] of the store. *)
Record InvoiceSchema : Type := mkInvoiceSchema {
  hasInvoices : bool;
  hasInvoiceMonth : bool;
  hasFxRate : bool;
  hasSubtotal : bool;
  hasVat : bool;
  hasTotalKrw : bool;
  hasInvoiceItems : bool
}.

(** The columns of table clients the route reads. *)
Record Client : Type := mkClient {
  cl_id : Z;
  cl_client_code : string;
  cl_name_kr : string
}.

(** [(MOD(x, 100) = 0)]: null on a null operand. *)
Definition mod100_is_zero (x : option num) : option bool :=
  match x with
  | Some (Fin q) => Some (Qeq_bool (q - inject_Z (Qfloor (q / 100)) * 100) 0)
  | _ => None
  end.

(** The invoice of the answer: the selected columns the model keeps and the
    three flags. *)
Record InvoiceView : Type := mkInvoiceView {
  v_id : Z;
  v_client_id : Z;
  v_client_code : string;
  v_name_kr : string;
  v_invoice_no : InvoiceNo;
  v_invoice_month : month;
  v_invoice_date : option date;
  v_fx_rate_thbkrw : option num;
  v_subtotal_krw : option num;
  v_vat_krw : option num;
  v_total_krw : option num;
  v_status : InvoiceStatus;
  v_subtotal_trunc100 : option bool;
  v_vat_trunc100 : option bool;
  v_total_trunc100 : option bool
}.

Record ItemView : Type := mkItemView {
  iv_item : InvoiceItem;
  iv_unit_price_trunc100 : option bool;
  iv_amount_trunc100 : option bool
}.

Inductive InvoiceAnswer : Type :=
| InvoiceNotFound
| InvoiceFound (invoice : InvoiceView) (items : list ItemView).

(** [invoiceMonthExpr], lines 114-116, and [invoiceDateExpr], lines 133-135. *)
Definition invoiceMonthExpr (hasInvoiceMonthColumn : bool) (i : Invoice) : month :=
  if hasInvoiceMonthColumn then inv_invoice_month i
  else mkMonth (d_year (inv_issue_date i)) (d_month (inv_issue_date i)).

Definition invoiceDateExpr (hasInvoiceDateColumn : bool) (i : Invoice) : option date :=
  if hasInvoiceDateColumn then inv_invoice_date i else Some (inv_issue_date i).

(** Lines 1389-1400: one row of the join of an invoice with a client. *)
Definition invoice_view (schema : InvoiceSchema) (hasInvoiceDate : bool)
    (i : Invoice) (c : Client) : InvoiceView :=
  let subtotalExpr := if hasSubtotal schema then Some (inv_subtotal_krw i) else Some (Fin 0) in
  let vatExpr := if hasVat schema then Some (inv_vat_krw i) else Some (Fin 0) in
  let totalExpr :=
    if hasTotalKrw schema then Some (inv_total_krw i) else Some (inv_total_amount i) in
  mkInvoiceView (inv_id i) (inv_client_id i) (cl_client_code c) (cl_name_kr c)
                (inv_invoice_no i) (invoiceMonthExpr (hasInvoiceMonth schema) i)
                (invoiceDateExpr hasInvoiceDate i)
                (if hasFxRate schema then Some (inv_fx_rate_thbkrw i) else None)
                subtotalExpr vatExpr totalExpr (inv_status i)
                (mod100_is_zero subtotalExpr) (mod100_is_zero vatExpr)
                (mod100_is_zero totalExpr).

Definition item_view (it : InvoiceItem) : ItemView :=
  mkItemView it (mod100_is_zero (Some (it_unit_price_krw it)))
             (mod100_is_zero (Some (it_amount_krw it))).

(** GET /billing/invoices/:id. *)
Definition getInvoice (schema : InvoiceSchema) (clients : list Client) (id : Z) (db : Store)
    : InvoiceAnswer :=
  if negb (hasInvoices schema) then InvoiceNotFound
  else
    let invoiceRows :=
      flat_map (fun i => map (invoice_view schema (has_invoice_date db) i)
                             (filter (fun c => (cl_id c =? inv_client_id i)%Z) clients))
               (filter (fun i => (inv_id i =? id)%Z && is_null (inv_deleted_at i))
                       (invoices db)) in
    match invoiceRows with
    | [] => InvoiceNotFound
    | invoice :: _ =>
        let itemRows :=
          if hasInvoiceItems schema
          then map item_view
                   (order_by_id it_id
                      (filter (fun it => (it_invoice_id it =? id)%Z
                                         && is_null (it_deleted_at it))
                              (invoice_items db)))
          else [] in
        InvoiceFound invoice itemRows
    end.

(** ** Billing units of the service catalogue *)

(** [mapBillingBasisFromUnit], lines 36-41. *)
Definition mapBillingBasisFromUnit (unit : string) : string :=
  if String.eqb unit "ORDER" then "ORDER"
  else if String.eqb unit "BOX" then "BOX"
  else if String.eqb unit "SKU" then "QTY"
  else "MANUAL".

(** [billingUnitExpr], lines 341-343: the billing unit the catalogue lists
    for a row, read from column billing_unit when the schema has it and
    derived from billing_basis otherwise. *)
Definition billingUnitExpr (hasBillingUnit : bool) (billing_unit billing_basis : string)
    : string :=
  if hasBillingUnit then billing_unit
  else if String.eqb billing_basis "ORDER" then "ORDER"
  else if String.eqb billing_basis "BOX" then "BOX"
  else if String.eqb billing_basis "QTY" then "SKU"
  else "EVENT".

(** ** Inbound orders, src/routes/inboundOrders.js

    The routes run statement by statement on the pool, outside any
    transaction.  Text columns and statuses are strings; the id of the URL and
    the numeric fields of the body are integers. *)

Module Inbound.

Record InboundOrder : Type := mkInboundOrder {
  io_id : Z;
  io_inbound_no : string;
  io_client_id : Z;
  io_warehouse_id : Z;
  io_inbound_date : string;
  io_status : string;
  io_memo : option string;
  io_created_by : Z;
  io_received_at : option string;
  io_deleted_at : option Z
}.

(** A row of inbound_order_logs, lines 46-57. *)
Record OrderLog : Type := mkOrderLog {
  log_id : Z;
  log_order_id : Z;
  log_action : string;
  log_from_status : option string;
  log_to_status : option string;
  log_note : option string;
  log_actor_user_id : option Z
}.

Record InboundStore : Type := mkInboundStore {
  inbound_orders : list InboundOrder;
  inbound_order_logs : list OrderLog
}.

(** The request body; [None] is a field that is undefined or null. *)
Record InboundPayload : Type := mkInboundPayload {
  ip_inbound_no : string;
  ip_client_id : Z;
  ip_warehouse_id : Z;
  ip_inbound_date : string;
  ip_status : option string;
  ip_memo : option string;
  ip_created_by : Z;
  ip_received_at : option string
}.

(** The errors a statement can raise, as the routes tell them apart. *)
Inductive DbError : Type :=
| ER_DUP_ENTRY
| ER_NO_REFERENCED_ROW_2
| OtherError.

(** The answers: 201 and 200 with the row read back, 200 of a deletion, 400
    for a missing field, 404, 409 for a duplicate key, 400 for a foreign key,
    500. *)
Inductive Answer : Type :=
| Created (row : option InboundOrder)
| Updated (row : option InboundOrder)
| Deleted
| MissingField
| NotFound
| Duplicate
| InvalidReference
| ServerError.

(** [!s] on a string. *)
Definition empty_string (s : string) : bool :=
  match s with EmptyString => true | _ => false end.

(** [!s] on a string that may be undefined or null. *)
Definition falsy_string (s : option string) : bool :=
  match s with
  | None => true
  | Some s => empty_string s
  end.

(** [s || null]. *)
Definition or_null (s : option string) : option string :=
  if falsy_string s then None else s.

(** [resolveActorUserId], lines 61-67; [user_sub] is [req.user?.sub]. *)
Definition resolveActorUserId (user_sub fallbackUserId : option Z) : option Z :=
  let tokenUserId := match user_sub with Some u => u | None => 0%Z end in
  if (tokenUserId >? 0)%Z then Some tokenUserId
  else
    let fallback := match fallbackUserId with Some f => f | None => 0%Z end in
    if (fallback >? 0)%Z then Some fallback else None.

(** [deriveInboundAction], lines 69-77. *)
Definition deriveInboundAction (fromStatus : option string) (toStatus : string) : string :=
  match fromStatus with
  | None => "create"
  | Some from =>
      if empty_string from then "create"
      else if String.eqb toStatus "submitted" && negb (String.eqb from "submitted")
      then "submit"
      else if String.eqb toStatus "arrived" && negb (String.eqb from "arrived")
      then "arrive"
      else if String.eqb toStatus "received" && negb (String.eqb from "received")
      then "receive"
      else if String.eqb toStatus "cancelled" && negb (String.eqb from "cancelled")
      then "cancel"
      else if negb (String.eqb from toStatus) then "status_change"
      else "update"
  end.

(** [appendInboundOrderLog], lines 79-93. *)
Definition appendInboundOrderLog (inboundOrderId : Z) (action : string)
    (fromStatus toStatus note : option string) (actorUserId : option Z)
    (db : InboundStore) : InboundStore :=
  mkInboundStore (inbound_orders db)
    (inbound_order_logs db
     ++ [mkOrderLog (fresh_id (map log_id (inbound_order_logs db))) inboundOrderId action
                    fromStatus toStatus note actorUserId]).

(** GET /:id/logs, lines 126-142, without the columns joined from users. *)
Definition getLogs (id : Z) (db : InboundStore) : list OrderLog :=
  order_by_id log_id (filter (fun l => (log_order_id l =? id)%Z) (inbound_order_logs db)).

(** The live rows of an id, lines 215-220 and 271-276. *)
Definition existingRows (id : Z) (db : InboundStore) : list InboundOrder :=
  filter (fun o => (io_id o =? id)%Z && is_null (io_deleted_at o)) (inbound_orders db).

Section Routes.

(** The keys and foreign keys of table inbound_orders are declared in a
    schema that is not among the sources: [constraint_error table] is the
    error, if any, with which a statement that would leave [table] fails. *)
Variable constraint_error : list InboundOrder -> option DbError.

(** [toMysqlDateTime], lines 31-42, reads its argument with the Date of the
    host, which is not modelled. *)
Variable toMysqlDateTime : option string -> option string.

(** Lines 184-192 and 258-266. *)
Definition caught (e : DbError) : Answer :=
  match e with
  | ER_DUP_ENTRY => Duplicate
  | ER_NO_REFERENCED_ROW_2 => InvalidReference
  | OtherError => ServerError
  end.

(** POST /, lines 144-193. *)
Definition postInboundOrder (user_sub : option Z) (payload : InboundPayload)
    (db : InboundStore) : Answer * InboundStore :=
  let status := match ip_status payload with Some s => s | None => "draft"%string end in
  if empty_string (ip_inbound_no payload)
     || (ip_client_id payload =? 0)%Z
     || (ip_warehouse_id payload =? 0)%Z
     || empty_string (ip_inbound_date payload)
     || (ip_created_by payload =? 0)%Z
  then (MissingField, db)
  else
    let insertId := fresh_id (map io_id (inbound_orders db)) in
    let row :=
      mkInboundOrder insertId (ip_inbound_no payload) (ip_client_id payload)
                     (ip_warehouse_id payload) (ip_inbound_date payload) status
                     (ip_memo payload) (ip_created_by payload)
                     (toMysqlDateTime (ip_received_at payload)) None in
    let table := inbound_orders db ++ [row] in
    match constraint_error table with
    | Some e => (caught e, db)
    | None =>
        let db1 := mkInboundStore table (inbound_order_logs db) in
        let rows := filter (fun o => (io_id o =? insertId)%Z) (inbound_orders db1) in
        let db2 :=
          appendInboundOrderLog insertId "create" None (Some status)
            (Some ("Created inbound order " ++ ip_inbound_no payload)%string)
            (resolveActorUserId user_sub (Some (ip_created_by payload))) db1 in
        (Created (hd_error rows), db2)
    end.

(** PUT /:id, lines 195-267. *)
Definition putInboundOrder (user_sub : option Z) (id : Z) (payload : InboundPayload)
    (db : InboundStore) : Answer * InboundStore :=
  if empty_string (ip_inbound_no payload)
     || (ip_client_id payload =? 0)%Z
     || (ip_warehouse_id payload =? 0)%Z
     || empty_string (ip_inbound_date payload)
     || falsy_string (ip_status payload)
     || (ip_created_by payload =? 0)%Z
  then (MissingField, db)
  else
    match existingRows id db with
    | [] => (NotFound, db)
    | existing :: _ =>
        let status := match ip_status payload with Some s => s | None => EmptyString end in
        let previousStatus := io_status existing in
        let table :=
          map (fun o => if (io_id o =? id)%Z && is_null (io_deleted_at o)
                        then mkInboundOrder (io_id o) (ip_inbound_no payload)
                               (ip_client_id payload) (ip_warehouse_id payload)
                               (ip_inbound_date payload) status
                               (or_null (ip_memo payload)) (ip_created_by payload)
                               (toMysqlDateTime (ip_received_at payload)) (io_deleted_at o)
                        else o)
              (inbound_orders db) in
        match constraint_error table with
        | Some e => (caught e, db)
        | None =>
            let db1 := mkInboundStore table (inbound_order_logs db) in
            let rows := filter (fun o => (io_id o =? id)%Z) (inbound_orders db1) in
            let db2 :=
              appendInboundOrderLog id
                (deriveInboundAction (Some previousStatus) status)
                (Some previousStatus) (Some status)
                (Some (if negb (String.eqb previousStatus status)
                       then (previousStatus ++ " -> " ++ status)%string
                       else "Inbound order updated"%string))
                (resolveActorUserId user_sub (Some (ip_created_by payload))) db1 in
            (Updated (hd_error rows), db2)
        end
    end.

(** DELETE /:id, lines 269-298. *)
Definition deleteInboundOrder (now : Z) (user_sub : option Z) (id : Z)
    (db : InboundStore) : Answer * InboundStore :=
  match existingRows id db with
  | [] => (NotFound, db)
  | existing :: _ =>
      let affected := existingRows id db in
      let db1 :=
        mkInboundStore
          (map (fun o => if (io_id o =? id)%Z && is_null (io_deleted_at o)
                         then mkInboundOrder (io_id o) (io_inbound_no o) (io_client_id o)
                                (io_warehouse_id o) (io_inbound_date o) (io_status o)
                                (io_memo o) (io_created_by o) (io_received_at o) (Some now)
                         else o)
               (inbound_orders db))
          (inbound_order_logs db) in
      match affected with
      | [] => (NotFound, db1)
      | _ :: _ =>
          (Deleted,
           appendInboundOrderLog id "delete" (Some (io_status existing)) None
             (Some "Inbound order deleted"%string) (resolveActorUserId user_sub None) db1)
      end
  end.

End Routes.

End Inbound.

(** * Properties *)

(** ** Truncation to the hundred *)

Lemma trunc100_fin (x : Q) :
  trunc100 (VNum (Fin x)) = Fin (inject_Z (Qfloor (x / 100) * 100)).
Proof.
  unfold trunc100, or_else, ToBoolean.
  destruct (Qeq_bool x 0) eqn:E; [|reflexivity].
  apply Qeq_bool_eq in E.
  assert (Qfloor (x / 100) = Qfloor (0 / 100)) as ->.
  { apply Qfloor_comp. rewrite E. reflexivity. }
  reflexivity.
Qed.

Lemma trunc100_nan : trunc100 (VNum NaN) = Fin 0.
Proof. reflexivity. Qed.


(** Equal rationals are truncated to the same number, whatever their
    representation as fractions. *)
Lemma trunc100_Qeq (x y : Q) :
  x == y -> trunc100 (VNum (Fin x)) = trunc100 (VNum (Fin y)).
Proof.
  intros H. rewrite !trunc100_fin.
  assert (Qfloor (x / 100) = Qfloor (y / 100)) as ->.
  { apply Qfloor_comp. rewrite H. reflexivity. }
  reflexivity.
Qed.

(** A monetary value: a finite whole multiple of 100. *)
Definition hundreds (n : num) : Prop :=
  exists k : Z, n = Fin (inject_Z (k * 100)).

Lemma trunc100_num_hundreds (n : num) : hundreds (trunc100 (VNum n)).
Proof.
  destruct n as [x|].
  - exists (Qfloor (x / 100)). apply trunc100_fin.
  - exists 0%Z. reflexivity.
Qed.



Lemma inject_Z_hundred (k : Z) : inject_Z (k * 100) == inject_Z k * 100.
Proof. rewrite inject_Z_mult. reflexivity. Qed.

(** Truncating a whole multiple of 100 changes nothing. *)
Lemma trunc100_idem (k : Z) :
  trunc100 (VNum (Fin (inject_Z (k * 100)))) = Fin (inject_Z (k * 100)).
Proof.
  rewrite trunc100_fin. do 3 f_equal.
  assert (inject_Z (k * 100) / 100 == inject_Z k) as E.
  { rewrite inject_Z_hundred. field. }
  rewrite (Qfloor_comp _ _ E). apply Qfloor_Z.
Qed.


(** ** Generation: what a successful run leaves behind *)

(** The store fresh generation runs on: the store of the call, or that store
    with the draft taken apart when a draft is being regenerated (lines
    990-1015). *)
Definition generation_store (now : Z) (p : GeneratePayload) (db : Store) : Store :=
  match existingRows db (client_id p) (invoice_month p) with
  | Some existing =>
      if is_draft (inv_status existing) && regenerate_draft p
      then discard_draft now db (inv_id existing) else db
  | None => db
  end.

Lemma generate_reaches_fresh now us p db inv n f db' :
  generateInvoice now us p db = (Returned (Ok (Fresh inv n f)), db') ->
  generate_fresh us p (generation_store now p db) = (Ok (Fresh inv n f), db').
Proof.
  unfold generateInvoice, withTransaction, generate_callback, generation_store.
  destruct (existingRows db (client_id p) (invoice_month p)) as [existing|].
  - destruct (is_draft (inv_status existing)); simpl.
    + destruct (regenerate_draft p); simpl.
      * destruct (generate_fresh us p (discard_draft now db (inv_id existing))) as [r s].
        intros H. inversion H. reflexivity.
      * intros H. inversion H.
    + intros H. inversion H.
  - destruct (generate_fresh us p db) as [r s]. intros H. inversion H. reflexivity.
Qed.

(** The events the query of lines 1043-1054 selects for a payload. *)
Definition consumed (p : GeneratePayload) (db0 : Store) : list BillingEvent :=
  pendingEvents db0 (client_id p) (fst (monthRange (invoice_month p)))
                (snd (monthRange (invoice_month p))).

(** The id the inserted invoice row receives. *)
Definition new_invoice_id (db0 : Store) : Z := fresh_id (map inv_id (invoices db0)).

Lemma resolveInvoiceSequence_frame db c m :
  let db' := snd (resolveInvoiceSequence db c m) in
  exchange_rates db' = exchange_rates db /\ billing_events db' = billing_events db
  /\ invoices db' = invoices db /\ invoice_items db' = invoice_items db
  /\ service_catalog db' = service_catalog db /\ has_invoice_date db' = has_invoice_date db.
Proof.
  unfold resolveInvoiceSequence. destruct (filter _ _); simpl; repeat split; reflexivity.
Qed.

Lemma fold_max_ge (ids : list Z) x : In x ids -> (x <= fold_right Z.max 0 ids)%Z.
Proof.
  induction ids as [|y ids IH]; simpl; [tauto|].
  intros [->|H]; [lia | specialize (IH H); lia].
Qed.

Lemma fresh_id_gt (ids : list Z) x : In x ids -> (x < fresh_id ids)%Z.
Proof. intros H. apply fold_max_ge in H. unfold fresh_id. lia. Qed.

Lemma fresh_id_neqb {A} (id : A -> Z) (rows : list A) r :
  In r rows -> (id r =? fresh_id (map id rows))%Z = false.
Proof.
  intros H. apply Z.eqb_neq. pose proof (fresh_id_gt (map id rows) (id r) (in_map id _ _ H)). lia.
Qed.

Lemma map_fresh_untouched {A} (id : A -> Z) (f : A -> A) (rows : list A) :
  map (fun r => if (id r =? fresh_id (map id rows))%Z then f r else r) rows = rows.
Proof.
  transitivity (map (fun r => r) rows); [|apply map_id].
  apply map_ext_in. intros r H.
  rewrite (fresh_id_neqb id rows r H). reflexivity.
Qed.

Lemma filter_fresh_nil {A} (id : A -> Z) (rows : list A) :
  filter (fun r => (id r =? fresh_id (map id rows))%Z) rows = [].
Proof.
  assert (forall l, (forall r, In r l -> In r rows) ->
            filter (fun r => (id r =? fresh_id (map id rows))%Z) l = []) as G.
  { induction l as [|r l IH]; intros Hl; simpl; [reflexivity|].
    rewrite (fresh_id_neqb id rows r (Hl r (or_introl eq_refl))).
    apply IH. intros r' Hr'. apply Hl. right. exact Hr'. }
  apply G. auto.
Qed.

(** The intermediate values of a generation on [db0]: the frozen rate, the
    rewritten event table with the aggregation map, the accumulated subtotal
    with the item table, and the three totals. *)
Definition gen_rate (p : GeneratePayload) (db0 : Store) : num :=
  match fxRows db0 (invoice_date p) with Some r => Fin (er_rate r) | None => NaN end.

Definition gen_events (p : GeneratePayload) (db0 : Store) : list BillingEvent * Grouped :=
  consume_events (gen_rate p db0) (new_invoice_id db0) (consumed p db0) (billing_events db0).

Definition gen_items (p : GeneratePayload) (db0 : Store) : num * list InvoiceItem :=
  emit_items (serviceNameMap db0) (new_invoice_id db0) (snd (gen_events p db0)) (invoice_items db0).

Definition gen_totals (p : GeneratePayload) (db0 : Store) : num * num * num :=
  totals (fst (gen_items p db0)).

Lemma generate_fresh_ok us p db0 inv n f db' :
  generate_fresh us p db0 = (Ok (Fresh inv n f), db') ->
  exists fxRow i,
    fxRows db0 (invoice_date p) = Some fxRow
    /\ f = er_id fxRow
    /\ n = List.length (consumed p db0)
    /\ consumed p db0 <> []
    /\ inv = Some i
    /\ inv_id i = new_invoice_id db0
    /\ inv_client_id i = client_id p
    /\ inv_invoice_month i = invoice_month p
    /\ inv_status i = draft
    /\ inv_deleted_at i = None
    /\ inv_fx_rate_thbkrw i = Fin (er_rate fxRow)
    /\ inv_subtotal_krw i = fst (fst (gen_totals p db0))
    /\ inv_vat_krw i = snd (fst (gen_totals p db0))
    /\ inv_total_krw i = snd (gen_totals p db0)
    /\ invoices db' = invoices db0 ++ [i]
    /\ billing_events db' = fst (gen_events p db0)
    /\ invoice_items db'
       = snd (gen_items p db0)
         ++ [vat_item (fresh_id (map it_id (snd (gen_items p db0)))) (new_invoice_id db0)
                      (snd (fst (gen_totals p db0)))]
    /\ exchange_rates db' = exchange_rates (lock_rate db0 (er_id fxRow)).
Proof.
  unfold gen_totals, gen_items, gen_events, gen_rate, generate_fresh, consumed.
  destruct (monthRange (invoice_month p)) as [from to]; simpl fst; simpl snd.
  destruct (fxRows db0 (invoice_date p)) as [fxRow|]; [|discriminate].
  change (pendingEvents (lock_rate db0 (er_id fxRow))) with (pendingEvents db0).
  destruct (pendingEvents db0 (client_id p) from to) as [|e0 events] eqn:Ev; [discriminate|].
  pose proof (resolveInvoiceSequence_frame (lock_rate db0 (er_id fxRow)) (client_id p) (invoice_month p)) as Fr.
  destruct (resolveInvoiceSequence (lock_rate db0 (er_id fxRow)) (client_id p) (invoice_month p)) as [nextSeq db2].
  cbv zeta in Fr. cbn [snd] in Fr. destruct Fr as (Fr1 & Fr2 & Fr3 & Fr4 & Fr5 & Fr6).
  cbn [invoices billing_events invoice_items service_catalog has_invoice_date set_invoices set_billing_events set_invoice_items exchange_rates].
  unfold serviceNameMap, new_invoice_id.
  cbn [invoices billing_events invoice_items service_catalog has_invoice_date set_invoices set_billing_events set_invoice_items exchange_rates].
  rewrite Fr2, Fr3, Fr4, Fr5.
  destruct (consume_events _ _ _ _) as [table grouped].
  cbn [fst snd].
  destruct (emit_items _ _ _ _) as [acc items].
  cbn [fst snd].
  destruct (totals acc) as [[sub vat] tot] eqn:T.
  unfold totals in T; inversion T; subst sub vat tot; clear T.
  cbn [fst snd invoices billing_events invoice_items service_catalog has_invoice_date set_invoices set_billing_events set_invoice_items exchange_rates].
  rewrite map_app, map_fresh_untouched, filter_app, filter_fresh_nil.
  cbn [map filter app inv_id]. rewrite Z.eqb_refl. cbn [filter hd_error app inv_id set_totals].
  rewrite Z.eqb_refl. cbn [hd_error].
  intros H. inversion H; subst. eexists _, _. repeat split; try reflexivity; try discriminate.
  exact Fr1.
Qed.

(** ** The event loop *)

Lemma insert_by_id_perm {A} (id : A -> Z) x (l : list A) :
  Permutation (insert_by_id id x l) (x :: l).
Proof.
  induction l as [|y l IH]; simpl; [reflexivity|].
  destruct (id x <=? id y)%Z; [reflexivity|].
  rewrite IH. apply perm_swap.
Qed.

Lemma order_by_id_perm {A} (id : A -> Z) (l : list A) :
  Permutation (order_by_id id l) l.
Proof.
  induction l as [|x l IH]; simpl; [reflexivity|].
  rewrite insert_by_id_perm. constructor. exact IH.
Qed.

Lemma NoDup_map_filter {A B} (f : A -> B) (keep : A -> bool) (l : list A) :
  NoDup (map f l) -> NoDup (map f (filter keep l)).
Proof.
  induction l as [|x l IH]; simpl; intros H; [constructor|].
  inversion H as [|? ? Hx Hl]; subst.
  destruct (keep x); simpl; [constructor|]; auto.
  intros Hin. apply Hx. apply in_map_iff in Hin as (y & Hy & Hin).
  apply in_map_iff. exists y. split; [exact Hy|]. apply filter_In in Hin. tauto.
Qed.

Lemma NoDup_map_inj_in {A} (id : A -> Z) (l : list A) x y :
  NoDup (map id l) -> In x l -> In y l -> id x = id y -> x = y.
Proof.
  induction l as [|z l IH]; simpl; intros H Hx Hy E; [tauto|].
  inversion H as [|? ? Hz Hl]; subst.
  destruct Hx as [->|Hx], Hy as [->|Hy]; auto.
  - exfalso. apply Hz. rewrite E. apply in_map. exact Hy.
  - exfalso. apply Hz. rewrite <- E. apply in_map. exact Hx.
Qed.

Lemma mem_id_In x ids : mem_id x ids = true <-> In x ids.
Proof.
  unfold mem_id. rewrite existsb_exists. split.
  - intros (y & Hy & E). apply Z.eqb_eq in E. subst. exact Hy.
  - intros H. exists x. split; [exact H | apply Z.eqb_refl].
Qed.

Section Consume.

Variables (fx : num) (invoiceId : Z).

Definition stamped (e : BillingEvent) : BillingEvent :=
  invoice_event (normalizedAmount fx e) fx invoiceId e.

Lemma consume_events_fst (events : list BillingEvent) st :
  fst (fold_left (consume_event fx invoiceId) events st)
  = fold_left (fun t e => mark_invoiced (normalizedAmount fx e) fx invoiceId (be_id e) t)
              events (fst st).
Proof.
  revert st. induction events as [|e events IH]; intros st; simpl; [reflexivity|].
  rewrite IH. reflexivity.
Qed.

Lemma consume_events_snd (events : list BillingEvent) st :
  snd (fold_left (consume_event fx invoiceId) events st)
  = fold_left (fun g e => accumulate g e (normalizedAmount fx e)) events (snd st).
Proof.
  revert st. induction events as [|e events IH]; intros st; simpl; [reflexivity|].
  rewrite IH. reflexivity.
Qed.

Lemma normalizedAmount_stamped_id e : be_id (stamped e) = be_id e.
Proof. reflexivity. Qed.

(** With ids as a key, the loop rewrites exactly the selected rows, each from
    its own fields. *)
Lemma consume_events_table (table events : list BillingEvent) :
  NoDup (map be_id table) ->
  NoDup (map be_id events) ->
  incl events table ->
  fst (consume_events fx invoiceId events table)
  = map (fun r => if mem_id (be_id r) (map be_id events) then stamped r else r) table.
Proof.
  intros Ht. unfold consume_events. rewrite consume_events_fst. simpl fst.
  induction events as [|e events IH] using rev_ind; intros He Hin.
  - simpl. symmetry. apply map_id.
  - rewrite fold_left_app. simpl.
    rewrite map_app in He. simpl in He.
    assert (NoDup (map be_id events)) as He'.
    { apply NoDup_remove_1 in He. rewrite app_nil_r in He. exact He. }
    assert (~ In (be_id e) (map be_id events)) as Hfresh.
    { apply NoDup_remove_2 in He. rewrite app_nil_r in He. exact He. }
    rewrite IH; [|exact He'|intros x Hx; apply Hin, in_or_app; left; exact Hx].
    unfold mark_invoiced. rewrite map_map. apply map_ext_in. intros r Hr.
    assert (In e table) as Het by (apply Hin, in_or_app; right; left; reflexivity).
    rewrite map_app. simpl.
    destruct (mem_id (be_id r) (map be_id events)) eqn:M.
    + assert (mem_id (be_id r) (map be_id events ++ [be_id e]) = true) as ->.
      { apply mem_id_In, in_or_app. left. apply mem_id_In. exact M. }
      replace (be_id (stamped r) =? be_id e)%Z with false; [reflexivity|].
      symmetry. apply Z.eqb_neq. simpl. intros E. apply Hfresh. rewrite <- E.
      apply mem_id_In. exact M.
    + destruct (be_id r =? be_id e)%Z eqn:E.
      * apply Z.eqb_eq in E.
        assert (r = e) by (apply (NoDup_map_inj_in be_id table); assumption). subst r.
        assert (mem_id (be_id e) (map be_id events ++ [be_id e]) = true) as ->.
        { apply mem_id_In, in_or_app. right. left. reflexivity. }
        reflexivity.
      * assert (mem_id (be_id r) (map be_id events ++ [be_id e]) = false) as ->; [|reflexivity].
        apply not_true_is_false. intros C. apply mem_id_In, in_app_or in C.
        destruct C as [C|[C|[]]].
        -- apply mem_id_In in C. congruence.
        -- apply Z.eqb_neq in E. congruence.
Qed.

End Consume.

(** ** Invoice items and sums *)

(** Exact numerical equality of two finite numbers. *)
Definition num_eq (a b : num) : Prop :=
  match a, b with
  | Fin x, Fin y => x == y
  | _, _ => False
  end.

(** The sum the engine forms: left to right from 0. *)
Definition sum_amounts (items : list InvoiceItem) : num :=
  fold_left nadd (map it_amount_krw items) (Fin 0).

(** A finite number whose value is a whole multiple of 100. *)
Definition whole (n : num) : Prop :=
  exists q k, n = Fin q /\ q == inject_Z (k * 100).

Lemma hundreds_whole n : hundreds n -> whole n.
Proof. intros [k ->]. exists (inject_Z (k * 100)), k. split; reflexivity. Qed.

Lemma whole_zero : whole (Fin 0).
Proof. exists 0, 0%Z. split; reflexivity. Qed.

Lemma whole_nadd a b : whole a -> whole b -> whole (nadd a b).
Proof.
  intros (q & k & -> & Hq) (r & j & -> & Hr).
  exists (q + r), (k + j)%Z. split; [reflexivity|].
  rewrite Hq, Hr, Z.mul_add_distr_r, inject_Z_plus. reflexivity.
Qed.

Lemma whole_fold (l : list num) acc :
  whole acc -> Forall whole l -> whole (fold_left nadd l acc).
Proof.
  revert acc. induction l as [|x l IH]; intros acc Ha Hl; simpl; [exact Ha|].
  inversion Hl; subst. apply IH; [apply whole_nadd|]; assumption.
Qed.

Lemma trunc100_whole n : whole n -> hundreds (trunc100 (VNum n)) /\ num_eq (trunc100 (VNum n)) n.
Proof.
  intros (q & k & -> & Hq). split; [apply trunc100_num_hundreds|].
  rewrite (trunc100_Qeq _ _ Hq), trunc100_idem. simpl. symmetry. exact Hq.
Qed.

Section Emit.

Variables (names : list (string * option string)) (invoiceId : Z).

Definition line_ok (entry : string * Agg) (it : InvoiceItem) : Prop :=
  it_invoice_id it = invoiceId
  /\ it_deleted_at it = None
  /\ it_service_code it = fst entry
  /\ it_qty it = agg_qty (snd entry)
  /\ it_amount_krw it = trunc100 (VNum (agg_amount_krw (snd entry)))
  /\ hundreds (it_unit_price_krw it).

Lemma emit_items_lines (grouped : Grouped) acc table :
  exists lines,
    fold_left (emit_item names invoiceId) grouped (acc, table)
    = (fold_left nadd (map it_amount_krw lines) acc, table ++ lines)
    /\ Forall2 line_ok grouped lines.
Proof.
  revert acc table. induction grouped as [|entry grouped IH]; intros acc table.
  - exists []. simpl. rewrite app_nil_r. split; [reflexivity | constructor].
  - simpl. unfold emit_item at 2. cbn [fst snd].
    match goal with
    | |- context [table ++ [?it]] => set (item := it)
    end.
    destruct (IH (nadd acc (trunc100 (VNum (agg_amount_krw (snd entry))))) (table ++ [item]))
      as (lines & E & F).
    exists (item :: lines). split.
    + rewrite E. simpl. rewrite <- app_assoc. reflexivity.
    + constructor; [|exact F].
      unfold line_ok, item; cbn. repeat split.
      destruct (ngt _ _); apply trunc100_num_hundreds.
Qed.

End Emit.

Lemma Forall2_line_codes id g lines :
  Forall2 (line_ok id) g lines -> map it_service_code lines = map fst g.
Proof.
  induction 1 as [|en it g lines H _ IH]; simpl; [reflexivity|].
  destruct H as (_ & _ & -> & _). rewrite IH. reflexivity.
Qed.

Lemma Forall2_line_amounts id g lines :
  Forall2 (line_ok id) g lines -> Forall whole (map it_amount_krw lines).
Proof.
  induction 1 as [|en it g lines H _ IH]; simpl; constructor; [|exact IH].
  destruct H as (_ & _ & _ & _ & -> & _). apply hundreds_whole, trunc100_num_hundreds.
Qed.

(** Keys of the aggregation map. *)
Lemma grouped_update_keys g code f : map fst (grouped_update g code f) = map fst g.
Proof.
  induction g as [|[k a] g IH]; simpl; [reflexivity|].
  destruct (String.eqb k code); simpl; [reflexivity|]. rewrite IH. reflexivity.
Qed.

Lemma accumulate_keys g e amount :
  map fst (accumulate g e amount)
  = if grouped_has g (be_service_code e) then map fst g
    else map fst g ++ [be_service_code e].
Proof.
  unfold accumulate. rewrite grouped_update_keys.
  destruct (grouped_has g (be_service_code e)); [reflexivity|].
  rewrite map_app. reflexivity.
Qed.

Lemma grouped_keys_from_events fx (events : list BillingEvent) g code :
  In code (map fst (fold_left (fun g e => accumulate g e (normalizedAmount fx e)) events g)) ->
  In code (map fst g) \/ In code (map be_service_code events).
Proof.
  revert g. induction events as [|e events IH]; intros g; simpl; [tauto|].
  intros H. apply IH in H. destruct H as [H|H]; [|tauto].
  rewrite accumulate_keys in H. destruct (grouped_has g (be_service_code e)); [tauto|].
  apply in_app_or in H. destruct H as [H|[<-|[]]]; tauto.
Qed.

(** ** Normalized amounts *)










Lemma normalizedAmount_hundreds fx e : hundreds (normalizedAmount fx e).
Proof.
  unfold normalizedAmount. destruct (be_pricing_policy e); apply trunc100_num_hundreds.
Qed.

(** ** The store generation starts from *)

Lemma discard_draft_frame now db id :
  exchange_rates (discard_draft now db id) = exchange_rates db
  /\ map be_id (billing_events (discard_draft now db id)) = map be_id (billing_events db)
  /\ map inv_id (invoices (discard_draft now db id)) = map inv_id (invoices db)
  /\ map it_invoice_id (invoice_items (discard_draft now db id))
     = map it_invoice_id (invoice_items db)
  /\ service_catalog (discard_draft now db id) = service_catalog db
  /\ invoice_sequences (discard_draft now db id) = invoice_sequences db
  /\ has_invoice_date (discard_draft now db id) = has_invoice_date db.
Proof.
  unfold discard_draft; cbn. repeat split; rewrite map_map; apply map_ext; intros r;
    match goal with |- context [if ?c then _ else _] => destruct c end; reflexivity.
Qed.

Lemma generation_store_frame now p db :
  exchange_rates (generation_store now p db) = exchange_rates db
  /\ map be_id (billing_events (generation_store now p db)) = map be_id (billing_events db)
  /\ map inv_id (invoices (generation_store now p db)) = map inv_id (invoices db)
  /\ map it_invoice_id (invoice_items (generation_store now p db))
     = map it_invoice_id (invoice_items db)
  /\ service_catalog (generation_store now p db) = service_catalog db
  /\ invoice_sequences (generation_store now p db) = invoice_sequences db
  /\ has_invoice_date (generation_store now p db) = has_invoice_date db.
Proof.
  unfold generation_store.
  destruct (existingRows db (client_id p) (invoice_month p)) as [existing|];
    [|repeat split; reflexivity].
  destruct (is_draft (inv_status existing) && regenerate_draft p);
    [apply discard_draft_frame | repeat split; reflexivity].
Qed.

Lemma fxRows_generation_store now p db d :
  fxRows (generation_store now p db) d = fxRows db d.
Proof.
  unfold fxRows. destruct (generation_store_frame now p db) as (-> & _). reflexivity.
Qed.

Lemma consumed_spec p db0 e :
  In e (consumed p db0)
  <-> In e (billing_events db0)
      /\ pending_event (client_id p) (fst (monthRange (invoice_month p)))
                       (snd (monthRange (invoice_month p))) e = true.
Proof.
  unfold consumed, pendingEvents. rewrite <- filter_In. split; intros H.
  - eapply Permutation_in; [apply order_by_id_perm | exact H].
  - eapply Permutation_in; [symmetry; apply order_by_id_perm | exact H].
Qed.

Lemma consumed_NoDup p db0 :
  NoDup (map be_id (billing_events db0)) -> NoDup (map be_id (consumed p db0)).
Proof.
  intros H. unfold consumed, pendingEvents.
  eapply Permutation_NoDup.
  - apply Permutation_map. symmetry. apply order_by_id_perm.
  - apply NoDup_map_filter. exact H.
Qed.

(** ** A small store: one rate, one THB event and one KRW event *)

Definition demo_rate : ExchangeRate :=
  mkRate 1 (mkDate 2026 1 1) "THB" "KRW" (391234 # 10000) rate_active false None.

Definition demo_shipping : BillingEvent :=
  mkEvent 1 1 "TH_SHIPPING" (mkDate 2026 1 5) (VNum (Fin 1)) THB_BASED
          (VNum (Fin 120)) (VNum (Fin 120)) VNull VNull VNull PENDING None None.

Definition demo_outbound : BillingEvent :=
  mkEvent 2 1 "OUTBOUND_FEE" (mkDate 2026 1 9) (VNum (Fin 3)) KRW_FIXED
          VNull VNull (VNum (Fin 3500)) (VNum (Fin 10500)) VNull PENDING None None.

Definition demo_store : Store :=
  mkStore [demo_rate] [demo_shipping; demo_outbound] [] [] [] [] true.

Definition demo_payload : GeneratePayload :=
  mkPayload 1 (mkMonth 2026 1) (mkDate 2026 1 31) false None.

Definition demo_invoice : Invoice :=
  mkInvoice 1 1 (mkMonth 2026 1) (mkInvoiceNo 1 (mkMonth 2026 1) 1) draft
            (mkDate 2026 1 31) (Some (mkDate 2026 1 31)) (mkDate 2026 1 31)
            (Fin (391234 # 10000)) (Fin 15100) (Fin 1000) (Fin 16100) (Fin 16100)
            1 None.

Definition demo_generated : Store :=
  snd (generateInvoice 0 None demo_payload demo_store).

(** Generating the demo invoice. *)
Lemma demo_generate :
  generateInvoice 0 None demo_payload demo_store
  = (Returned (Ok (Fresh (Some demo_invoice) 2 1)), demo_generated).
Proof. vm_compute. reflexivity. Qed.

(** ** Normalized amounts are stamped on the consumed events *)


(** Keys of the demo store. *)
Lemma demo_event_ids : NoDup (map be_id (billing_events demo_store)).
Proof.
  simpl. repeat constructor; simpl; intuition discriminate.
Qed.


(** ** Totals of a generated invoice *)

(** The live items of an invoice. *)
Definition items_of (db : Store) (invoiceId : Z) : list InvoiceItem :=
  filter (fun it => (it_invoice_id it =? invoiceId)%Z && is_null (it_deleted_at it))
         (invoice_items db).

Definition not_vat (it : InvoiceItem) : bool :=
  negb (String.eqb (it_service_code it) "VAT_7").

(** Foreign key of invoice_items: every item points to a row of invoices. *)
Definition items_reference_invoices (db : Store) : Prop :=
  forall it, In it (invoice_items db) ->
             In (it_invoice_id it) (map inv_id (invoices db)).

Lemma items_reference_generation_store now p db :
  items_reference_invoices db ->
  items_reference_invoices (generation_store now p db).
Proof.
  intros H it Hit.
  destruct (generation_store_frame now p db) as (_ & _ & -> & E & _).
  apply (in_map it_invoice_id) in Hit. rewrite E in Hit.
  apply in_map_iff in Hit as (it' & <- & Hit'). apply H. exact Hit'.
Qed.

Lemma items_of_fresh db0 lines v :
  items_reference_invoices db0 ->
  Forall (fun it => it_invoice_id it = new_invoice_id db0 /\ it_deleted_at it = None)
         (lines ++ [v]) ->
  filter (fun it => (it_invoice_id it =? new_invoice_id db0)%Z && is_null (it_deleted_at it))
         (invoice_items db0 ++ lines ++ [v])
  = lines ++ [v].
Proof.
  intros Hfk Hl. rewrite filter_app.
  assert (filter (fun it => (it_invoice_id it =? new_invoice_id db0)%Z
                            && is_null (it_deleted_at it)) (invoice_items db0) = []) as ->.
  { assert (forall l, incl l (invoice_items db0) ->
              filter (fun it => (it_invoice_id it =? new_invoice_id db0)%Z
                                && is_null (it_deleted_at it)) l = []) as G.
    { induction l as [|it l IH]; intros Hin; simpl; [reflexivity|].
      assert ((it_invoice_id it =? new_invoice_id db0)%Z = false) as ->.
      { apply Z.eqb_neq. unfold new_invoice_id.
        pose proof (fresh_id_gt _ _ (Hfk it (Hin it (or_introl eq_refl)))). lia. }
      simpl. apply IH. intros x Hx. apply Hin. right. exact Hx. }
    apply G. apply incl_refl. }
  simpl. induction Hl as [|it l [E D] _ IH]; simpl; [reflexivity|].
  rewrite E, D, Z.eqb_refl. simpl. rewrite IH. reflexivity.
Qed.

(** What generation appends to invoice_items: a line per group, then the VAT
    row. *)
Lemma generated_items p db0 :
  exists lines,
    gen_items p db0 = (sum_amounts lines, invoice_items db0 ++ lines)
    /\ Forall2 (line_ok (new_invoice_id db0)) (snd (gen_events p db0)) lines.
Proof.
  unfold gen_items, emit_items, sum_amounts. apply emit_items_lines.
Qed.

Lemma line_ok_owned id g lines :
  Forall2 (line_ok id) g lines ->
  Forall (fun it => it_invoice_id it = id /\ it_deleted_at it = None) lines.
Proof.
  induction 1 as [|en it g lines H _ IH]; constructor; [|exact IH].
  destruct H as (H1 & H2 & _). split; assumption.
Qed.

Lemma line_ok_money id g lines :
  Forall2 (line_ok id) g lines ->
  Forall (fun it => hundreds (it_amount_krw it) /\ hundreds (it_unit_price_krw it)) lines.
Proof.
  induction 1 as [|en it g lines H _ IH]; constructor; [|exact IH].
  destruct H as (_ & _ & _ & _ & E & U). split; [|exact U].
  rewrite E. apply trunc100_num_hundreds.
Qed.

Lemma generated_codes p db0 lines it :
  Forall2 (line_ok (new_invoice_id db0)) (snd (gen_events p db0)) lines ->
  In it lines ->
  exists e, In e (consumed p db0) /\ it_service_code it = be_service_code e.
Proof.
  intros F Hit. apply Forall2_line_codes in F.
  apply (in_map it_service_code) in Hit. rewrite F in Hit.
  unfold gen_events, consume_events in Hit. rewrite consume_events_snd in Hit.
  apply grouped_keys_from_events in Hit. destruct Hit as [[]|Hit].
  apply in_map_iff in Hit as (e & E & He). exists e. split; [exact He | symmetry; exact E].
Qed.

Lemma totals_money acc :
  whole acc ->
  hundreds (fst (fst (totals acc))) /\ hundreds (snd (fst (totals acc)))
  /\ hundreds (snd (totals acc))
  /\ num_eq (fst (fst (totals acc))) acc
  /\ num_eq (snd (totals acc)) (nadd (fst (fst (totals acc))) (snd (fst (totals acc)))).
Proof.
  intros Hacc. unfold totals; cbn [fst snd].
  destruct (trunc100_whole acc Hacc) as (Hs & Es).
  repeat split; try apply trunc100_num_hundreds; [exact Es|].
  apply trunc100_whole. apply whole_nadd; apply hundreds_whole, trunc100_num_hundreds.
Qed.

Lemma sum_amounts_whole id g lines :
  Forall2 (line_ok id) g lines -> whole (sum_amounts lines).
Proof.
  intros F. unfold sum_amounts. apply whole_fold; [apply whole_zero|].
  eapply Forall2_line_amounts. exact F.
Qed.

(** One successful generation, seen from its invoice: the totals, the service
    lines and the VAT row. *)
Lemma generated_invoice now us p db inv n f db' :
  generateInvoice now us p db = (Returned (Ok (Fresh inv n f)), db') ->
  exists i lines,
    inv = Some i
    /\ inv_id i = new_invoice_id (generation_store now p db)
    /\ inv_subtotal_krw i = trunc100 (VNum (sum_amounts lines))
    /\ inv_vat_krw i = trunc100 (VNum (nmul (inv_subtotal_krw i) vat_rate))
    /\ inv_total_krw i = trunc100 (VNum (nadd (inv_subtotal_krw i) (inv_vat_krw i)))
    /\ Forall2 (line_ok (inv_id i)) (snd (gen_events p (generation_store now p db))) lines
    /\ invoice_items db'
       = invoice_items (generation_store now p db) ++ lines
         ++ [vat_item (fresh_id (map it_id (invoice_items (generation_store now p db) ++ lines)))
                      (inv_id i) (inv_vat_krw i)].
Proof.
  intros H. apply generate_reaches_fresh in H.
  set (db0 := generation_store now p db) in *.
  apply generate_fresh_ok in H.
  destruct H as (fxRow & i & _ & _ & _ & _ & -> & Hid & _ & _ & _ & _ & _ & Hs & Hv & Ht
                 & _ & _ & Hit & _).
  destruct (generated_items p db0) as (lines & E & F).
  unfold gen_totals in Hs, Hv, Ht, Hit. rewrite E in Hs, Hv, Ht, Hit.
  unfold totals in Hs, Hv, Ht, Hit. cbn [fst snd] in Hs, Hv, Ht, Hit.
  exists i, lines. rewrite Hid, Hs, Hv, Ht, Hit, <- app_assoc.
  repeat split; try reflexivity. exact F.
Qed.

(** C2 (as amended). For the invoice of a successful generation, on a store
    whose items point to existing invoices: its live items are the service
    lines followed by the one VAT row the engine appends; subtotal_krw is
    exactly the sum of amount_krw over the service lines; total_krw is
    exactly subtotal_krw + vat_krw; and when no consumed event carries the
    service code VAT_7, the service lines are exactly the items whose
    service_code is not VAT_7. *)
Theorem C2_conservation now us p db inv n f db' :
  items_reference_invoices db ->
  generateInvoice now us p db = (Returned (Ok (Fresh inv n f)), db') ->
  exists i lines v,
    inv = Some i
    /\ items_of db' (inv_id i) = lines ++ [v]
    /\ v = vat_item (it_id v) (inv_id i) (inv_vat_krw i)
    /\ num_eq (inv_subtotal_krw i) (sum_amounts lines)
    /\ num_eq (inv_total_krw i) (nadd (inv_subtotal_krw i) (inv_vat_krw i))
    /\ ((forall e, In e (consumed p (generation_store now p db)) ->
                   String.eqb (be_service_code e) "VAT_7" = false) ->
        filter not_vat (items_of db' (inv_id i)) = lines).
Proof.
  intros Hfk H.
  destruct (generated_invoice now us p db inv n f db' H)
    as (i & lines & -> & Hid & Hs & Hv & Ht & F & Hit).
  set (db0 := generation_store now p db) in *.
  set (v := vat_item (fresh_id (map it_id (invoice_items db0 ++ lines))) (inv_id i)
                     (inv_vat_krw i)) in *.
  assert (items_of db' (inv_id i) = lines ++ [v]) as Hitems.
  { unfold items_of. rewrite Hit, Hid.
    apply items_of_fresh.
    - apply items_reference_generation_store. exact Hfk.
    - apply Forall_app. split.
      + rewrite <- Hid. eapply line_ok_owned. exact F.
      + constructor; [|constructor]. split; [exact Hid | reflexivity]. }
  pose proof (sum_amounts_whole _ _ _ F) as Hw.
  destruct (totals_money _ Hw) as (_ & _ & _ & Es & Et).
  unfold totals in Es, Et; cbn [fst snd] in Es, Et.
  exists i, lines, v. repeat split.
  - exact Hitems.
  - rewrite Hs. exact Es.
  - rewrite Ht, Hv, Hs. exact Et.
  - intros Hcodes. rewrite Hitems, filter_app. simpl.
    rewrite app_nil_r.
    assert (forall l, incl l lines -> filter not_vat l = l) as G.
    { induction l as [|it l IH]; intros Hin; simpl; [reflexivity|].
      destruct (generated_codes p db0 lines it) as (e & He & E).
      - rewrite <- Hid. exact F.
      - apply Hin. left. reflexivity.
      - unfold not_vat at 1. rewrite E, (Hcodes e He). simpl.
        rewrite IH; [reflexivity|]. intros x Hx. apply Hin. right. exact Hx. }
    apply G, incl_refl.
Qed.

(** A store whose only pending event carries the service code VAT_7. *)
Definition vat_coded_event : BillingEvent :=
  mkEvent 1 1 "VAT_7" (mkDate 2026 1 9) (VNum (Fin 1)) KRW_FIXED
          VNull VNull (VNum (Fin 1000)) (VNum (Fin 1000)) VNull PENDING None None.

Definition vat_coded_store : Store :=
  mkStore [demo_rate] [vat_coded_event] [] [] [] [] true.

Definition vat_coded_invoice : Invoice :=
  mkInvoice 1 1 (mkMonth 2026 1) (mkInvoiceNo 1 (mkMonth 2026 1) 1) draft
            (mkDate 2026 1 31) (Some (mkDate 2026 1 31)) (mkDate 2026 1 31)
            (Fin (391234 # 10000)) (Fin 1000) (Fin 0) (Fin 1000) (Fin 1000)
            1 None.

Definition vat_coded_generated : Store :=
  snd (generateInvoice 0 None demo_payload vat_coded_store).

(** C2 in the specification's wording fails there: the subtotal is 1000 while
    the items whose service code is not VAT_7 sum to 0. *)
Lemma C2_counterexample :
  generateInvoice 0 None demo_payload vat_coded_store
  = (Returned (Ok (Fresh (Some vat_coded_invoice) 1 1)), vat_coded_generated)
  /\ inv_subtotal_krw vat_coded_invoice = Fin 1000
  /\ sum_amounts (filter (fun it => negb (String.eqb (it_service_code it) "VAT_7"))
                         (items_of vat_coded_generated (inv_id vat_coded_invoice)))
     = Fin 0
  /\ ~ num_eq (Fin 1000) (Fin 0).
Proof.
  split; [vm_compute; reflexivity|]. split; [reflexivity|].
  split; [vm_compute; reflexivity|].
  simpl. intros H. discriminate H.
Qed.

Lemma demo_items_reference : items_reference_invoices demo_store.
Proof. intros it []. Qed.

(** C2 at the demo store, where no event is coded VAT_7. *)
Lemma C2_witness :
  items_reference_invoices demo_store
  /\ generateInvoice 0 None demo_payload demo_store
     = (Returned (Ok (Fresh (Some demo_invoice) 2 1)), demo_generated)
  /\ num_eq (inv_subtotal_krw demo_invoice)
            (sum_amounts (filter not_vat (items_of demo_generated (inv_id demo_invoice))))
  /\ num_eq (inv_total_krw demo_invoice)
            (nadd (inv_subtotal_krw demo_invoice) (inv_vat_krw demo_invoice)).
Proof.
  split; [exact demo_items_reference|]. split; [exact demo_generate|].
  destruct (C2_conservation 0 None demo_payload demo_store _ _ _ _
              demo_items_reference demo_generate)
    as (i & lines & v & Hinv & _ & _ & Hs & Ht & Hl).
  inversion Hinv; subst i. split; [|exact Ht].
  rewrite Hl; [exact Hs|].
  intros e He. vm_compute in He.
  destruct He as [<-|[<-|[]]]; reflexivity.
Defined.

(** C5. For the invoice of a successful generation: vat_krw is
    trunc100(subtotal_krw * 0.07) and total_krw is
    trunc100(subtotal_krw + vat_krw); the rows appended to invoice_items are
    the service lines, each carrying the service code of a consumed event,
    followed by exactly one synthetic row with service code VAT_7, quantity 1
    and amount vat_krw; and a subtotal of 15100 gives vat_krw 1000 and
    total_krw 16100. *)
Theorem C5_vat_and_total now us p db inv n f db' :
  generateInvoice now us p db = (Returned (Ok (Fresh inv n f)), db') ->
  exists i lines v,
    inv = Some i
    /\ inv_vat_krw i = trunc100 (VNum (nmul (inv_subtotal_krw i) (Fin (7 # 100))))
    /\ inv_total_krw i = trunc100 (VNum (nadd (inv_subtotal_krw i) (inv_vat_krw i)))
    /\ invoice_items db' = invoice_items (generation_store now p db) ++ lines ++ [v]
    /\ (forall it, In it lines ->
          it_invoice_id it = inv_id i
          /\ exists e, In e (consumed p (generation_store now p db))
                       /\ it_service_code it = be_service_code e)
    /\ v = mkItem (it_id v) (inv_id i) "VAT_7" "VAT 7%" (Fin 1)
                  (inv_vat_krw i) (inv_vat_krw i) None
    /\ (inv_subtotal_krw i = Fin 15100 ->
        inv_vat_krw i = Fin 1000 /\ inv_total_krw i = Fin 16100).
Proof.
  intros H.
  destruct (generated_invoice now us p db inv n f db' H)
    as (i & lines & -> & Hid & Hs & Hv & Ht & F & Hit).
  eexists i, lines, _. split; [reflexivity|]. split; [exact Hv|]. split; [exact Ht|].
  split; [exact Hit|]. split; [|split; [reflexivity|]].
  - intros it Hin. split.
    + pose proof (line_ok_owned _ _ _ F) as O. rewrite Forall_forall in O.
      apply O. exact Hin.
    + rewrite Hid in F. eapply generated_codes; eassumption.
  - intros E. rewrite Ht, Hv, E. split; reflexivity.
Qed.

(** C5 at the demo store: subtotal 15100, VAT 1000, total 16100. *)
Lemma C5_witness :
  generateInvoice 0 None demo_payload demo_store
  = (Returned (Ok (Fresh (Some demo_invoice) 2 1)), demo_generated)
  /\ inv_subtotal_krw demo_invoice = Fin 15100
  /\ inv_vat_krw demo_invoice = Fin 1000
  /\ inv_total_krw demo_invoice = Fin 16100.
Proof.
  split; [exact demo_generate|]. split; [reflexivity|].
  destruct (C5_vat_and_total 0 None demo_payload demo_store _ _ _ _ demo_generate)
    as (i & lines & v & Hinv & _ & _ & _ & _ & _ & Hscenario).
  inversion Hinv; subst i. apply Hscenario. reflexivity.
Defined.

(** ** No NaN among the amounts *)

Lemma number_or_zero_finite (v : value) :
  v <> VObject -> exists q, Number (or_else v (VNum (Fin 0))) = Fin q.
Proof.
  destruct v as [| |[|]|[q|]|]; intros Hv; try (eexists; reflexivity).
  - unfold or_else, ToBoolean. destruct (Qeq_bool q 0); eexists; reflexivity.
  - contradiction.
Qed.








(** ** Choosing the exchange rate *)

Lemma first_by_none {A} (before : A -> A -> bool) (rows : list A) :
  first_by before rows = None <-> rows = [].
Proof.
  destruct rows as [|x rest]; simpl; [tauto|].
  split; [|discriminate].
  destruct (first_by before rest) as [y|]; [destruct (before y x)|]; discriminate.
Qed.

Lemma first_by_in {A} (before : A -> A -> bool) (rows : list A) x :
  first_by before rows = Some x -> In x rows.
Proof.
  revert x. induction rows as [|y rest IH]; simpl; intros x H; [discriminate|].
  destruct (first_by before rest) as [z|].
  - destruct (before z y); inversion H; subst; auto.
  - inversion H. auto.
Qed.

(** Nothing is sorted strictly before the chosen row, provided [before] is
    the strict part of a total preorder. *)
Lemma first_by_best {A} (before : A -> A -> bool) (rows : list A) x :
  (forall a b c, before a b = false -> before b c = false -> before a c = false) ->
  (forall a b, before a b = true -> before b a = false) ->
  first_by before rows = Some x ->
  forall y, In y rows -> before y x = false.
Proof.
  intros Htrans Hasym.
  assert (forall a, before a a = false) as Hirr.
  { intros a. destruct (before a a) eqn:E; [|reflexivity].
    rewrite (Hasym a a E) in E. discriminate. }
  revert x.
  induction rows as [|r rest IH]; simpl; intros x H y Hy; [tauto|].
  destruct (first_by before rest) as [z|] eqn:E.
  - destruct (before z r) eqn:B; inversion H; subst.
    + destruct Hy as [<-|Hy]; [apply Hasym; exact B | apply (IH x eq_refl y Hy)].
    + destruct Hy as [<-|Hy]; [apply Hirr|].
      apply (Htrans y z x); [apply (IH z eq_refl y Hy) | exact B].
  - inversion H; subst. destruct Hy as [<-|Hy]; [apply Hirr|].
    apply first_by_none in E. subst rest. destruct Hy.
Qed.

(** Chronological order of dates. *)
Definition date_lt (a b : date) : Prop :=
  (d_year a < d_year b)%Z
  \/ (d_year a = d_year b
      /\ ((d_month a < d_month b)%Z \/ (d_month a = d_month b /\ (d_day a < d_day b)%Z))).

Lemma date_ltb_spec a b : date_ltb a b = true <-> date_lt a b.
Proof.
  unfold date_ltb, date_lt.
  rewrite !orb_true_iff, !andb_true_iff, !orb_true_iff, !andb_true_iff,
    !Z.ltb_lt, !Z.eqb_eq. tauto.
Qed.

Lemma date_eqb_spec a b : date_eqb a b = true <-> a = b.
Proof.
  unfold date_eqb. rewrite !andb_true_iff, !Z.eqb_eq.
  destruct a, b; simpl. split; [intros [[-> ->] ->]; reflexivity|].
  intros H; inversion H; auto.
Qed.

Lemma date_ltb_false a b : date_ltb a b = false <-> date_lt b a \/ a = b.
Proof.
  rewrite <- not_true_iff_false, date_ltb_spec. unfold date_lt.
  destruct a as [y1 m1 d1], b as [y2 m2 d2]; simpl. split.
  - intros H.
    destruct (Z.lt_trichotomy y1 y2) as [?|[?|?]]; [tauto| |tauto].
    destruct (Z.lt_trichotomy m1 m2) as [?|[?|?]]; [tauto| |lia].
    destruct (Z.lt_trichotomy d1 d2) as [?|[?|?]]; [tauto| |lia].
    right. congruence.
  - intros [H|H]; [lia|]. inversion H. lia.
Qed.

Lemma rate_before_spec a b :
  rate_before a b = true
  <-> date_lt (er_rate_date b) (er_rate_date a)
      \/ (er_rate_date a = er_rate_date b /\ (er_id b < er_id a)%Z).
Proof.
  unfold rate_before.
  rewrite orb_true_iff, andb_true_iff, date_ltb_spec, date_eqb_spec, Z.gtb_lt. tauto.
Qed.

Lemma date_lt_irrefl a : ~ date_lt a a.
Proof. unfold date_lt. lia. Qed.

Lemma date_lt_trans a b c : date_lt a b -> date_lt b c -> date_lt a c.
Proof. unfold date_lt. lia. Qed.

Lemma date_lt_total a b : date_lt a b \/ a = b \/ date_lt b a.
Proof.
  destruct (date_ltb a b) eqn:E.
  - left. apply date_ltb_spec. exact E.
  - apply date_ltb_false in E. tauto.
Qed.

Lemma rate_before_false a b :
  rate_before a b = false
  <-> date_lt (er_rate_date a) (er_rate_date b)
      \/ (er_rate_date a = er_rate_date b /\ (er_id a <= er_id b)%Z).
Proof.
  rewrite <- not_true_iff_false, rate_before_spec.
  destruct (date_lt_total (er_rate_date a) (er_rate_date b)) as [H|[H|H]].
  - split; [tauto|]. intros _ [C|[C _]].
    + apply (date_lt_irrefl _ (date_lt_trans _ _ _ H C)).
    + rewrite C in H. apply (date_lt_irrefl _ H).
  - rewrite H. split.
    + intros N. right. split; [reflexivity|].
      destruct (Z.le_gt_cases (er_id a) (er_id b)) as [L|L]; [exact L|].
      exfalso. apply N. right. split; [reflexivity | lia].
    + intros [C|[_ C]] [D|[_ D]].
      * exact (date_lt_irrefl _ C).
      * exact (date_lt_irrefl _ C).
      * exact (date_lt_irrefl _ D).
      * lia.
  - split; [tauto|]. intros [C|[C _]].
    + destruct (date_lt_irrefl _ (date_lt_trans _ _ _ H C)).
    + rewrite C in H. destruct (date_lt_irrefl _ H).
Qed.

Lemma rate_before_negtrans a b c :
  rate_before a b = false -> rate_before b c = false -> rate_before a c = false.
Proof.
  rewrite !rate_before_false.
  intros [H|[H H']] [G|[G G']].
  - left. eapply date_lt_trans; eassumption.
  - left. rewrite <- G. exact H.
  - left. rewrite H. exact G.
  - right. split; [congruence | lia].
Qed.

Lemma rate_before_asym a b : rate_before a b = true -> rate_before b a = false.
Proof.
  rewrite rate_before_spec, rate_before_false.
  intros [H|[H H']]; [left; exact H | right; split; [auto | lia]].
Qed.

(** A rate the query may return for [onOrBefore]: THB to KRW, live, active,
    dated on or before it. *)
Definition eligible (onOrBefore : date) (r : ExchangeRate) : Prop :=
  er_base_currency r = "THB"%string
  /\ er_quote_currency r = "KRW"%string
  /\ er_deleted_at r = None
  /\ er_status r = rate_active
  /\ (date_lt (er_rate_date r) onOrBefore \/ er_rate_date r = onOrBefore).

Lemma applicable_rate_spec d r : applicable_rate d r = true <-> eligible d r.
Proof.
  unfold applicable_rate, eligible, date_leb.
  rewrite !andb_true_iff, orb_true_iff, !String.eqb_eq, date_ltb_spec, date_eqb_spec.
  destruct (er_deleted_at r), (er_status r); simpl; intuition discriminate.
Qed.

Lemma fxRows_spec db d r :
  fxRows db d = Some r ->
  In r (exchange_rates db) /\ eligible d r
  /\ forall r', In r' (exchange_rates db) -> eligible d r' ->
       date_lt (er_rate_date r') (er_rate_date r)
       \/ (er_rate_date r' = er_rate_date r /\ (er_id r' <= er_id r)%Z).
Proof.
  unfold fxRows. intros H.
  pose proof (first_by_in _ _ _ H) as Hin. apply filter_In in Hin as [Hin Ha].
  split; [exact Hin|]. split; [apply applicable_rate_spec; exact Ha|].
  intros r' Hin' He'. apply rate_before_false.
  apply (first_by_best rate_before _ r rate_before_negtrans rate_before_asym H).
  apply filter_In. split; [exact Hin' | apply applicable_rate_spec; exact He'].
Qed.

Lemma fxRows_none db d :
  fxRows db d = None <-> forall r, In r (exchange_rates db) -> ~ eligible d r.
Proof.
  unfold fxRows. rewrite first_by_none. split.
  - intros H r Hin He.
    assert (In r (filter (applicable_rate d) (exchange_rates db))) as C.
    { apply filter_In. split; [exact Hin | apply applicable_rate_spec; exact He]. }
    rewrite H in C. destruct C.
  - intros H. destruct (filter (applicable_rate d) (exchange_rates db)) as [|r l] eqn:E;
      [reflexivity|].
    assert (In r (filter (applicable_rate d) (exchange_rates db))) as C
      by (rewrite E; left; reflexivity).
    apply filter_In in C as [Hin Ha]. destruct (H r Hin).
    apply applicable_rate_spec. exact Ha.
Qed.

Lemma generate_fresh_no_rate us p db0 :
  fxRows db0 (invoice_date p) = None ->
  generate_fresh us p db0 = (Failed FX_NOT_FOUND, db0).
Proof.
  intros H. unfold generate_fresh.
  destruct (monthRange (invoice_month p)) as [from to]. rewrite H. reflexivity.
Qed.

(** A request for the month of the demo draft, dated before every rate, that
    does not ask for regeneration. *)
Definition early_payload : GeneratePayload :=
  mkPayload 1 (mkMonth 2026 1) (mkDate 2025 12 31) false None.

(** C6 in the specification's wording fails where a live draft stands for the
    client and month: no rate is dated on or before the invoice date, and
    generation does not fail; it answers with the draft, reused, before it
    looks for a rate. *)
Lemma C6_counterexample :
  (forall r, In r (exchange_rates demo_generated) ->
             date_ltb (invoice_date early_payload) (er_rate_date r) = true)
  /\ fxRows demo_generated (invoice_date early_payload) = None
  /\ generateInvoice 0 None early_payload demo_generated
     = (Returned (Ok (Reused 1)), demo_generated).
Proof.
  split; [|split; vm_compute; reflexivity].
  intros r Hr. vm_compute in Hr. destruct Hr as [<-|[]]. reflexivity.
Qed.

(** C6. Generation reads the rate through [fxRows]: the chosen rate is a
    THB to KRW rate that is live, active and dated on or before the invoice
    date, and every other such rate is dated earlier, or dated the same day
    with an id that is not higher; a successful generation returns that rate's
    id and freezes its value on the invoice.  When no such rate exists, no
    call inserts an invoice row: generation answers FX_NOT_FOUND when no live
    invoice stands for the client and month, or when the latest one is a
    draft to be regenerated; it answers with the draft, reused, when the
    latest one is a draft and regeneration is not asked for, and
    INVOICE_ALREADY_ISSUED when the latest one is no draft, both without a
    look at the rates and leaving the store as it was. *)
Theorem C6_rate_selection :
  (forall db d r,
     fxRows db d = Some r ->
     In r (exchange_rates db) /\ eligible d r
     /\ forall r', In r' (exchange_rates db) -> eligible d r' ->
          date_lt (er_rate_date r') (er_rate_date r)
          \/ (er_rate_date r' = er_rate_date r /\ (er_id r' <= er_id r)%Z))
  /\ (forall db d,
        fxRows db d = None <-> forall r, In r (exchange_rates db) -> ~ eligible d r)
  /\ (forall now us p db inv n f db',
        generateInvoice now us p db = (Returned (Ok (Fresh inv n f)), db') ->
        exists r i,
          fxRows db (invoice_date p) = Some r /\ f = er_id r
          /\ inv = Some i /\ inv_fx_rate_thbkrw i = Fin (er_rate r))
  /\ (forall now us p db,
        (forall r, In r (exchange_rates db) -> ~ eligible (invoice_date p) r) ->
        exists res db',
          generateInvoice now us p db = (Returned res, db')
          /\ map inv_id (invoices db') = map inv_id (invoices db)
          /\ (res = Failed FX_NOT_FOUND
              \/ res = Failed INVOICE_ALREADY_ISSUED
              \/ exists id, res = Ok (Reused id))
          /\ (existingRows db (client_id p) (invoice_month p) = None ->
              res = Failed FX_NOT_FOUND /\ db' = db)
          /\ (forall existing,
                existingRows db (client_id p) (invoice_month p) = Some existing ->
                inv_status existing = draft -> regenerate_draft p = true ->
                res = Failed FX_NOT_FOUND)
          /\ (forall existing,
                existingRows db (client_id p) (invoice_month p) = Some existing ->
                inv_status existing = draft -> regenerate_draft p = false ->
                res = Ok (Reused (inv_id existing)) /\ db' = db)
          /\ (forall existing,
                existingRows db (client_id p) (invoice_month p) = Some existing ->
                inv_status existing <> draft ->
                res = Failed INVOICE_ALREADY_ISSUED /\ db' = db)).
Proof.
  split; [exact fxRows_spec|]. split; [exact fxRows_none|]. split.
  - intros now us p db inv n f db' H.
    apply generate_reaches_fresh, generate_fresh_ok in H.
    destruct H as (r & i & Hfx & Hf & _ & _ & Hinv & _ & _ & _ & _ & _ & Hrate & _).
    rewrite fxRows_generation_store in Hfx. exists r, i. auto.
  - intros now us p db Hnone. apply fxRows_none in Hnone.
    unfold generateInvoice, withTransaction, generate_callback.
    destruct (existingRows db (client_id p) (invoice_month p)) as [existing|] eqn:Ex.
    + destruct (is_draft (inv_status existing)) eqn:Dr; simpl.
      * destruct (regenerate_draft p) eqn:Rg; simpl.
        -- rewrite generate_fresh_no_rate.
           2:{ unfold fxRows.
               destruct (discard_draft_frame now db (inv_id existing)) as (-> & _).
               exact Hnone. }
           eexists _, _. split; [reflexivity|].
           destruct (discard_draft_frame now db (inv_id existing)) as (_ & _ & E & _).
           split; [exact E|]. split; [auto|]. split; [discriminate|].
           split; [auto|]. split; [discriminate|].
           intros ex E' D. inversion E'; subst ex. destruct (inv_status existing);
             [contradiction | discriminate Dr | discriminate Dr].
        -- eexists _, _. split; [reflexivity|]. split; [reflexivity|].
           split; [eauto|]. split; [discriminate|]. split; [discriminate|]. split.
           ++ intros ex E' _ _. inversion E'; subst ex. auto.
           ++ intros ex E' D. inversion E'; subst ex. destruct (inv_status existing);
                [contradiction | discriminate Dr | discriminate Dr].
      * eexists _, _. split; [reflexivity|]. split; [reflexivity|].
        split; [auto|]. split; [discriminate|]. split; [|split].
        -- intros ex E D. inversion E; subst ex. rewrite D in Dr. discriminate.
        -- intros ex E D. inversion E; subst ex. rewrite D in Dr. discriminate.
        -- auto.
    + rewrite generate_fresh_no_rate by exact Hnone.
      eexists _, _. split; [reflexivity|]. split; [reflexivity|].
      split; [auto|]. split; [auto|]. split; [discriminate|].
      split; discriminate.
Qed.

(** Five rates: an early one, two of the same day, one dated after the invoice
    date and a later one that is superseded. *)
Definition tied_rate : ExchangeRate :=
  mkRate 3 (mkDate 2026 1 15) "THB" "KRW" (40 # 1) rate_active false None.

Definition rates_store : Store :=
  mkStore [mkRate 1 (mkDate 2026 1 1) "THB" "KRW" (38 # 1) rate_active false None;
           tied_rate;
           mkRate 2 (mkDate 2026 1 15) "THB" "KRW" (39 # 1) rate_active false None;
           mkRate 4 (mkDate 2026 2 1) "THB" "KRW" (41 # 1) rate_active false None;
           mkRate 5 (mkDate 2026 1 20) "THB" "KRW" (42 # 1) rate_superseded false None]
          [] [] [] [] [] true.

(** C6 on five rates: of the two rates of 15 January the one with the higher
    id is chosen. *)
Lemma C6_witness :
  fxRows rates_store (mkDate 2026 1 31) = Some tied_rate
  /\ eligible (mkDate 2026 1 31) tied_rate.
Proof.
  split; [reflexivity|].
  destruct C6_rate_selection as (H & _).
  destruct (H rates_store (mkDate 2026 1 31) tied_rate eq_refl) as (_ & He & _).
  exact He.
Defined.

(** ** Reusing a draft *)

Lemma month_eqb_spec a b : month_eqb a b = true <-> a = b.
Proof.
  unfold month_eqb. rewrite andb_true_iff, !Z.eqb_eq.
  destruct a, b; simpl. split; [intros [-> ->]; reflexivity|].
  intros H; inversion H; auto.
Qed.

(** A live invoice of a client and month. *)
Definition live_for (clientId : Z) (invoiceMonth : month) (i : Invoice) : Prop :=
  inv_client_id i = clientId /\ inv_invoice_month i = invoiceMonth
  /\ inv_deleted_at i = None.

Lemma live_for_spec c m i :
  (inv_client_id i =? c)%Z && month_eqb (inv_invoice_month i) m
  && is_null (inv_deleted_at i) = true
  <-> live_for c m i.
Proof.
  unfold live_for. rewrite !andb_true_iff, Z.eqb_eq, month_eqb_spec.
  destruct (inv_deleted_at i); simpl; intuition discriminate.
Qed.

Lemma existingRows_spec db c m existing :
  existingRows db c m = Some existing ->
  In existing (invoices db) /\ live_for c m existing
  /\ forall i, In i (invoices db) -> live_for c m i -> (inv_id i <= inv_id existing)%Z.
Proof.
  unfold existingRows. intros H.
  pose proof (first_by_in _ _ _ H) as Hin. apply filter_In in Hin as [Hin Hl].
  split; [exact Hin|]. split; [apply live_for_spec; exact Hl|].
  intros i Hi Hli.
  assert ((inv_id i >? inv_id existing)%Z = false) as G.
  { eapply (first_by_best (fun a b => (inv_id a >? inv_id b)%Z)).
    - intros a b x. rewrite !Z.gtb_ltb, !Z.ltb_ge. lia.
    - intros a b. rewrite !Z.gtb_ltb, Z.ltb_lt, Z.ltb_ge. lia.
    - exact H.
    - apply filter_In. split; [exact Hi | apply live_for_spec; exact Hli]. }
  rewrite Z.gtb_ltb, Z.ltb_ge in G. exact G.
Qed.

Lemma existingRows_none db c m :
  existingRows db c m = None ->
  filter (fun i => (inv_client_id i =? c)%Z && month_eqb (inv_invoice_month i) m
                   && is_null (inv_deleted_at i)) (invoices db) = [].
Proof. unfold existingRows. apply first_by_none. Qed.

Lemma generate_reuses now us p db existing :
  regenerate_draft p = false ->
  existingRows db (client_id p) (invoice_month p) = Some existing ->
  inv_status existing = draft ->
  generateInvoice now us p db = (Returned (Ok (Reused (inv_id existing))), db).
Proof.
  intros Hr He Hs. unfold generateInvoice, withTransaction, generate_callback.
  rewrite He, Hs, Hr. reflexivity.
Qed.

(** C4 (as amended). With regenerateDraft false: when the live invoice of
    the client and month with the highest id is a draft, generation returns
    its id with reused = true and leaves the store as it was; and whenever a
    call succeeds, by reuse or by generating, a second call on the resulting
    store returns the same invoice id, reused, and changes nothing. *)
Theorem C4_idempotent_reuse now us p db :
  regenerate_draft p = false ->
  (forall existing,
     existingRows db (client_id p) (invoice_month p) = Some existing ->
     inv_status existing = draft ->
     In existing (invoices db)
     /\ live_for (client_id p) (invoice_month p) existing
     /\ (forall i, In i (invoices db) -> live_for (client_id p) (invoice_month p) i ->
                   (inv_id i <= inv_id existing)%Z)
     /\ generateInvoice now us p db = (Returned (Ok (Reused (inv_id existing))), db))
  /\ (forall res db',
        generateInvoice now us p db = (Returned (Ok res), db') ->
        exists id,
          (res = Reused id
           \/ exists i n f, res = Fresh (Some i) n f /\ inv_id i = id)
          /\ forall now' us',
               generateInvoice now' us' p db' = (Returned (Ok (Reused id)), db')).
Proof.
  intros Hr. split.
  - intros existing He Hs.
    destruct (existingRows_spec _ _ _ _ He) as (H1 & H2 & H3).
    repeat split; try assumption; try apply H2.
    apply generate_reuses; assumption.
  - intros res db' H.
    destruct (existingRows db (client_id p) (invoice_month p)) as [existing|] eqn:Ex.
    + (* a live invoice stands: the call can only have reused it *)
      assert (res = Reused (inv_id existing) /\ db' = db /\ inv_status existing = draft)
        as (-> & -> & Hs).
      { revert H. unfold generateInvoice, withTransaction, generate_callback.
        rewrite Ex, Hr. destruct (inv_status existing); simpl; intros H; inversion H; auto. }
      exists (inv_id existing). split; [left; reflexivity|].
      intros now' us'. apply generate_reuses; assumption.
    + (* none stands: the call generated one, now the only live one *)
      assert (generation_store now p db = db) as Hgs.
      { unfold generation_store. rewrite Ex. reflexivity. }
      destruct res as [id|inv n f].
      { revert H. unfold generateInvoice, withTransaction, generate_callback.
        rewrite Ex. destruct (generate_fresh us p db) as [[[id'|inv n f]|c] s] eqn:G;
          intros H; inversion H; subst.
        unfold generate_fresh in G.
        destruct (monthRange (invoice_month p)) as [from to].
        destruct (fxRows db (invoice_date p)); [|discriminate].
        destruct (pendingEvents _ _ _ _); [discriminate|].
        destruct (resolveInvoiceSequence _ _ _).
        destruct (consume_events _ _ _ _). destruct (emit_items _ _ _ _).
        destruct (totals _) as [[? ?] ?]. discriminate. }
      apply generate_reaches_fresh, generate_fresh_ok in H. rewrite Hgs in H.
      destruct H as (fxRow & i & _ & _ & _ & _ & -> & Hid & Hc & Hm & Hs & Hd & _ & _ & _
                     & _ & Hinv & _).
      exists (inv_id i). split; [right; eauto|].
      intros now' us'.
      assert (existingRows db' (client_id p) (invoice_month p) = Some i) as Ex'.
      { unfold existingRows. rewrite Hinv, filter_app, (existingRows_none _ _ _ Ex).
        simpl. rewrite Hc, Hm, Hd, Z.eqb_refl.
        assert (month_eqb (invoice_month p) (invoice_month p) = true) as ->
            by (apply month_eqb_spec; reflexivity).
        reflexivity. }
      apply generate_reuses; assumption.
Qed.

(** The store after the generated demo invoice is issued, duplicated twice by
    the admin route, and the second copy issued: invoice 2 is a live draft,
    invoice 3 the latest live invoice of the month. *)
Definition demo_issued : Store := snd (issueInvoice 1 demo_generated).
Definition demo_copied : Store := snd (duplicateInvoiceForAdmin 1 demo_issued).
Definition demo_copied_twice : Store := snd (duplicateInvoiceForAdmin 1 demo_copied).
Definition crowded_store : Store := snd (issueInvoice 3 demo_copied_twice).

(** Each of the four calls succeeds. *)
Lemma crowded_store_reached :
  fst (issueInvoice 1 demo_generated) = Returned (Ok (1%Z, issued))
  /\ (exists c, fst (duplicateInvoiceForAdmin 1 demo_issued) = Returned (Ok (Some c))
                 /\ inv_id c = 2%Z /\ inv_status c = draft)
  /\ (exists c, fst (duplicateInvoiceForAdmin 1 demo_copied) = Returned (Ok (Some c))
                 /\ inv_id c = 3%Z /\ inv_status c = draft)
  /\ fst (issueInvoice 3 demo_copied_twice) = Returned (Ok (3%Z, issued))
  /\ map (fun i => (inv_id i, inv_status i, inv_deleted_at i)) (invoices crowded_store)
     = [(1%Z, issued, None); (2%Z, draft, None); (3%Z, issued, None)].
Proof.
  split; [vm_compute; reflexivity|].
  split; [eexists; split; [vm_compute; reflexivity | split; reflexivity]|].
  split; [eexists; split; [vm_compute; reflexivity | split; reflexivity]|].
  split; vm_compute; reflexivity.
Qed.

(** C4 in the specification's wording fails there: a live draft exists for
    the month, and generation without regeneration answers
    INVOICE_ALREADY_ISSUED. *)
Lemma C4_counterexample :
  (exists d, In d (invoices crowded_store)
             /\ inv_id d = 2%Z
             /\ live_for (client_id demo_payload) (invoice_month demo_payload) d
             /\ inv_status d = draft)
  /\ regenerate_draft demo_payload = false
  /\ generateInvoice 0 None demo_payload crowded_store
     = (Returned (Failed INVOICE_ALREADY_ISSUED), crowded_store).
Proof.
  split.
  - eexists. split; [vm_compute; right; left; reflexivity|].
    vm_compute. repeat split; reflexivity.
  - split; [reflexivity | vm_compute; reflexivity].
Qed.

(** C4 at the demo store: the second call reuses the invoice the first one
    generated. *)
Lemma C4_witness :
  regenerate_draft demo_payload = false
  /\ generateInvoice 0 None demo_payload demo_store
     = (Returned (Ok (Fresh (Some demo_invoice) 2 1)), demo_generated)
  /\ generateInvoice 7 (Some 4%Z) demo_payload demo_generated
     = (Returned (Ok (Reused 1)), demo_generated).
Proof.
  split; [reflexivity|]. split; [exact demo_generate|].
  destruct (C4_idempotent_reuse 0 None demo_payload demo_store eq_refl) as (_ & H).
  destruct (H _ _ demo_generate) as (id & [E|(i & n & f & E & Hid)] & G).
  - discriminate E.
  - inversion E; subst i n f. subst id. apply G.
Defined.

(** ** The outcomes of generation *)

Lemma generate_fresh_cases us p db0 :
  (fxRows db0 (invoice_date p) = None
   /\ generate_fresh us p db0 = (Failed FX_NOT_FOUND, db0))
  \/ (exists r, fxRows db0 (invoice_date p) = Some r
                /\ consumed p db0 = []
                /\ generate_fresh us p db0
                   = (Failed NO_PENDING_EVENTS, lock_rate db0 (er_id r)))
  \/ (exists inv n f db', generate_fresh us p db0 = (Ok (Fresh inv n f), db')).
Proof.
  unfold generate_fresh, consumed.
  destruct (monthRange (invoice_month p)) as [from to]; cbn [fst snd].
  destruct (fxRows db0 (invoice_date p)) as [r|]; [|left; split; reflexivity].
  right. change (pendingEvents (lock_rate db0 (er_id r))) with (pendingEvents db0).
  destruct (pendingEvents db0 (client_id p) from to) as [|e0 events].
  - left. exists r. repeat split; reflexivity.
  - right. destruct (resolveInvoiceSequence _ _ _) as [nextSeq db2].
    destruct (consume_events _ _ _ _) as [table grouped].
    destruct (emit_items _ _ _ _) as [acc items].
    destruct (totals acc) as [[sub vat] tot]. eexists _, _, _, _. reflexivity.
Qed.

Lemma generate_outcome now us p db :
  generateInvoice now us p db
  = (Returned (fst (generate_fresh us p (generation_store now p db))),
     snd (generate_fresh us p (generation_store now p db)))
  \/ (exists existing,
        existingRows db (client_id p) (invoice_month p) = Some existing
        /\ ((inv_status existing <> draft
             /\ generateInvoice now us p db
                = (Returned (Failed INVOICE_ALREADY_ISSUED), db))
            \/ (inv_status existing = draft /\ regenerate_draft p = false
                /\ generateInvoice now us p db
                   = (Returned (Ok (Reused (inv_id existing))), db)))).
Proof.
  unfold generateInvoice, withTransaction, generate_callback, generation_store.
  destruct (existingRows db (client_id p) (invoice_month p)) as [existing|].
  - destruct (inv_status existing) eqn:S; simpl.
    + destruct (regenerate_draft p); simpl.
      * left. destruct (generate_fresh _ _ _); reflexivity.
      * right. exists existing. split; [reflexivity|]. right. rewrite S. auto.
    + right. exists existing. split; [reflexivity|]. left. rewrite S.
      split; [discriminate|reflexivity].
    + right. exists existing. split; [reflexivity|]. left. rewrite S.
      split; [discriminate|reflexivity].
  - left. destruct (generate_fresh _ _ _); reflexivity.
Qed.

(** ** The life cycle *)

Definition status_kept (old new : Invoice) : Prop :=
  inv_id new = inv_id old
  /\ (status_rank (inv_status old) <= status_rank (inv_status new))%Z.

(** Every invoice row is still there, under its id, at the same rank or a
    higher one. *)
Definition ranks_kept (db db' : Store) : Prop :=
  forall i, In i (invoices db) ->
            exists i', In i' (invoices db') /\ status_kept i i'.

Definition invoice_key (db : Store) : Prop := NoDup (map inv_id (invoices db)).

Lemma ranks_kept_refl db : ranks_kept db db.
Proof. intros i Hi. exists i. split; [exact Hi|]. split; [reflexivity | lia]. Qed.

Lemma ranks_kept_trans a b c : ranks_kept a b -> ranks_kept b c -> ranks_kept a c.
Proof.
  intros Hab Hbc i Hi. destruct (Hab i Hi) as (i' & Hi' & E & R).
  destruct (Hbc i' Hi') as (i'' & Hi'' & E' & R'). exists i''.
  split; [exact Hi''|]. split; [congruence | lia].
Qed.

Lemma ranks_kept_same_invoices db db' :
  invoices db' = invoices db -> ranks_kept db db'.
Proof. intros E i Hi. exists i. rewrite E. split; [exact Hi|]. split; [reflexivity|lia]. Qed.

Lemma ranks_kept_map db db' (g : Invoice -> Invoice) :
  invoices db' = map g (invoices db) ->
  (forall i, In i (invoices db) -> status_kept i (g i)) ->
  ranks_kept db db' /\ (invoice_key db -> invoice_key db').
Proof.
  intros E G. split.
  - intros i Hi. exists (g i). rewrite E. split; [apply in_map; exact Hi | apply G; exact Hi].
  - unfold invoice_key. rewrite E, map_map.
    assert (map (fun x => inv_id (g x)) (invoices db) = map inv_id (invoices db)) as ->;
      [|auto].
    apply map_ext_in. intros i Hi. apply G. exact Hi.
Qed.

Lemma live_invoice_in db id row :
  live_invoice db id = Some row ->
  In row (invoices db) /\ inv_id row = id /\ inv_deleted_at row = None.
Proof.
  unfold live_invoice. intros H.
  destruct (filter _ _) as [|x l] eqn:F; [discriminate|]. inversion H; subst x.
  assert (In row (filter (fun i => (inv_id i =? id)%Z && is_null (inv_deleted_at i))
                         (invoices db))) as Hin by (rewrite F; left; reflexivity).
  apply filter_In in Hin as [Hin Hc]. apply andb_true_iff in Hc as [Hc Hd].
  apply Z.eqb_eq in Hc. destruct (inv_deleted_at row); [discriminate|]. auto.
Qed.

Lemma live_invoice_none db id :
  live_invoice db id = None <->
  forall i, In i (invoices db) -> inv_id i = id -> inv_deleted_at i <> None.
Proof.
  unfold live_invoice. split.
  - intros H i Hi E D.
    assert (In i (filter (fun i => (inv_id i =? id)%Z && is_null (inv_deleted_at i))
                         (invoices db))) as C.
    { apply filter_In. split; [exact Hi|]. rewrite E, D, Z.eqb_refl. reflexivity. }
    destruct (filter _ _); [destruct C | discriminate].
  - intros H. destruct (filter _ _) as [|x l] eqn:F; [reflexivity|]. exfalso.
    assert (In x (filter (fun i => (inv_id i =? id)%Z && is_null (inv_deleted_at i))
                         (invoices db))) as Hin by (rewrite F; left; reflexivity).
    apply filter_In in Hin as [Hin Hc]. apply andb_true_iff in Hc as [Hc Hd].
    apply Z.eqb_eq in Hc. apply (H x Hin Hc). destruct (inv_deleted_at x); [discriminate|].
    reflexivity.
Qed.

Lemma live_after_update (l : list Invoice) id st row :
  hd_error (filter (fun i => (inv_id i =? id)%Z && is_null (inv_deleted_at i)) l)
  = Some row ->
  hd_error (filter (fun i => (inv_id i =? id)%Z && is_null (inv_deleted_at i))
                   (map (fun i => if (inv_id i =? id)%Z then set_status st i else i) l))
  = Some (set_status st row).
Proof.
  induction l as [|x l IH]; simpl; [discriminate|].
  destruct (inv_id x =? id)%Z eqn:E; simpl.
  - rewrite E. simpl. destruct (is_null (inv_deleted_at x)); simpl.
    + intros H; inversion H; reflexivity.
    + exact IH.
  - rewrite E. simpl. exact IH.
Qed.

Lemma update_status_ranks db id row st :
  invoice_key db ->
  live_invoice db id = Some row ->
  (status_rank (inv_status row) <= status_rank st)%Z ->
  ranks_kept db (update_status db id st)
  /\ invoice_key (update_status db id st)
  /\ live_invoice (update_status db id st) id = Some (set_status st row).
Proof.
  intros Hk Hl Hr. destruct (live_invoice_in _ _ _ Hl) as (Hin & Hid & Hd).
  destruct (ranks_kept_map db (update_status db id st)
              (fun i => if (inv_id i =? id)%Z then set_status st i else i) eq_refl)
    as (R & K).
  { intros i Hi. destruct (inv_id i =? id)%Z eqn:E.
    - apply Z.eqb_eq in E.
      assert (i = row)
        by (apply (NoDup_map_inj_in inv_id (invoices db));
            [exact Hk | exact Hi | exact Hin | congruence]).
      subst i. split; [reflexivity | exact Hr].
    - split; [reflexivity | lia]. }
  split; [exact R|]. split; [exact (K Hk)|].
  apply live_after_update. exact Hl.
Qed.

Lemma issue_cases id db :
  (live_invoice db id = None
   /\ issueInvoice id db = (Returned (Failed NOT_FOUND), db))
  \/ (exists row, live_invoice db id = Some row /\ inv_status row <> draft
                  /\ issueInvoice id db = (Returned (Failed INVALID_STATUS), db))
  \/ (exists row, live_invoice db id = Some row /\ inv_status row = draft
                  /\ issueInvoice id db
                     = (Returned (Ok (id, issued)), update_status db id issued)).
Proof.
  unfold issueInvoice, withTransaction, issue_callback.
  destruct (live_invoice db id) as [row|]; [|left; split; reflexivity].
  right. destruct (inv_status row) eqn:S; simpl.
  - right. exists row. rewrite S. repeat split; reflexivity.
  - left. exists row. rewrite S. repeat split; discriminate.
  - left. exists row. rewrite S. repeat split; discriminate.
Qed.

Lemma markPaid_cases id db :
  (live_invoice db id = None
   /\ markInvoicePaid id db = (Returned (Failed NOT_FOUND), db))
  \/ (exists row, live_invoice db id = Some row /\ inv_status row <> issued
                  /\ markInvoicePaid id db = (Returned (Failed INVALID_STATUS), db))
  \/ (exists row, live_invoice db id = Some row /\ inv_status row = issued
                  /\ markInvoicePaid id db
                     = (Returned (Ok (id, paid)), update_status db id paid)).
Proof.
  unfold markInvoicePaid, withTransaction, markPaid_callback.
  destruct (live_invoice db id) as [row|]; [|left; split; reflexivity].
  right. destruct (inv_status row) eqn:S; simpl.
  - left. exists row. rewrite S. repeat split; discriminate.
  - right. exists row. rewrite S. repeat split; reflexivity.
  - left. exists row. rewrite S. repeat split; discriminate.
Qed.

(** Appending rows whose ids are new keeps the key and every old row. *)
Lemma ranks_kept_append db db' added :
  invoices db' = invoices db ++ added ->
  NoDup (map inv_id added) ->
  (forall a, In a added -> (fresh_id (map inv_id (invoices db)) <= inv_id a)%Z) ->
  ranks_kept db db' /\ (invoice_key db -> invoice_key db').
Proof.
  intros E Hn Hf. split.
  - intros i Hi. exists i. rewrite E. split; [apply in_or_app; left; exact Hi|].
    split; [reflexivity | lia].
  - unfold invoice_key. intros Hk. rewrite E, map_app.
    apply NoDup_app; [exact Hk | exact Hn |].
    intros x Hx Hx'. apply in_map_iff in Hx' as (a & <- & Ha).
    pose proof (fresh_id_gt _ _ Hx). pose proof (Hf a Ha). lia.
Qed.

Lemma number_from_ids {A} (rows : list A) n :
  NoDup (map fst (number_from n rows))
  /\ forall k, In k (map fst (number_from n rows)) -> (n <= k)%Z.
Proof.
  revert n. induction rows as [|x rows IH]; intros n; simpl.
  - split; [constructor | tauto].
  - destruct (IH (n + 1)%Z) as (Hn & Hge). split.
    + constructor; [|exact Hn]. intros C. apply Hge in C. lia.
    + intros k [<-|Hk]; [lia|]. apply Hge in Hk. lia.
Qed.

Lemma resolveInvoiceSequence_snd db c m :
  exists seq db1, resolveInvoiceSequence db c m = (seq, db1)
                  /\ exchange_rates db1 = exchange_rates db
                  /\ billing_events db1 = billing_events db
                  /\ invoices db1 = invoices db
                  /\ invoice_items db1 = invoice_items db
                  /\ has_invoice_date db1 = has_invoice_date db.
Proof.
  pose proof (resolveInvoiceSequence_frame db c m) as F. cbv zeta in F.
  destruct (resolveInvoiceSequence db c m) as [seq db1]. cbn [snd] in F.
  exists seq, db1. tauto.
Qed.

Lemma duplicate_cases id db :
  (live_invoice db id = None
   /\ duplicateInvoiceForAdmin id db = (Returned (Failed NOT_FOUND), db))
  \/ (exists row, live_invoice db id = Some row /\ inv_status row = draft
                  /\ duplicateInvoiceForAdmin id db
                     = (Returned (Failed INVALID_STATUS), db))
  \/ (exists row copy db',
        live_invoice db id = Some row /\ inv_status row <> draft
        /\ duplicateInvoiceForAdmin id db = (Returned (Ok copy), db')
        /\ exists no,
             invoices db'
             = invoices db
               ++ map (copy_invoice (has_invoice_date db) no)
                      (number_from (fresh_id (map inv_id (invoices db)))
                         (filter (fun i => (inv_id i =? id)%Z) (invoices db)))
             /\ billing_events db' = billing_events db
             /\ exchange_rates db' = exchange_rates db).
Proof.
  unfold duplicateInvoiceForAdmin, withTransaction, duplicate_callback.
  destruct (live_invoice db id) as [row|]; [|left; split; reflexivity].
  right. destruct (is_draft (inv_status row)) eqn:S.
  - left. exists row. destruct (inv_status row); try discriminate.
    repeat split; reflexivity.
  - right.
    destruct (resolveInvoiceSequence_snd db (inv_client_id row) (inv_invoice_month row))
      as (seq & db1 & -> & E1 & E2 & E3 & E4 & E5).
    cbn [invoices set_invoices set_invoice_items billing_events exchange_rates].
    rewrite E3. eexists row, _, _. split; [reflexivity|]. split.
    { intros C. rewrite C in S. discriminate. }
    split; [reflexivity|]. eexists. split; [reflexivity|]. auto.
Qed.

Inductive Operation : Type :=
| OpGenerate (now : Z) (user_sub : option Z) (payload : GeneratePayload)
| OpIssue (invoiceId : Z)
| OpMarkPaid (invoiceId : Z)
| OpDuplicate (sourceInvoiceId : Z)
| OpMarkPending (ids : list Z).

(** The store an operation leaves. *)
Definition run (op : Operation) (db : Store) : Store :=
  match op with
  | OpGenerate now user_sub payload => snd (generateInvoice now user_sub payload db)
  | OpIssue invoiceId => snd (issueInvoice invoiceId db)
  | OpMarkPaid invoiceId => snd (markInvoicePaid invoiceId db)
  | OpDuplicate sourceInvoiceId => snd (duplicateInvoiceForAdmin sourceInvoiceId db)
  | OpMarkPending ids => snd (markEventsPending ids db)
  end.

Definition run_all (ops : list Operation) (db : Store) : Store :=
  fold_left (fun s op => run op s) ops db.

Lemma markPending_invoices ids db :
  invoices (snd (markEventsPending ids db)) = invoices db.
Proof.
  unfold markEventsPending, withTransaction, markPending_callback.
  destruct (markPending_rows db ids); [reflexivity|].
  destruct (filter is_blocked _); reflexivity.
Qed.

Lemma generation_store_ranks now p db :
  ranks_kept db (generation_store now p db)
  /\ (invoice_key db -> invoice_key (generation_store now p db)).
Proof.
  unfold generation_store.
  destruct (existingRows db (client_id p) (invoice_month p)) as [existing|];
    [|split; [apply ranks_kept_refl | auto]].
  destruct (is_draft (inv_status existing) && regenerate_draft p);
    [|split; [apply ranks_kept_refl | auto]].
  apply (ranks_kept_map db _
           (fun i => if (inv_id i =? inv_id existing)%Z then delete_invoice now i else i)).
  - reflexivity.
  - intros i _. destruct (inv_id i =? inv_id existing)%Z; split; simpl; try reflexivity; lia.
Qed.

Lemma generate_fresh_ranks us p db0 :
  ranks_kept db0 (snd (generate_fresh us p db0))
  /\ (invoice_key db0 -> invoice_key (snd (generate_fresh us p db0))).
Proof.
  destruct (generate_fresh_cases us p db0)
    as [(_ & ->)|[(r & _ & _ & ->)|(inv & n & f & db' & H)]]; cbn [snd].
  - split; [apply ranks_kept_refl | auto].
  - split; [apply ranks_kept_same_invoices; reflexivity | auto].
  - rewrite H. cbn [snd]. apply generate_fresh_ok in H.
    destruct H as (fxRow & i & _ & _ & _ & _ & _ & Hid & _ & _ & _ & _ & _ & _ & _ & _
                   & Hinv & _).
    apply (ranks_kept_append db0 db' [i] Hinv).
    + repeat constructor. simpl. tauto.
    + intros a [<-|[]]. rewrite Hid. unfold new_invoice_id. lia.
Qed.

Lemma run_ranks op db :
  invoice_key db -> ranks_kept db (run op db) /\ invoice_key (run op db).
Proof.
  intros Hk. destruct op as [now us p|id|id|id|ids]; simpl.
  - destruct (generate_outcome now us p db)
      as [->|(existing & _ & [(_ & ->)|(_ & _ & ->)])]; cbn [snd];
      try (split; [apply ranks_kept_refl | exact Hk]).
    destruct (generation_store_ranks now p db) as (R0 & K0).
    destruct (generate_fresh_ranks us p (generation_store now p db)) as (R1 & K1).
    split; [eapply ranks_kept_trans; eassumption | auto].
  - destruct (issue_cases id db) as [(_ & ->)|[(row & _ & _ & ->)|(row & Hl & Hs & ->)]];
      cbn [snd]; try (split; [apply ranks_kept_refl | exact Hk]).
    destruct (update_status_ranks db id row issued Hk Hl) as (R & K & _);
      [rewrite Hs; simpl; lia | auto].
  - destruct (markPaid_cases id db) as [(_ & ->)|[(row & _ & _ & ->)|(row & Hl & Hs & ->)]];
      cbn [snd]; try (split; [apply ranks_kept_refl | exact Hk]).
    destruct (update_status_ranks db id row paid Hk Hl) as (R & K & _);
      [rewrite Hs; simpl; lia | auto].
  - destruct (duplicate_cases id db)
      as [(_ & ->)|[(row & _ & _ & ->)|(row & copy & db' & _ & _ & -> & no & Hinv & _)]];
      cbn [snd]; try (split; [apply ranks_kept_refl | exact Hk]).
    destruct (number_from_ids (filter (fun i => (inv_id i =? id)%Z) (invoices db))
                (fresh_id (map inv_id (invoices db)))) as (Hn & Hge).
    assert (forall l : list (Z * Invoice),
              map inv_id (map (copy_invoice (has_invoice_date db) no) l) = map fst l) as Hm.
    { intros l. rewrite map_map. apply map_ext. reflexivity. }
    destruct (ranks_kept_append db db' _ Hinv) as (R & K).
    + rewrite Hm. exact Hn.
    + intros a Ha. apply Hge. rewrite <- Hm. apply in_map. exact Ha.
    + auto.
  - split; [apply ranks_kept_same_invoices, markPending_invoices|].
    unfold invoice_key. rewrite markPending_invoices. exact Hk.
Qed.





(** ** Reverting events to pending *)

(** The live invoice an event points to is issued or paid. *)
Definition owner_locked (db : Store) (e : BillingEvent) : Prop :=
  exists i, In i (invoices db)
            /\ be_invoice_id e = Some (inv_id i)
            /\ inv_deleted_at i = None
            /\ (inv_status i = issued \/ inv_status i = paid).

Lemma targeted_spec ids e :
  targeted ids e = true <-> In (be_id e) ids /\ be_deleted_at e = None.
Proof.
  unfold targeted. rewrite andb_true_iff, mem_id_In.
  destruct (be_deleted_at e); simpl; intuition discriminate.
Qed.

Lemma opt_id_eqb_spec o id : opt_id_eqb o id = true <-> o = Some id.
Proof.
  destruct o as [x|]; simpl; [|intuition discriminate].
  rewrite Z.eqb_eq. split; [intros ->; reflexivity | intros H; inversion H; reflexivity].
Qed.

Lemma join_invoice_nonempty db e : join_invoice db e <> [].
Proof.
  unfold join_invoice. destruct (filter _ _); simpl; discriminate.
Qed.

Lemma join_invoice_event db e r : In r (join_invoice db e) -> fst r = e.
Proof.
  unfold join_invoice. destruct (filter _ _) as [|x l].
  - intros [<-|[]]. reflexivity.
  - intros H. apply in_map_iff in H as (i & <- & _). reflexivity.
Qed.

Lemma join_invoice_blocked db e :
  (exists r, In r (join_invoice db e) /\ is_blocked r = true) <-> owner_locked db e.
Proof.
  unfold join_invoice, owner_locked.
  set (match_ := fun i => opt_id_eqb (be_invoice_id e) (inv_id i)
                          && is_null (inv_deleted_at i)).
  assert (forall i, In i (filter match_ (invoices db))
                    <-> In i (invoices db) /\ be_invoice_id e = Some (inv_id i)
                        /\ inv_deleted_at i = None) as F.
  { intros i. rewrite filter_In. unfold match_.
    rewrite andb_true_iff, opt_id_eqb_spec. destruct (inv_deleted_at i); simpl;
      intuition discriminate. }
  split.
  - intros (r & Hr & Hb). destruct (filter match_ (invoices db)) as [|x l] eqn:E.
    + destruct Hr as [<-|[]]. discriminate Hb.
    + apply in_map_iff in Hr as (i & <- & Hi). apply F in Hi.
      exists i. unfold is_blocked in Hb; simpl in Hb.
      destruct (inv_status i); try discriminate; tauto.
  - intros (i & Hi & He & Hd & Hs).
    assert (In i (filter match_ (invoices db))) as Hin by (apply F; tauto).
    destruct (filter match_ (invoices db)) as [|x l]; [destruct Hin|].
    exists (e, Some (inv_status i)). split.
    + apply in_map_iff. exists i. split; [reflexivity | exact Hin].
    + unfold is_blocked; simpl. destruct Hs as [-> | ->]; reflexivity.
Qed.

Lemma filter_nonempty {A} (f : A -> bool) (l : list A) :
  filter f l <> [] <-> exists x, In x l /\ f x = true.
Proof.
  split.
  - destruct (filter f l) as [|x r] eqn:E; [tauto|]. intros _. exists x.
    apply filter_In. rewrite E. left. reflexivity.
  - intros (x & Hx) C. apply filter_In in Hx. rewrite C in Hx. destruct Hx.
Qed.

Lemma markPending_rows_blocked db ids :
  filter is_blocked (markPending_rows db ids) <> []
  <-> exists e, In e (billing_events db) /\ targeted ids e = true /\ owner_locked db e.
Proof.
  rewrite filter_nonempty. unfold markPending_rows. split.
  - intros (r & Hr & Hb). apply in_flat_map in Hr as (e & He & Hr).
    apply filter_In in He. exists e. split; [tauto|]. split; [tauto|].
    apply join_invoice_blocked. exists r. tauto.
  - intros (e & He & Ht & Hl). apply join_invoice_blocked in Hl as (r & Hr & Hb).
    exists r. split; [|exact Hb]. apply in_flat_map. exists e.
    split; [apply filter_In; tauto | exact Hr].
Qed.

Lemma markPending_rows_empty db ids :
  markPending_rows db ids = []
  <-> forall e, In e (billing_events db) -> targeted ids e = false.
Proof.
  unfold markPending_rows. split.
  - intros H e He. destruct (targeted ids e) eqn:T; [|reflexivity]. exfalso.
    assert (In e (filter (targeted ids) (billing_events db))) as Hin
        by (apply filter_In; tauto).
    destruct (join_invoice db e) as [|r l] eqn:J; [exact (join_invoice_nonempty db e J)|].
    assert (In r (flat_map (join_invoice db) (filter (targeted ids) (billing_events db))))
      as C by (apply in_flat_map; exists e; rewrite J; simpl; tauto).
    rewrite H in C. destruct C.
  - intros H.
    assert (filter (targeted ids) (billing_events db) = []) as ->; [|reflexivity].
    destruct (filter (targeted ids) (billing_events db)) as [|e l] eqn:E; [reflexivity|].
    assert (In e (filter (targeted ids) (billing_events db))) as Hin
        by (rewrite E; left; reflexivity).
    apply filter_In in Hin as [Hin Ht]. rewrite (H e Hin) in Ht. discriminate.
Qed.

(** With invoice ids as a key the join yields one row per event. *)
Lemma filter_key_single (l : list Invoice) (f : Invoice -> bool) k :
  NoDup (map inv_id l) ->
  (forall i, f i = true -> inv_id i = k) ->
  (List.length (filter f l) <= 1)%nat.
Proof.
  intros Hn Hf. induction l as [|x l IH]; simpl; [lia|].
  inversion Hn as [|? ? Hx Hl]; subst.
  destruct (f x) eqn:E; [|apply IH; exact Hl]. simpl.
  assert (filter f l = []) as ->; [|simpl; lia].
  destruct (filter f l) as [|y r] eqn:F; [reflexivity|]. exfalso.
  assert (In y (filter f l)) as Hy by (rewrite F; left; reflexivity).
  apply filter_In in Hy as [Hy Hfy]. apply Hx.
  rewrite (Hf x E), <- (Hf y Hfy). apply in_map. exact Hy.
Qed.

Lemma join_invoice_single db e :
  NoDup (map inv_id (invoices db)) -> List.length (join_invoice db e) = 1%nat.
Proof.
  intros Hn. unfold join_invoice.
  destruct (be_invoice_id e) as [k|] eqn:K.
  - pose proof (filter_key_single (invoices db)
                  (fun i => opt_id_eqb (Some k) (inv_id i) && is_null (inv_deleted_at i))
                  k Hn) as L.
    destruct (filter _ (invoices db)) as [|x [|y r]]; simpl in *; try reflexivity.
    exfalso. assert (2 <= 1)%nat; [|lia]. apply (Nat.le_trans _ (S (S (List.length r)))); [lia|].
    apply L. intros i Hi. apply andb_true_iff in Hi as [Hi _].
    apply Z.eqb_eq in Hi. auto.
  - assert (forall l, filter (fun i => opt_id_eqb None (inv_id i)
                                      && is_null (inv_deleted_at i)) l = []) as G
        by (induction l; simpl; auto).
    rewrite G. reflexivity.
Qed.

Lemma markPending_rows_length db ids :
  NoDup (map inv_id (invoices db)) ->
  List.length (markPending_rows db ids)
  = List.length (filter (targeted ids) (billing_events db)).
Proof.
  intros Hn. unfold markPending_rows.
  induction (filter (targeted ids) (billing_events db)) as [|e l IH]; simpl; [reflexivity|].
  rewrite length_app, IH, (join_invoice_single db e Hn). reflexivity.
Qed.

Lemma markPending_cases ids db :
  (markPending_rows db ids = []
   /\ markEventsPending ids db = (Returned (Failed EVENTS_NOT_FOUND), db))
  \/ (markPending_rows db ids <> []
      /\ filter is_blocked (markPending_rows db ids) <> []
      /\ markEventsPending ids db = (Returned (Failed EVENTS_LOCKED), db))
  \/ (markPending_rows db ids <> []
      /\ filter is_blocked (markPending_rows db ids) = []
      /\ markEventsPending ids db
         = (Returned (Ok (List.length (markPending_rows db ids))),
            set_billing_events db
              (map (fun e => if targeted ids e then revert_event e else e)
                   (billing_events db)))).
Proof.
  unfold markEventsPending, withTransaction, markPending_callback.
  destruct (markPending_rows db ids) as [|r rows]; [left; split; reflexivity|].
  right. destruct (filter is_blocked (r :: rows)) as [|b bs].
  - right. repeat split; discriminate.
  - left. repeat split; discriminate.
Qed.

(** C9. markEventsPending targets the live events whose id is listed.  If the
    live invoice one of them points to is issued or paid it answers
    EVENTS_LOCKED and changes nothing; if no listed id belongs to a live event
    it answers EVENTS_NOT_FOUND and changes nothing; otherwise every targeted
    event becomes PENDING with invoice_id and fx_rate_thbkrw cleared, every
    other row and table is left alone, and the count returned is the number
    of targeted events (invoice ids being a key). *)
Theorem C9_mark_events_pending ids db :
  (forall e, targeted ids e = true <-> In (be_id e) ids /\ be_deleted_at e = None)
  /\ ((exists e, In e (billing_events db) /\ targeted ids e = true /\ owner_locked db e) ->
      markEventsPending ids db = (Returned (Failed EVENTS_LOCKED), db))
  /\ ((forall e, In e (billing_events db) -> targeted ids e = false) ->
      markEventsPending ids db = (Returned (Failed EVENTS_NOT_FOUND), db))
  /\ ((exists e, In e (billing_events db) /\ targeted ids e = true) ->
      (forall e, In e (billing_events db) -> targeted ids e = true ->
                 ~ owner_locked db e) ->
      exists count db',
        markEventsPending ids db = (Returned (Ok count), db')
        /\ (NoDup (map inv_id (invoices db)) ->
            count = List.length (filter (targeted ids) (billing_events db)))
        /\ billing_events db'
           = map (fun e => if targeted ids e then revert_event e else e)
                 (billing_events db)
        /\ (forall r, In r (billing_events db') -> targeted ids r = true ->
              be_status r = PENDING /\ be_invoice_id r = None
              /\ be_fx_rate_thbkrw r = VNull)
        /\ (forall e, In e (billing_events db) -> targeted ids e = false ->
              In e (billing_events db'))
        /\ exchange_rates db' = exchange_rates db
        /\ invoices db' = invoices db
        /\ invoice_items db' = invoice_items db
        /\ invoice_sequences db' = invoice_sequences db).
Proof.
  split; [intros e; apply targeted_spec|].
  destruct (markPending_cases ids db) as [(R & E)|[(R & B & E)|(R & B & E)]].
  - split; [|split].
    + intros Hl. apply markPending_rows_blocked in Hl. rewrite R in Hl.
      simpl in Hl. tauto.
    + intros _. exact E.
    + intros (e & He & Ht) _. rewrite markPending_rows_empty in R.
      rewrite (R e He) in Ht. discriminate.
  - split; [|split].
    + intros _. exact E.
    + intros H. apply markPending_rows_empty in H. contradiction.
    + intros _ H. apply markPending_rows_blocked in B as (e & He & Ht & Hl).
      destruct (H e He Ht Hl).
  - split; [|split].
    + intros Hl. apply markPending_rows_blocked in Hl. contradiction.
    + intros H. apply markPending_rows_empty in H. contradiction.
    + intros _ _. eexists _, _. split; [exact E|].
      split; [intros Hn; apply markPending_rows_length; exact Hn|].
      split; [reflexivity|]. split; [|split; [|repeat split]].
      * cbn [billing_events set_billing_events]. intros r Hr Ht.
        apply in_map_iff in Hr as (e & <- & He).
        destruct (targeted ids e) eqn:T; [repeat split|].
        rewrite T in Ht. discriminate.
      * cbn [billing_events set_billing_events]. intros e He Ht.
        apply in_map_iff. exists e. rewrite Ht. auto.
Qed.

(** C9 at the demo invoice: its events revert while it is a draft and are
    locked once it is issued. *)
Lemma C9_witness :
  markEventsPending [1; 2; 9]%Z demo_generated
  = (Returned (Ok 2%nat),
     set_billing_events demo_generated
       [revert_event (invoice_event (Fin 4600) (Fin (391234 # 10000)) 1 demo_shipping);
        revert_event (invoice_event (Fin 10500) (Fin (391234 # 10000)) 1 demo_outbound)])
  /\ markEventsPending [1; 2; 9]%Z (run_all [OpIssue 1] demo_generated)
     = (Returned (Failed EVENTS_LOCKED), run_all [OpIssue 1] demo_generated).
Proof.
  split; [vm_compute; reflexivity|].
  destruct (C9_mark_events_pending [1; 2; 9]%Z (run_all [OpIssue 1] demo_generated))
    as (_ & H & _).
  apply H.
  exists (invoice_event (Fin 4600) (Fin (391234 # 10000)) 1 demo_shipping).
  split; [vm_compute; left; reflexivity|]. split; [reflexivity|].
  eexists. split; [vm_compute; left; reflexivity|].
  simpl. repeat split. left. reflexivity.
Defined.

(** ** Failed calls and the store *)

(** A failed issue, mark-paid, duplicate or mark-pending leaves the store as
    it was.  A failed generation leaves it as it was on INVOICE_ALREADY_ISSUED,
    leaves the store generation starts from on FX_NOT_FOUND, and leaves that
    store with the chosen rate locked on NO_PENDING_EVENTS. *)
Theorem failures_without_effect :
  (forall id db c db',
     issueInvoice id db = (Returned (Failed c), db') ->
     db' = db /\ (c = NOT_FOUND \/ c = INVALID_STATUS))
  /\ (forall id db c db',
        markInvoicePaid id db = (Returned (Failed c), db') ->
        db' = db /\ (c = NOT_FOUND \/ c = INVALID_STATUS))
  /\ (forall id db c db',
        duplicateInvoiceForAdmin id db = (Returned (Failed c), db') ->
        db' = db /\ (c = NOT_FOUND \/ c = INVALID_STATUS))
  /\ (forall ids db c db',
        markEventsPending ids db = (Returned (Failed c), db') ->
        db' = db /\ (c = EVENTS_NOT_FOUND \/ c = EVENTS_LOCKED))
  /\ (forall now us p db c db',
        generateInvoice now us p db = (Returned (Failed c), db') ->
        (c = INVOICE_ALREADY_ISSUED /\ db' = db)
        \/ (c = FX_NOT_FOUND /\ db' = generation_store now p db)
        \/ (c = NO_PENDING_EVENTS
            /\ exists r, fxRows db (invoice_date p) = Some r
                         /\ db' = lock_rate (generation_store now p db) (er_id r))).
Proof.
  split; [|split; [|split; [|split]]].
  - intros id db c db' H.
    destruct (issue_cases id db) as [(_ & E)|[(row & _ & _ & E)|(row & _ & _ & E)]];
      rewrite E in H; inversion H; auto.
  - intros id db c db' H.
    destruct (markPaid_cases id db) as [(_ & E)|[(row & _ & _ & E)|(row & _ & _ & E)]];
      rewrite E in H; inversion H; auto.
  - intros id db c db' H.
    destruct (duplicate_cases id db)
      as [(_ & E)|[(row & _ & _ & E)|(row & copy & s & _ & _ & E & _)]];
      rewrite E in H; inversion H; auto.
  - intros ids db c db' H.
    destruct (markPending_cases ids db) as [(_ & E)|[(_ & _ & E)|(_ & _ & E)]];
      rewrite E in H; inversion H; auto.
  - intros now us p db c db' H.
    destruct (generate_outcome now us p db)
      as [E|(existing & _ & [(_ & E)|(_ & _ & E)])]; rewrite E in H.
    + destruct (generate_fresh_cases us p (generation_store now p db))
        as [(_ & G)|[(r & Hr & _ & G)|(inv & n & f & s & G)]];
        rewrite G in H; cbn [fst snd] in H; inversion H; subst.
      * right. left. auto.
      * right. right. split; [reflexivity|]. exists r.
        rewrite fxRows_generation_store in Hr. auto.
    + inversion H. auto.
    + inversion H.
Qed.

(** A store with a usable rate and nothing to invoice. *)
Definition idle_store : Store := mkStore [demo_rate] [] [] [] [] [] true.

(** A request to regenerate the demo draft, dated before every rate. *)
Definition early_regenerate : GeneratePayload :=
  mkPayload 1 (mkMonth 2026 1) (mkDate 2025 12 31) true None.

(** C3. What the code does where the specification asks for an unchanged
    store: a generation that finds a rate and no pending event answers
    NO_PENDING_EVENTS with the rate locked, and a regeneration that finds no
    rate answers FX_NOT_FOUND with the draft and its items soft-deleted and
    its events back to PENDING; the callback returns both answers, so the
    transaction commits them. *)
Theorem C3_failed_generation_is_committed :
  generateInvoice 0 None demo_payload idle_store
  = (Returned (Failed NO_PENDING_EVENTS), lock_rate idle_store 1)
  /\ map er_locked (exchange_rates idle_store) = [false]
  /\ map er_locked (exchange_rates (lock_rate idle_store 1)) = [true]
  /\ generateInvoice 5 None early_regenerate demo_generated
     = (Returned (Failed FX_NOT_FOUND), discard_draft 5 demo_generated 1)
  /\ map inv_deleted_at (invoices demo_generated) = [None]
  /\ map inv_deleted_at (invoices (discard_draft 5 demo_generated 1)) = [Some 5%Z]
  /\ map be_status (billing_events demo_generated) = [INVOICED; INVOICED]
  /\ map be_status (billing_events (discard_draft 5 demo_generated 1))
     = [PENDING; PENDING]
  /\ (forall now us p db r,
        existingRows db (client_id p) (invoice_month p) = None ->
        fxRows db (invoice_date p) = Some r ->
        consumed p db = [] ->
        generateInvoice now us p db
        = (Returned (Failed NO_PENDING_EVENTS), lock_rate db (er_id r))).
Proof.
  do 8 (split; [vm_compute; reflexivity|]).
  intros now us p db r Ex Hr Hc.
  destruct (generate_outcome now us p db) as [E|(existing & C & _)]; [|congruence].
  rewrite E. unfold generation_store. rewrite Ex.
  destruct (generate_fresh_cases us p db)
    as [(G & _)|[(r' & Hr' & _ & G)|(inv & n & f & s & G)]].
  - congruence.
  - rewrite G. cbn [fst snd]. congruence.
  - apply generate_fresh_ok in G. destruct G as (_ & _ & _ & _ & _ & G & _).
    contradiction.
Qed.

(** ** The sequencer counts upward *)

Lemma filter_app_single {A} (f : A -> bool) (l : list A) x :
  filter f l = [] -> f x = true -> filter f (l ++ [x]) = [x].
Proof. intros E Hx. rewrite filter_app, E. simpl. rewrite Hx. reflexivity. Qed.

Lemma filter_map_head {A} (f : A -> bool) (g : A -> A) (l : list A) first rest :
  (forall x, f (g x) = f x) ->
  filter f l = first :: rest ->
  filter f (map g l) = g first :: map g rest.
Proof.
  intros Hg. revert first rest. induction l as [|x l IH]; simpl; [discriminate|].
  intros first rest. rewrite Hg. destruct (f x).
  - intros H. inversion H; subst. f_equal.
    clear IH. induction l as [|y l IH]; simpl; [reflexivity|].
    rewrite Hg. destruct (f y); simpl; rewrite IH; reflexivity.
  - apply IH.
Qed.

(** Successive sequence numbers of a client and month: the second call
    returns one more than the first. *)
Theorem resolveInvoiceSequence_increases db clientId yyyymm :
  fst (resolveInvoiceSequence
         (snd (resolveInvoiceSequence db clientId yyyymm)) clientId yyyymm)
  = (fst (resolveInvoiceSequence db clientId yyyymm) + 1)%Z.
Proof.
  unfold resolveInvoiceSequence at 2 3.
  set (mine := fun r => (sq_client_id r =? clientId)%Z && month_eqb (sq_yyyymm r) yyyymm
                        && is_null (sq_deleted_at r)).
  destruct (filter mine (invoice_sequences db)) as [|first rest] eqn:E.
  - cbn [fst snd]. unfold resolveInvoiceSequence. cbn [invoice_sequences set_invoice_sequences].
    fold mine. rewrite (filter_app_single mine _ _ E); [reflexivity|].
    unfold mine; cbn. rewrite Z.eqb_refl.
    assert (month_eqb yyyymm yyyymm = true) as -> by (apply month_eqb_spec; reflexivity).
    reflexivity.
  - cbn [fst snd]. unfold resolveInvoiceSequence. cbn [invoice_sequences set_invoice_sequences].
    fold mine.
    rewrite (filter_map_head mine _ _ first rest); [| |exact E].
    + cbn [fst]. rewrite Z.eqb_refl. reflexivity.
    + intros x. destruct (sq_id x =? sq_id first)%Z; reflexivity.
Qed.

(** ** Service lines follow the first-seen order of the events *)

Fixpoint has_code (codes : list string) (code : string) : bool :=
  match codes with
  | [] => false
  | k :: rest => String.eqb k code || has_code rest code
  end.

(** The distinct codes of a list, each at its first occurrence. *)
Definition first_seen (codes : list string) : list string :=
  fold_left (fun seen code => if has_code seen code then seen else seen ++ [code])
            codes [].

Lemma grouped_has_keys g code : grouped_has g code = has_code (map fst g) code.
Proof.
  induction g as [|[k a] g IH]; simpl; [reflexivity|]. rewrite IH. reflexivity.
Qed.

Lemma grouped_keys_first_seen fx (events : list BillingEvent) g :
  map fst (fold_left (fun g e => accumulate g e (normalizedAmount fx e)) events g)
  = fold_left (fun seen code => if has_code seen code then seen else seen ++ [code])
              (map be_service_code events) (map fst g).
Proof.
  revert g. induction events as [|e events IH]; intros g; simpl; [reflexivity|].
  rewrite IH, accumulate_keys, grouped_has_keys.
  destruct (has_code (map fst g) (be_service_code e)); reflexivity.
Qed.

(** The service lines of a generated invoice: one per distinct service code
    of the consumed events, in the order the codes first occur. *)
Theorem service_lines_first_seen now us p db inv n f db' :
  generateInvoice now us p db = (Returned (Ok (Fresh inv n f)), db') ->
  exists lines v,
    invoice_items db' = invoice_items (generation_store now p db) ++ lines ++ [v]
    /\ it_service_code v = "VAT_7"%string
    /\ map it_service_code lines
       = first_seen (map be_service_code (consumed p (generation_store now p db))).
Proof.
  intros H.
  destruct (generated_invoice now us p db inv n f db' H)
    as (i & lines & _ & _ & _ & _ & _ & F & Hit).
  eexists lines, _. split; [exact Hit|]. split; [reflexivity|].
  rewrite (Forall2_line_codes _ _ _ F).
  unfold gen_events, consume_events. rewrite consume_events_snd.
  apply grouped_keys_first_seen.
Qed.

(** The three items of the demo invoice. *)
Lemma service_lines_first_seen_demo :
  generateInvoice 0 None demo_payload demo_store
  = (Returned (Ok (Fresh (Some demo_invoice) 2 1)), demo_generated)
  /\ map it_service_code (invoice_items demo_generated)
     = ["TH_SHIPPING"; "OUTBOUND_FEE"; "VAT_7"]%string.
Proof.
  split; [exact demo_generate|].
  destruct (service_lines_first_seen 0 None demo_payload demo_store _ _ _ _ demo_generate)
    as (lines & v & Hit & Hv & Hc).
  rewrite Hit, !map_app, Hc. simpl map. rewrite Hv. vm_compute. reflexivity.
Defined.

(** ** The month range *)

(** For a calendar date, lying in the half-open range of [monthRange] is
    having the year and month of the invoice month. *)
Lemma monthRange_covers (m : month) (d : date) :
  (1 <= d_month d <= 12)%Z -> (1 <= d_day d)%Z ->
  date_leb (fst (monthRange m)) d && date_ltb d (snd (monthRange m)) = true
  <-> d_year d = m_year m /\ d_month d = m_month m.
Proof.
  intros Hm Hd. unfold monthRange, date_leb. cbn [fst snd].
  rewrite andb_true_iff, orb_true_iff, !date_ltb_spec, date_eqb_spec.
  destruct d as [dy dm dd], m as [y mo]; cbn in *.
  destruct (mo =? 12)%Z eqn:E; unfold date_lt; cbn.
  - apply Z.eqb_eq in E. subst mo. split.
    + intros [[H|H] G]; [lia|]. inversion H; subst. lia.
    + intros [-> ->]. split; [|lia].
      destruct (Z.eq_dec dd 1) as [->|N]; [right; reflexivity | left; lia].
  - apply Z.eqb_neq in E. split.
    + intros [[H|H] G]; [lia|]. inversion H; subst. lia.
    + intros [-> ->]. split; [|lia].
      destruct (Z.eq_dec dd 1) as [->|N]; [right; reflexivity | left; lia].
Qed.

(** Generation consumes exactly the live pending events of the client dated in
    the invoice month. *)
Theorem consumed_is_the_month (p : GeneratePayload) (db0 : Store) (e : BillingEvent) :
  (1 <= d_month (be_event_date e) <= 12)%Z ->
  (1 <= d_day (be_event_date e))%Z ->
  In e (consumed p db0)
  <-> In e (billing_events db0)
      /\ be_client_id e = client_id p
      /\ be_status e = PENDING
      /\ be_deleted_at e = None
      /\ d_year (be_event_date e) = m_year (invoice_month p)
      /\ d_month (be_event_date e) = m_month (invoice_month p).
Proof.
  intros Hm Hd. rewrite consumed_spec. unfold pending_event.
  rewrite <- (monthRange_covers (invoice_month p) (be_event_date e) Hm Hd).
  rewrite !andb_true_iff, Z.eqb_eq.
  destruct (be_status e), (be_deleted_at e); simpl; intuition discriminate.
Qed.

Lemma consumed_is_the_month_demo :
  In demo_shipping (consumed demo_payload demo_store)
  /\ ~ In (mkEvent 3 1 "TH_BOX" (mkDate 2026 2 1) (VNum (Fin 5)) THB_BASED
                   (VNum (Fin 8)) (VNum (Fin 40)) VNull VNull VNull PENDING None None)
          (consumed demo_payload
             (set_billing_events demo_store
                [mkEvent 3 1 "TH_BOX" (mkDate 2026 2 1) (VNum (Fin 5)) THB_BASED
                         (VNum (Fin 8)) (VNum (Fin 40)) VNull VNull VNull PENDING None None])).
Proof.
  split.
  - apply (consumed_is_the_month demo_payload demo_store demo_shipping);
      [simpl; lia | simpl; lia |].
    simpl. repeat split; auto.
  - intros H.
    apply consumed_is_the_month in H; [|simpl; lia|simpl; lia].
    simpl in H. destruct H as (_ & _ & _ & _ & _ & H). discriminate H.
Defined.

(** ** Service lines in detail *)

Section Lines.

Variables (names : list (string * option string)) (invoiceId : Z).

(** The item emitted for one group, with its description and unit price. *)
Definition line_of (entry : string * Agg) (it : InvoiceItem) : Prop :=
  line_ok invoiceId entry it
  /\ it_description it = description_of names (fst entry)
  /\ it_unit_price_krw it
     = if ngt (it_qty it) (Fin 0)
       then trunc100 (VNum (fdiv (it_amount_krw it) (it_qty it)))
       else it_amount_krw it.

Lemma emit_items_detail (grouped : Grouped) acc table :
  exists lines,
    fold_left (emit_item names invoiceId) grouped (acc, table)
    = (fold_left nadd (map it_amount_krw lines) acc, table ++ lines)
    /\ Forall2 line_of grouped lines.
Proof.
  revert acc table. induction grouped as [|entry grouped IH]; intros acc table.
  - exists []. simpl. rewrite app_nil_r. split; [reflexivity | constructor].
  - simpl. unfold emit_item at 2. cbn [fst snd].
    match goal with
    | |- context [table ++ [?it]] => set (item := it)
    end.
    destruct (IH (nadd acc (trunc100 (VNum (agg_amount_krw (snd entry))))) (table ++ [item]))
      as (lines & E & F).
    exists (item :: lines). split.
    + rewrite E. simpl. rewrite <- app_assoc. reflexivity.
    + constructor; [|exact F].
      unfold line_of, line_ok, item; cbn. repeat split.
      destruct (ngt _ _); apply trunc100_num_hundreds.
Qed.

End Lines.

Lemma line_of_ok names id g lines :
  Forall2 (line_of names id) g lines -> Forall2 (line_ok id) g lines.
Proof.
  induction 1 as [|en it g lines H _ IH]; constructor; [|exact IH].
  destruct H as (H & _). exact H.
Qed.

(** One successful generation, seen from its invoice, with the detail of its
    service lines. *)
Lemma generated_invoice_lines now us p db inv n f db' :
  generateInvoice now us p db = (Returned (Ok (Fresh inv n f)), db') ->
  exists i lines,
    inv = Some i
    /\ inv_id i = new_invoice_id (generation_store now p db)
    /\ inv_subtotal_krw i = trunc100 (VNum (sum_amounts lines))
    /\ inv_vat_krw i = trunc100 (VNum (nmul (inv_subtotal_krw i) vat_rate))
    /\ Forall2 (line_of (serviceNameMap (generation_store now p db)) (inv_id i))
               (snd (gen_events p (generation_store now p db))) lines
    /\ invoice_items db'
       = invoice_items (generation_store now p db) ++ lines
         ++ [vat_item (fresh_id (map it_id (invoice_items (generation_store now p db) ++ lines)))
                      (inv_id i) (inv_vat_krw i)].
Proof.
  intros H. apply generate_reaches_fresh in H.
  set (db0 := generation_store now p db) in *.
  apply generate_fresh_ok in H.
  destruct H as (fxRow & i & _ & _ & _ & _ & -> & Hid & _ & _ & _ & _ & _ & Hs & Hv & Ht
                 & _ & _ & Hit & _).
  destruct (emit_items_detail (serviceNameMap db0) (new_invoice_id db0)
              (snd (gen_events p db0)) (Fin 0) (invoice_items db0)) as (lines & E & F).
  change (gen_items p db0 = (sum_amounts lines, invoice_items db0 ++ lines)) in E.
  unfold gen_totals in Hs, Hv, Ht, Hit. rewrite E in Hs, Hv, Ht, Hit.
  unfold totals in Hs, Hv, Ht, Hit. cbn [fst snd] in Hs, Hv, Ht, Hit.
  exists i, lines. rewrite Hid, Hs, Hv, Hit, <- app_assoc.
  repeat split; try reflexivity. exact F.
Qed.

(** ** Quantities and unit prices *)

(** The value of a finite number. *)
Definition qval (n : num) : Q := match n with Fin q => q | NaN => 0 end.

Definition qsum (l : list num) : Q := fold_right (fun n s => qval n + s) 0 l.

(** A group as the loop keeps it: a whole amount. *)
Definition agg_ok (en : string * Agg) : Prop :=
  whole (agg_amount_krw (snd en)).

Definition group_amounts (g : Grouped) : list num :=
  map (fun en => agg_amount_krw (snd en)) g.

Lemma whole_qval n : whole n -> n = Fin (qval n).
Proof. intros (q & k & -> & _). reflexivity. Qed.

Lemma grouped_has_app g code a : grouped_has (g ++ [(code, a)]) code = true.
Proof.
  induction g as [|[k b] g IH]; simpl.
  - rewrite String.eqb_refl. reflexivity.
  - rewrite IH. apply orb_true_r.
Qed.

Lemma grouped_update_ok g code f d :
  Forall agg_ok g ->
  (forall k a, agg_ok (k, a) ->
     agg_ok (k, f a)
     /\ qval (agg_amount_krw (f a)) == qval (agg_amount_krw a) + d) ->
  grouped_has g code = true ->
  Forall agg_ok (grouped_update g code f)
  /\ qsum (group_amounts (grouped_update g code f)) == qsum (group_amounts g) + d.
Proof.
  intros Hg Hf. induction g as [|[k a] g IH]; simpl; [discriminate|].
  inversion Hg as [|? ? Ha Hrest]; subst.
  destruct (String.eqb k code); simpl.
  - intros _. destruct (Hf k a Ha) as (Ok' & E). split.
    + constructor; assumption.
    + rewrite E. ring.
  - intros Hhas. destruct (IH Hrest Hhas) as (Ok' & E). split.
    + constructor; assumption.
    + rewrite E. ring.
Qed.

Lemma accumulate_ok g e amount :
  Forall agg_ok g -> whole amount ->
  Forall agg_ok (accumulate g e amount)
  /\ qsum (group_amounts (accumulate g e amount)) == qsum (group_amounts g) + qval amount.
Proof.
  intros Hg Ha. unfold accumulate.
  set (f := fun current : Agg =>
              mkAgg (fadd (agg_qty current) (Number (or_else (be_qty e) (VNum (Fin 0)))))
                    (nadd (agg_amount_krw current) amount)).
  assert (forall k a, agg_ok (k, a) ->
            agg_ok (k, f a)
            /\ qval (agg_amount_krw (f a)) == qval (agg_amount_krw a) + qval amount)
    as Hf.
  { intros k a Hw. unfold agg_ok in *. cbn [snd f agg_amount_krw] in *. split.
    - apply whole_nadd; assumption.
    - rewrite (whole_qval _ Hw), (whole_qval _ Ha). simpl. reflexivity. }
  destruct (grouped_has g (be_service_code e)) eqn:Has.
  - apply (grouped_update_ok g _ f (qval amount) Hg Hf Has).
  - destruct (grouped_update_ok (g ++ [(be_service_code e, mkAgg (Fin 0) (Fin 0))])
                (be_service_code e) f (qval amount)) as (Ok' & E).
    + apply Forall_app. split; [exact Hg|]. constructor; [|constructor].
      apply whole_zero.
    + exact Hf.
    + apply grouped_has_app.
    + split; [exact Ok'|]. rewrite E. unfold group_amounts. rewrite map_app.
      assert (forall l, qsum (l ++ [Fin 0]) == qsum l) as Z0.
      { induction l as [|x l IH]; simpl; [reflexivity|]. rewrite IH. reflexivity. }
      simpl. rewrite Z0. reflexivity.
Qed.

Lemma accumulate_all_ok fx (events : list BillingEvent) g :
  Forall agg_ok g ->
  let g' := fold_left (fun g e => accumulate g e (normalizedAmount fx e)) events g in
  Forall agg_ok g'
  /\ qsum (group_amounts g') == qsum (group_amounts g) + qsum (map (normalizedAmount fx) events).
Proof.
  revert g. induction events as [|e events IH]; intros g Hg; simpl.
  - split; [exact Hg | ring].
  - destruct (accumulate_ok g e (normalizedAmount fx e) Hg) as (Ok' & E).
    { apply hundreds_whole, normalizedAmount_hundreds. }
    destruct (IH _ Ok') as (Ok'' & E'). split; [exact Ok''|].
    rewrite E', E. ring.
Qed.

Lemma gen_events_ok p db0 :
  Forall agg_ok (snd (gen_events p db0))
  /\ qsum (group_amounts (snd (gen_events p db0)))
     == qsum (map (normalizedAmount (gen_rate p db0)) (consumed p db0)).
Proof.
  unfold gen_events, consume_events. rewrite consume_events_snd. cbn [snd].
  destruct (accumulate_all_ok (gen_rate p db0) (consumed p db0) [] (Forall_nil _)) as (Ok' & E).
  split; [exact Ok'|]. rewrite E. simpl. ring.
Qed.

Lemma floor_hundred_bounds (x : Q) :
  inject_Z (Qfloor (x / 100) * 100) <= x /\ x < inject_Z (Qfloor (x / 100) * 100) + 100.
Proof.
  rewrite inject_Z_hundred.
  pose proof (Qfloor_le (x / 100)) as L. pose proof (Qlt_floor (x / 100)) as U.
  rewrite inject_Z_plus in U.
  assert (x == x / 100 * 100) as E by field.
  split.
  - rewrite E at 2. apply Qmult_le_compat_r; [exact L | discriminate].
  - rewrite E at 1.
    setoid_replace (inject_Z (Qfloor (x / 100)) * 100 + 100)
      with ((inject_Z (Qfloor (x / 100)) + inject_Z 1) * 100) by (simpl; ring).
    apply Qmult_lt_compat_r; [reflexivity | exact U].
Qed.

(** ** Rounding to doubles *)

Lemma pow2_pos (k : Z) : 0 < 2 ^ k.
Proof. apply Qpower_0_lt. reflexivity. Qed.

Lemma pow2_Z (k : Z) : (0 <= k)%Z -> 2 ^ k == inject_Z (2 ^ k).
Proof. intros H. rewrite Zpower_Qpower by exact H. reflexivity. Qed.

Lemma pow2_plus (a b : Z) : 2 ^ (a + b) == 2 ^ a * 2 ^ b.
Proof. apply Qpower_plus. discriminate. Qed.

Lemma pow2_minus (a b : Z) : 2 ^ (a - b) == 2 ^ a / 2 ^ b.
Proof. apply Qpower_minus. discriminate. Qed.

Lemma pow2_succ (a : Z) : 2 ^ (a + 1) == 2 * 2 ^ a.
Proof. rewrite pow2_plus. change (2 ^ 1) with 2. ring. Qed.

Lemma pow2_le (a b : Z) : (a <= b)%Z -> 2 ^ a <= 2 ^ b.
Proof. intros H. apply Qpower_le_compat_l; [exact H | discriminate]. Qed.

Lemma Qfrac (q : Q) : q == inject_Z (Qnum q) / inject_Z (Zpos (Qden q)).
Proof. destruct q as [n d]. simpl. apply Qmake_Qdiv. Qed.

(** Fractions of positive integers compare by cross products. *)
Lemma frac_lt (n d A B : Z) :
  (0 < d)%Z -> (0 < B)%Z -> (n * B < A * d)%Z ->
  inject_Z n / inject_Z d < inject_Z A / inject_Z B.
Proof.
  intros Hd HB H.
  assert (0 < inject_Z d) as Hd' by (change 0 with (inject_Z 0); rewrite <- Zlt_Qlt; exact Hd).
  assert (0 < inject_Z B) as HB' by (change 0 with (inject_Z 0); rewrite <- Zlt_Qlt; exact HB).
  apply Qlt_shift_div_r; [exact Hd'|].
  setoid_replace (inject_Z A / inject_Z B * inject_Z d) with (inject_Z A * inject_Z d / inject_Z B)
    by (field; intros C; rewrite C in HB'; discriminate HB').
  apply Qlt_shift_div_l; [exact HB'|].
  rewrite <- !inject_Z_mult, <- Zlt_Qlt. exact H.
Qed.

Lemma Qlog2_spec (q : Q) : 0 < q -> 2 ^ Qlog2 q <= q /\ q < 2 ^ (Qlog2 q + 1).
Proof.
  intros Hq. unfold Qlog2.
  set (n := Qnum q). set (d := Zpos (Qden q)).
  assert (0 < n)%Z as Hn.
  { unfold n. destruct q as [qn qd]. unfold Qlt in Hq. simpl in *. lia. }
  assert (0 < d)%Z as Hd by (unfold d; lia).
  destruct (Z.log2_spec n Hn) as (La & Ua). destruct (Z.log2_spec d Hd) as (Lb & Ub).
  set (a := Z.log2 n) in *. set (b := Z.log2 d) in *.
  assert (0 <= a)%Z as Ha by apply Z.log2_nonneg.
  assert (0 <= b)%Z as Hb by apply Z.log2_nonneg.
  assert (0 < 2 ^ a)%Z as Pa by (apply Z.pow_pos_nonneg; lia).
  assert (0 < 2 ^ b)%Z as Pb by (apply Z.pow_pos_nonneg; lia).
  rewrite <- Z.add_1_r in Ua, Ub.
  assert (q < 2 ^ (a - b + 1)) as Up.
  { replace (a - b + 1)%Z with ((a + 1) - b)%Z by lia.
    rewrite pow2_minus, (pow2_Z (a + 1)), (pow2_Z b) by lia.
    rewrite (Qfrac q). apply frac_lt; [exact Hd | exact Pb |]. fold n d. nia. }
  assert (2 ^ (a - b - 1) < q) as Lo.
  { replace (a - b - 1)%Z with (a - (b + 1))%Z by lia.
    rewrite pow2_minus, (pow2_Z a), (pow2_Z (b + 1)) by lia.
    rewrite (Qfrac q). apply frac_lt; [apply Z.pow_pos_nonneg; lia | exact Hd |].
    fold n d. nia. }
  destruct (Qle_bool (2 ^ (a - b)) q) eqn:T.
  - apply Qle_bool_iff in T. split; assumption.
  - split; [apply Qlt_le_weak; exact Lo|].
    replace (a - b - 1 + 1)%Z with (a - b)%Z by lia.
    apply Qnot_le_lt. intros C. apply Qle_bool_iff in C. congruence.
Qed.

Lemma nearest_even_error (y : Q) : Qabs (inject_Z (nearest_even y) - y) <= 1 # 2.
Proof.
  unfold nearest_even.
  pose proof (Qfloor_le y) as L. pose proof (Qlt_floor y) as U.
  rewrite inject_Z_plus in U. change (inject_Z 1) with 1 in U.
  apply Qabs_Qle_condition.
  destruct (Qcompare (y - inject_Z (Qfloor y)) (1 # 2)) eqn:C.
  - apply Qeq_alt in C. destruct (Z.even (Qfloor y)).
    + split; lra.
    + rewrite inject_Z_plus. change (inject_Z 1) with 1. split; lra.
  - apply Qlt_alt in C. split; lra.
  - apply Qgt_alt in C. rewrite inject_Z_plus. change (inject_Z 1) with 1. split; lra.
Qed.

(** The unit in the last place of the double nearest to x. *)
Definition ulp_exp (x : Q) : Z := Z.max (Qlog2 (Qabs x) - 52) (-1074).

Lemma binary64_value (x : Q) :
  ~ x == 0 -> binary64 x == inject_Z (nearest_even (x / 2 ^ ulp_exp x)) * 2 ^ ulp_exp x.
Proof.
  intros H. unfold binary64, ulp_exp.
  destruct (Qeq_bool x 0) eqn:E; [apply Qeq_bool_eq in E; contradiction|].
  apply Qred_correct.
Qed.

Lemma binary64_ulp (x : Q) :
  ~ x == 0 -> Qabs (binary64 x - x) <= 2 ^ ulp_exp x * (1 # 2).
Proof.
  intros H. rewrite (binary64_value x H).
  set (e := ulp_exp x). pose proof (pow2_pos e) as P.
  pose proof (nearest_even_error (x / 2 ^ e)) as N.
  set (m := inject_Z (nearest_even (x / 2 ^ e))) in *.
  assert (m * 2 ^ e - x == (m - x / 2 ^ e) * 2 ^ e) as ->.
  { field. intros C. rewrite C in P. apply (Qlt_irrefl 0 P). }
  rewrite Qabs_Qmult, (Qabs_pos (2 ^ e)) by (apply Qlt_le_weak; exact P).
  rewrite (Qmult_comm (2 ^ e)). apply Qmult_le_compat_r; [exact N | apply Qlt_le_weak; exact P].
Qed.

Lemma pow2_lt_inv (a b : Z) : 2 ^ a < 2 ^ b -> (a < b)%Z.
Proof.
  intros H. destruct (Z_lt_le_dec a b) as [L|L]; [exact L|].
  exfalso. apply (Qlt_not_le _ _ H). apply pow2_le. exact L.
Qed.

Definition unit_roundoff : Q := 1 # 9007199254740992.

Lemma unit_roundoff_pow : unit_roundoff == 2 ^ (-53).
Proof. reflexivity. Qed.

(** In the normal range the double nearest to x is within x / 2^53 of x. *)
Lemma binary64_error (x : Q) :
  2 ^ (-1022) <= Qabs x -> Qabs (binary64 x - x) <= Qabs x * unit_roundoff.
Proof.
  intros Hx.
  assert (0 < Qabs x) as Px by (eapply Qlt_le_trans; [apply (pow2_pos (-1022)) | exact Hx]).
  assert (~ x == 0) as N0.
  { intros C. rewrite C in Px. apply (Qlt_irrefl 0 Px). }
  destruct (Qlog2_spec (Qabs x) Px) as (Lo & Hi).
  assert (-1022 < Qlog2 (Qabs x) + 1)%Z as HL.
  { apply pow2_lt_inv. eapply Qle_lt_trans; [exact Hx | exact Hi]. }
  eapply Qle_trans; [apply (binary64_ulp x N0)|].
  unfold ulp_exp. rewrite Z.max_l by lia.
  rewrite pow2_minus.
  assert (2 ^ Qlog2 (Qabs x) / 2 ^ 52 * (1 # 2) == 2 ^ Qlog2 (Qabs x) * unit_roundoff) as ->
    by (unfold unit_roundoff; change (2 ^ 52) with (4503599627370496 # 1); field).
  apply Qmult_le_compat_r; [exact Lo | discriminate].
Qed.

(** In the normal range the double nearest to x is x * (1 + d) for a
    relative error d of at most 2^-53. *)
Lemma binary64_relative (x : Q) :
  2 ^ (-1022) <= Qabs x ->
  exists d, binary64 x == x * (1 + d) /\ - unit_roundoff <= d /\ d <= unit_roundoff.
Proof.
  intros Hx. pose proof (binary64_error x Hx) as E.
  assert (0 < Qabs x) as Px by (eapply Qlt_le_trans; [apply (pow2_pos (-1022)) | exact Hx]).
  assert (~ x == 0) as N0.
  { intros C. rewrite C in Px. apply (Qlt_irrefl 0 Px). }
  exists ((binary64 x - x) / x). split; [field; exact N0|].
  apply Qabs_Qle_condition.
  unfold Qdiv. rewrite Qabs_Qmult, Qabs_Qinv.
  apply Qle_shift_div_r; [exact Px|]. rewrite Qmult_comm. exact E.
Qed.

(** Three relative errors of at most 2^-53, two on the dividend and the
    quotient and one on the divisor, add up to less than 2^-51. *)
Lemma three_errors (al be ga : Q) :
  - unit_roundoff <= al <= unit_roundoff -> - unit_roundoff <= be <= unit_roundoff -> - unit_roundoff <= ga <= unit_roundoff ->
  - (4 * unit_roundoff) * (1 + be) <= (1 + al) * (1 + ga) - (1 + be)
  /\ (1 + al) * (1 + ga) - (1 + be) <= 4 * unit_roundoff * (1 + be).
Proof.
  unfold unit_roundoff. intros (A1 & A2) (B1 & B2) (G1 & G2).
  assert (al * ga <= (1 # 9007199254740992) * (1 # 9007199254740992)
          /\ - ((1 # 9007199254740992) * (1 # 9007199254740992)) <= al * ga) as (P1 & P2).
  { split; nra. }
  split; nra.
Qed.

Lemma fdiv_error (a q : Q) :
  100 <= Qabs a -> 2 ^ (-1022) <= q -> q <= 2 ^ 1000 ->
  exists r, fdiv (Fin a) (Fin q) = Fin r
            /\ a - Qabs a * (4 * unit_roundoff) <= r * q
            /\ r * q <= a + Qabs a * (4 * unit_roundoff).
Proof.
  intros Ha Hq1 Hq2.
  assert (0 < q) as Pq by (eapply Qlt_le_trans; [apply (pow2_pos (-1022)) | exact Hq1]).
  destruct (binary64_relative q) as (be & Eq & B1 & B2);
    [rewrite (Qabs_pos q) by (apply Qlt_le_weak; exact Pq); exact Hq1|].
  destruct (binary64_relative a) as (al & Ea & A1 & A2);
    [eapply Qle_trans; [|exact Ha]; discriminate|].
  assert (0 < 1 + be) as Pb by (unfold unit_roundoff in B1; lra).
  assert (0 < 1 + al) as Pa by (unfold unit_roundoff in A1; lra).
  assert (0 < binary64 q) as Pq'.
  { rewrite Eq. apply Qmult_lt_0_compat; assumption. }
  assert (0 < Qabs a) as Pabs by (eapply Qlt_le_trans; [|exact Ha]; reflexivity).
  assert (~ a == 0) as Na.
  { intros C. rewrite C in Pabs. apply (Qlt_irrefl 0 Pabs). }
  assert (~ q == 0) as Nq.
  { intros C. rewrite C in Pq. apply (Qlt_irrefl 0 Pq). }
  assert (~ 1 + be == 0) as Nb.
  { intros C. rewrite C in Pb. apply (Qlt_irrefl 0 Pb). }
  set (t := binary64 a / binary64 q).
  assert (t == a * ((1 + al) / (q * (1 + be)))) as Et.
  { unfold t. rewrite Ea, Eq. field. split; assumption. }
  destruct (binary64_relative t) as (ga & Er & G1 & G2).
  { rewrite Et, Qabs_Qmult.
    rewrite (Qabs_pos ((1 + al) / (q * (1 + be)))).
    2:{ apply Qlt_le_weak, Qlt_shift_div_l; [apply Qmult_lt_0_compat; assumption|].
        rewrite Qmult_0_l. exact Pa. }
    setoid_replace (Qabs a * ((1 + al) / (q * (1 + be))))
      with (Qabs a * (1 + al) / (q * (1 + be)))
      by (field; split; assumption).
    apply Qle_shift_div_l; [apply Qmult_lt_0_compat; assumption|].
    apply Qle_trans with (2 ^ (-1022) * (2 ^ 1000 * (1 + unit_roundoff))).
    - apply Qmult_le_l; [apply pow2_pos|].
      apply Qmult_le_compat_nonneg; split;
        [apply Qlt_le_weak; exact Pq | exact Hq2 | apply Qlt_le_weak; exact Pb | lra].
    - apply Qle_trans with (100 * (1 - unit_roundoff)); [vm_compute; discriminate|].
      apply Qmult_le_compat_nonneg; split;
        [discriminate | exact Ha | vm_compute; discriminate | lra]. }
  unfold fdiv.
  assert (Qeq_bool (binary64 q) 0 = false) as ->.
  { apply not_true_is_false. intros C. apply Qeq_bool_eq in C. rewrite C in Pq'.
    apply (Qlt_irrefl 0 Pq'). }
  fold t. exists (binary64 t). split; [reflexivity|].
  set (D := ((1 + al) * (1 + ga) - (1 + be)) / (1 + be)).
  assert (binary64 t * q == a + a * D) as E.
  { rewrite Er, Et. unfold D. field. split; assumption. }
  destruct (three_errors al be ga) as (T1 & T2); [split; assumption..|].
  assert (- (4 * unit_roundoff) <= D /\ D <= 4 * unit_roundoff) as (D1 & D2).
  { unfold D. split.
    - apply Qle_shift_div_l; [exact Pb | exact T1].
    - apply Qle_shift_div_r; [exact Pb | exact T2]. }
  assert (Qabs (a * D) <= Qabs a * (4 * unit_roundoff)) as AD.
  { rewrite Qabs_Qmult. apply Qmult_le_l; [exact Pabs|].
    apply Qabs_Qle_condition. split; assumption. }
  apply Qabs_Qle_condition in AD. destruct AD as (AD1 & AD2).
  rewrite E. split; lra.
Qed.

(** What three roundings can cost: 2^-51. *)
Definition slack : Q := 4 * unit_roundoff.

Lemma hundred_cases (k : Z) :
  inject_Z (k * 100) = 0 \/ 100 <= Qabs (inject_Z (k * 100)).
Proof.
  destruct (Z.eq_dec k 0) as [->|N]; [left; reflexivity|]. right.
  destruct (Z_lt_le_dec k 0) as [L|L].
  - rewrite Qabs_neg by (change 0 with (inject_Z 0); rewrite <- Zle_Qle; lia).
    rewrite <- inject_Z_opp. change 100 with (inject_Z 100) at 1. rewrite <- Zle_Qle. lia.
  - rewrite Qabs_pos by (change 0 with (inject_Z 0); rewrite <- Zle_Qle; lia).
    change 100 with (inject_Z 100) at 1. rewrite <- Zle_Qle. lia.
Qed.

(** The unit price of a line of amount a and quantity q, both a multiple of
    100 and a quantity in the normal range of doubles. *)
Lemma unit_display_bounds (k : Z) (q : Q) :
  2 ^ (-1022) <= q -> q <= 2 ^ 1000 ->
  exists u,
    trunc100 (VNum (fdiv (Fin (inject_Z (k * 100))) (Fin q))) = Fin u
    /\ u * q <= inject_Z (k * 100) + Qabs (inject_Z (k * 100)) * slack
    /\ inject_Z (k * 100) - Qabs (inject_Z (k * 100)) * slack < (u + 100) * q.
Proof.
  intros Hq1 Hq2.
  assert (0 < q) as Pq by (eapply Qlt_le_trans; [apply (pow2_pos (-1022)) | exact Hq1]).
  assert (exists r, fdiv (Fin (inject_Z (k * 100))) (Fin q) = Fin r
                    /\ inject_Z (k * 100) - Qabs (inject_Z (k * 100)) * slack <= r * q
                    /\ r * q <= inject_Z (k * 100) + Qabs (inject_Z (k * 100)) * slack)
    as (r & -> & R1 & R2).
  { destruct (hundred_cases k) as [->|H]; [|apply fdiv_error; assumption].
    exists 0. split; [|split; vm_compute; discriminate].
    unfold fdiv.
    destruct (binary64_relative q) as (be & Eq & B1 & B2);
      [rewrite (Qabs_pos q) by (apply Qlt_le_weak; exact Pq); exact Hq1|].
    assert (0 < binary64 q) as Pq'.
    { rewrite Eq. apply Qmult_lt_0_compat; [exact Pq | unfold unit_roundoff in B1; lra]. }
    assert (Qeq_bool (binary64 q) 0 = false) as ->.
    { apply not_true_is_false. intros C. apply Qeq_bool_eq in C. rewrite C in Pq'.
      apply (Qlt_irrefl 0 Pq'). }
    reflexivity. }
  rewrite trunc100_fin. eexists. split; [reflexivity|].
  destruct (floor_hundred_bounds r) as (Lo & Hi). split.
  - eapply Qle_trans; [|exact R2]. apply Qmult_le_compat_r; [exact Lo | apply Qlt_le_weak; exact Pq].
  - eapply Qle_lt_trans; [exact R1|]. apply Qmult_lt_compat_r; [exact Pq | exact Hi].
Qed.

(** The unit price shown on an item against its amount and quantity: both
    are whole multiples of 100; the unit price is the amount itself unless
    the quantity is a positive number; and for a quantity in the normal range
    of doubles, unit_price * qty exceeds the amount by no more than its
    2^51st part and (unit_price + 100) * qty falls short of it by no more
    than that. *)
Definition unit_price_fits (it : InvoiceItem) : Prop :=
  hundreds (it_unit_price_krw it)
  /\ hundreds (it_amount_krw it)
  /\ (ngt (it_qty it) (Fin 0) = false -> it_unit_price_krw it = it_amount_krw it)
  /\ forall q u a,
       it_qty it = Fin q -> it_unit_price_krw it = Fin u -> it_amount_krw it = Fin a ->
       2 ^ (-1022) <= q -> q <= 2 ^ 1000 ->
       u * q <= a + Qabs a * slack /\ a - Qabs a * slack < (u + 100) * q.

Lemma line_unit_price names id en it :
  line_of names id en it -> unit_price_fits it.
Proof.
  intros ((_ & _ & _ & Eq & Ea & Hu) & _ & Eu).
  destruct (trunc100_num_hundreds (agg_amount_krw (snd en))) as (k & Ek).
  rewrite Ek in Ea.
  split; [exact Hu|]. split; [exists k; exact Ea|]. split.
  - intros N. rewrite N in Eu. exact Eu.
  - intros q u a Hq Hu' Ha Hq1 Hq2.
    assert (0 < q) as Pq by (eapply Qlt_le_trans; [apply (pow2_pos (-1022)) | exact Hq1]).
    rewrite Hq, Ea in Eu. rewrite Ea in Ha. inversion Ha; subst a.
    assert (ngt (Fin q) (Fin 0) = true) as G.
    { unfold ngt. apply negb_true_iff, not_true_is_false. intros C.
      apply Qle_bool_iff in C. apply (Qlt_not_le _ _ Pq C). }
    rewrite G in Eu.
    destruct (unit_display_bounds k q Hq1 Hq2) as (u' & Eu' & B1 & B2).
    rewrite Eu' in Eu. rewrite Hu' in Eu. inversion Eu; subst u'. split; assumption.
Qed.

Lemma lines_unit_price names id g lines :
  Forall2 (line_of names id) g lines -> Forall unit_price_fits lines.
Proof.
  intros F. induction F as [|en it g l Hl _ IH]; constructor; [|exact IH].
  eapply line_unit_price; eassumption.
Qed.

(** On every item a successful generation appends, the unit price and the
    amount are whole multiples of 100; the unit price is the amount itself
    unless the quantity is a positive number, and otherwise the amount per
    unit, the quotient of doubles, cut down to the hundred: for a quantity
    in the normal range of doubles, unit_price * qty is at most the amount
    and falls short of it by less than 100 * qty, up to the 2^51st part of
    the amount, which the roundings can cost.  The slack is needed: a line of
    1100 over a quantity of 1.1, whose quotient as doubles is
    999.9999999999999, shows a unit price of 900. *)
Theorem unit_price_within_amount now us p db inv n f db' :
  generateInvoice now us p db = (Returned (Ok (Fresh inv n f)), db') ->
  (exists appended,
     invoice_items db' = invoice_items (generation_store now p db) ++ appended
     /\ Forall unit_price_fits appended)
  /\ map it_unit_price_krw
         (snd (emit_item [] 1 (Fin 0, [])
                 ("TH_SHIPPING"%string, mkAgg (Fin (11 # 10)) (Fin 1100))))
     = [Fin 900].
Proof.
  intros H. split; [|vm_compute; reflexivity].
  destruct (generated_invoice_lines now us p db inv n f db' H)
    as (i & lines & -> & Hid & Hs & Hv & F & Hit).
  eexists. split; [exact Hit|]. apply Forall_app. split.
  - eapply lines_unit_price; eassumption.
  - constructor; [|constructor].
    destruct (trunc100_num_hundreds (nmul (inv_subtotal_krw i) vat_rate)) as (k & Ek).
    unfold unit_price_fits. cbn [vat_item it_qty it_unit_price_krw it_amount_krw].
    rewrite Hv, Ek.
    split; [exists k; reflexivity|]. split; [exists k; reflexivity|].
    split; [reflexivity|].
    intros q u a Hq Hu Ha _ _. inversion Hq; subst q. inversion Hu; subst u.
    inversion Ha; subst a.
    assert (0 <= Qabs (inject_Z (k * 100)) * slack) as S.
    { apply Qmult_le_0_compat; [apply Qabs_nonneg | discriminate]. }
    split; lra.
Qed.

(** ** Descriptions *)

(** The description the engine gives a service code: the name the catalogue
    holds for it, or the code itself when that name is missing or empty. *)
Lemma map_get_in {V} (m : list (string * V)) k v :
  map_get m k = Some v -> In (k, v) m.
Proof.
  induction m as [|[k' v'] m IH]; simpl; [discriminate|].
  destruct (map_get m k) as [w|].
  - intros E. inversion E; subst. right. apply IH. reflexivity.
  - destruct (String.eqb k' k) eqn:K; [|discriminate].
    apply String.eqb_eq in K. intros E. inversion E; subst. left. reflexivity.
Qed.

Definition named_by (db : Store) (code description : string) : Prop :=
  exists r, In r (service_catalog db)
            /\ sc_deleted_at r = None
            /\ sc_service_code r = code
            /\ coalesce (sc_service_name r) (sc_service_name_kr r) = Some description.

Lemma description_of_cases db code :
  description_of (serviceNameMap db) code = code
  \/ (description_of (serviceNameMap db) code <> EmptyString
      /\ named_by db code (description_of (serviceNameMap db) code)).
Proof.
  unfold description_of.
  destruct (map_get (serviceNameMap db) code) as [[name|]|] eqn:G; [|left; reflexivity..].
  destruct name as [|c rest]; [left; reflexivity|]. right. split; [discriminate|].
  apply map_get_in in G. unfold serviceNameMap in G.
  apply in_map_iff in G as (r & E & Hr). apply filter_In in Hr as (Hr & D).
  inversion E; subst. exists r. repeat split; try assumption.
  destruct (sc_deleted_at r); [discriminate | reflexivity].
Qed.

(** Every service line a successful generation appends is described by its
    service code or by a non-empty name that a live catalogue row holds for
    that code; so no line of a non-empty code has an empty description. *)
Theorem descriptions_fall_back_to_code now us p db inv n f db' :
  generateInvoice now us p db = (Returned (Ok (Fresh inv n f)), db') ->
  exists lines v,
    invoice_items db' = invoice_items (generation_store now p db) ++ lines ++ [v]
    /\ it_description v = "VAT 7%"%string
    /\ forall it, In it lines ->
         (it_description it = it_service_code it
          \/ (it_description it <> EmptyString
              /\ named_by db (it_service_code it) (it_description it)))
         /\ (it_service_code it <> EmptyString -> it_description it <> EmptyString).
Proof.
  intros H.
  destruct (generated_invoice_lines now us p db inv n f db' H)
    as (i & lines & -> & Hid & Hs & Hv & F & Hit).
  eexists lines, _. split; [exact Hit|]. split; [reflexivity|].
  assert (forall code d, named_by (generation_store now p db) code d -> named_by db code d) as Nm.
  { intros code d (r & Hr & Hd). exists r. split; [|exact Hd].
    destruct (generation_store_frame now p db) as (_ & _ & _ & _ & E & _).
    rewrite <- E. exact Hr. }
  clear Hit Hs. induction F as [|en it g l Hl _ IH]; [intros it []|].
  intros it' [<-|Hin]; [|apply IH; exact Hin].
  destruct Hl as ((_ & _ & Ec & _) & Ed & _). rewrite Ec, Ed.
  destruct (description_of_cases (generation_store now p db) (fst en)) as [E|(N & M)].
  - split; [left; exact E|]. rewrite E. tauto.
  - split; [right; split; [exact N | apply Nm; exact M]|]. intros _. exact N.
Qed.

Lemma unit_price_within_amount_demo :
  generateInvoice 0 None demo_payload demo_store
  = (Returned (Ok (Fresh (Some demo_invoice) 2 1)), demo_generated)
  /\ Forall unit_price_fits (invoice_items demo_generated).
Proof.
  split; [exact demo_generate|].
  destruct (unit_price_within_amount 0 None demo_payload demo_store _ _ _ _ demo_generate)
    as ((appended & E & F) & _).
  change (invoice_items (generation_store 0 demo_payload demo_store))
    with (@nil InvoiceItem) in E.
  rewrite E. exact F.
Defined.

Lemma descriptions_fall_back_to_code_demo :
  generateInvoice 0 None demo_payload demo_store
  = (Returned (Ok (Fresh (Some demo_invoice) 2 1)), demo_generated)
  /\ exists lines v,
       invoice_items demo_generated = lines ++ [v]
       /\ it_description v = "VAT 7%"%string
       /\ forall it, In it lines -> it_description it <> EmptyString.
Proof.
  split; [exact demo_generate|].
  destruct (descriptions_fall_back_to_code 0 None demo_payload demo_store _ _ _ _ demo_generate)
    as (lines & v & E & Hv & Hl).
  change (invoice_items (generation_store 0 demo_payload demo_store))
    with (@nil InvoiceItem) in E.
  exists lines, v. split; [exact E|]. split; [exact Hv|].
  intros it Hit. destruct (Hl it Hit) as (_ & N). apply N.
  assert (In it (invoice_items demo_generated)) as Hin.
  { rewrite E. cbn [app]. apply in_or_app. left. exact Hit. }
  vm_compute in Hin. destruct Hin as [<-|[<-|[<-|[]]]]; discriminate.
Defined.

(** ** From the events to the subtotal *)

Lemma qsum_perm (l l' : list num) : Permutation l l' -> qsum l == qsum l'.
Proof.
  induction 1; simpl.
  - reflexivity.
  - rewrite IHPermutation. reflexivity.
  - ring.
  - rewrite IHPermutation1. exact IHPermutation2.
Qed.

Lemma fold_nadd_qsum (l : list num) (a : Q) :
  Forall whole l -> exists q, fold_left nadd l (Fin a) = Fin q /\ q == a + qsum l.
Proof.
  revert a. induction l as [|x l IH]; intros a Hl; simpl.
  - exists a. split; [reflexivity | ring].
  - inversion Hl as [|? ? Hx Hrest]; subst.
    rewrite (whole_qval _ Hx). simpl.
    destruct (IH (a + qval x) Hrest) as (q & E & Hq).
    exists q. split; [exact E|]. rewrite Hq. ring.
Qed.

Lemma lines_amounts names id g lines :
  Forall agg_ok g -> Forall2 (line_of names id) g lines ->
  qsum (map it_amount_krw lines) == qsum (group_amounts g).
Proof.
  intros Hok F. induction F as [|en it g l Hl _ IH]; simpl; [reflexivity|].
  inversion Hok as [|? ? Hw Hrest]; subst. unfold agg_ok in Hw.
  rewrite (IH Hrest).
  destruct Hl as ((_ & _ & _ & _ & Ea & _) & _). rewrite Ea.
  destruct (trunc100_whole _ Hw) as (_ & E).
  destruct Hw as (q & k & Eq & _). rewrite Eq in E |- *.
  destruct (trunc100 (VNum (Fin q))) as [t|]; [|contradiction].
  simpl in E |- *. rewrite E. reflexivity.
Qed.

(** Foreign key of billing_events: an event's invoice link points to a row of
    invoices. *)
Definition events_reference_invoices (db : Store) : Prop :=
  forall e k, In e (billing_events db) -> be_invoice_id e = Some k ->
              In k (map inv_id (invoices db)).

(** The live events linked to an invoice. *)
Definition linked_events (db : Store) (invoiceId : Z) : list BillingEvent :=
  filter (fun e => opt_id_eqb (be_invoice_id e) invoiceId && is_null (be_deleted_at e))
         (billing_events db).

Lemma events_reference_generation_store now p db :
  events_reference_invoices db ->
  events_reference_invoices (generation_store now p db).
Proof.
  intros H e k He Hk.
  destruct (generation_store_frame now p db) as (_ & _ & -> & _).
  revert He Hk. unfold generation_store.
  destruct (existingRows db (client_id p) (invoice_month p)) as [existing|]; [|apply H].
  destruct (is_draft (inv_status existing) && regenerate_draft p); [|apply H].
  unfold discard_draft; cbn. intros He Hk.
  apply in_map_iff in He as (e0 & E & He0).
  destruct (opt_id_eqb (be_invoice_id e0) (inv_id existing) && is_null (be_deleted_at e0)).
  - subst e. discriminate Hk.
  - subst e0. apply (H e k He0 Hk).
Qed.

Lemma filter_map_split {A} (P : A -> bool) (F : A -> A) (sel : A -> bool) (l : list A) :
  (forall r, In r l -> sel r = true -> P (F r) = true) ->
  (forall r, In r l -> sel r = false -> P r = false) ->
  filter P (map (fun r => if sel r then F r else r) l) = map F (filter sel l).
Proof.
  induction l as [|x l IH]; intros Hs Hn; simpl; [reflexivity|].
  rewrite IH; [|intros r Hr; apply Hs; right; exact Hr|intros r Hr; apply Hn; right; exact Hr].
  destruct (sel x) eqn:S.
  - rewrite (Hs x (or_introl eq_refl) S). reflexivity.
  - rewrite (Hn x (or_introl eq_refl) S). reflexivity.
Qed.

(** With event ids as a key, the rows of the table whose id is among the
    selected ones are the selected events, in table order. *)
Lemma selected_rows p db0 :
  NoDup (map be_id (billing_events db0)) ->
  Permutation (filter (fun r => mem_id (be_id r) (map be_id (consumed p db0)))
                      (billing_events db0))
              (consumed p db0).
Proof.
  intros Hkey.
  rewrite (filter_ext_in _ (pending_event (client_id p) (fst (monthRange (invoice_month p)))
                                          (snd (monthRange (invoice_month p))))).
  - symmetry. apply order_by_id_perm.
  - intros r Hr.
    destruct (pending_event _ _ _ r) eqn:P.
    + apply mem_id_In, in_map, consumed_spec. tauto.
    + apply not_true_is_false. intros M. apply mem_id_In, in_map_iff in M as (e & E & He).
      assert (In e (billing_events db0)) as Hin by (apply consumed_spec in He; tauto).
      assert (e = r) by (apply (NoDup_map_inj_in be_id (billing_events db0)); assumption).
      subst e. apply consumed_spec in He. destruct He as (_ & He). congruence.
Qed.

(** After a successful generation, on a store where event ids are a key and
    event links point to existing invoices: the live events linked to the new
    invoice are the consumed events as rewritten, and subtotal_krw is exactly
    the sum of their amount_krw. *)
Theorem subtotal_is_sum_of_events now us p db inv n f db' :
  NoDup (map be_id (billing_events db)) ->
  events_reference_invoices db ->
  generateInvoice now us p db = (Returned (Ok (Fresh inv n f)), db') ->
  exists i,
    inv = Some i
    /\ Permutation (map be_id (linked_events db' (inv_id i)))
                   (map be_id (consumed p (generation_store now p db)))
    /\ num_eq (inv_subtotal_krw i)
              (fold_left nadd
                 (map (fun e => Number (be_amount_krw e)) (linked_events db' (inv_id i)))
                 (Fin 0)).
Proof.
  intros Hkey Hfk H.
  destruct (generated_invoice_lines now us p db inv n f db' H)
    as (i & lines & -> & Hid & Hs & _ & F & _).
  apply generate_reaches_fresh in H.
  set (db0 := generation_store now p db) in *.
  assert (NoDup (map be_id (billing_events db0))) as Hkey0.
  { unfold db0. destruct (generation_store_frame now p db) as (_ & -> & _). exact Hkey. }
  pose proof (events_reference_generation_store now p db Hfk) as Hfk0. fold db0 in Hfk0.
  apply generate_fresh_ok in H.
  destruct H as (fxRow & i' & Hfx & _ & _ & _ & Hi & _ & _ & _ & _ & _ & _ & _ & _ & _ & _
                 & Hev & _).
  inversion Hi; subst i'; clear Hi.
  assert (gen_rate p db0 = Fin (er_rate fxRow)) as Hrate.
  { unfold gen_rate. rewrite Hfx. reflexivity. }
  set (fx := Fin (er_rate fxRow)) in *.
  assert (billing_events db'
          = map (fun r => if mem_id (be_id r) (map be_id (consumed p db0))
                          then stamped fx (inv_id i) r else r) (billing_events db0)) as Htable.
  { rewrite Hev. unfold gen_events. rewrite Hrate, <- Hid.
    apply consume_events_table;
      [exact Hkey0 | apply consumed_NoDup; exact Hkey0
       | intros x Hx; apply consumed_spec in Hx; tauto]. }
  set (sel := fun r => mem_id (be_id r) (map be_id (consumed p db0))) in *.
  assert (linked_events db' (inv_id i)
          = map (stamped fx (inv_id i)) (filter sel (billing_events db0))) as Hlinked.
  { unfold linked_events. rewrite Htable. apply filter_map_split.
    - intros r Hr S. unfold sel in S. apply mem_id_In, in_map_iff in S as (e & E & He).
      assert (In e (billing_events db0)) as Hin by (apply consumed_spec in He; tauto).
      assert (e = r) by (apply (NoDup_map_inj_in be_id (billing_events db0)); assumption).
      subst e. apply consumed_spec in He. destruct He as (_ & P).
      unfold pending_event in P. rewrite !andb_true_iff in P.
      destruct P as ((((_ & _) & D) & _) & _). cbn. rewrite Z.eqb_refl. exact D.
    - intros r Hr _. destruct (be_invoice_id r) as [k|] eqn:K; [|reflexivity].
      cbn. assert ((k =? inv_id i)%Z = false) as ->; [|reflexivity].
      apply Z.eqb_neq. rewrite Hid. unfold new_invoice_id.
      pose proof (fresh_id_gt _ _ (Hfk0 r k Hr K)). lia. }
  pose proof (selected_rows p db0 Hkey0) as Hperm. fold sel in Hperm.
  exists i. split; [reflexivity|]. split.
  - rewrite Hlinked, map_map. cbn. apply Permutation_map. exact Hperm.
  - rewrite Hlinked, map_map. cbn [stamped invoice_event be_amount_krw Number].
    destruct (fold_nadd_qsum (map (fun x => normalizedAmount fx x) (filter sel (billing_events db0))) 0)
      as (t & -> & Et).
    { apply Forall_forall. intros x Hx. apply in_map_iff in Hx as (e & <- & _).
      apply hundreds_whole, normalizedAmount_hundreds. }
    pose proof (sum_amounts_whole _ _ _ (line_of_ok _ _ _ _ F)) as Hw.
    destruct (trunc100_whole _ Hw) as (_ & Es). rewrite <- Hs in Es.
    destruct (fold_nadd_qsum (map it_amount_krw lines) 0) as (s & Esum & Hsq).
    { eapply Forall2_line_amounts. eapply line_of_ok. exact F. }
    change (sum_amounts lines = Fin s) in Esum. rewrite Esum in Es.
    destruct (inv_subtotal_krw i) as [u|]; [|contradiction]. simpl in Es |- *.
    rewrite Es, Hsq, Et.
    destruct (gen_events_ok p db0) as (Hok & Eg). rewrite Hrate in Eg.
    rewrite (lines_amounts _ _ _ _ Hok F), Eg.
    rewrite (qsum_perm _ _ (Permutation_map (normalizedAmount fx) Hperm)). reflexivity.
Qed.

Lemma demo_events_reference : events_reference_invoices demo_store.
Proof. intros e k [<-|[<-|[]]] E; discriminate E. Qed.

Lemma subtotal_is_sum_of_events_demo :
  NoDup (map be_id (billing_events demo_store))
  /\ events_reference_invoices demo_store
  /\ generateInvoice 0 None demo_payload demo_store
     = (Returned (Ok (Fresh (Some demo_invoice) 2 1)), demo_generated)
  /\ num_eq (inv_subtotal_krw demo_invoice)
            (fold_left nadd
               (map (fun e => Number (be_amount_krw e)) (linked_events demo_generated 1))
               (Fin 0)).
Proof.
  split; [exact demo_event_ids|]. split; [exact demo_events_reference|].
  split; [exact demo_generate|].
  destruct (subtotal_is_sum_of_events 0 None demo_payload demo_store _ _ _ _
              demo_event_ids demo_events_reference demo_generate) as (i & Hinv & _ & Hs).
  inversion Hinv; subst i. exact Hs.
Defined.

(** ** Rates in use *)

(** A rate id is used when a live invoice froze the value of one of its rows. *)
Definition used_by_invoice (db : Store) (id : Z) : Prop :=
  exists i er x,
    In i (invoices db) /\ inv_deleted_at i = None
    /\ In er (exchange_rates db) /\ er_id er = id
    /\ inv_fx_rate_thbkrw i = Fin x /\ x == er_rate er.

Lemma length_pos {A} (l : list A) : (0 <? List.length l)%nat = true <-> l <> [].
Proof.
  destruct l; simpl; split; intros H; try reflexivity; try discriminate.
  exfalso. apply H. reflexivity.
Qed.

Lemma usage_count_spec db id :
  (0 <? getExchangeRateUsageCount db id)%nat = true <-> used_by_invoice db id.
Proof.
  unfold getExchangeRateUsageCount, used_by_invoice. rewrite length_pos. split.
  - intros H.
    destruct (flat_map _ _) as [|er rest] eqn:E; [exfalso; apply H; reflexivity|].
    assert (In er (er :: rest)) as Hin by (left; reflexivity).
    rewrite <- E in Hin. apply in_flat_map in Hin as (i & Hi & Her).
    apply filter_In in Hi as (Hi & Di). apply filter_In in Her as (Her & C).
    apply andb_true_iff in C as (C1 & C2). apply Z.eqb_eq in C1.
    unfold fx_is in C2. destruct (inv_fx_rate_thbkrw i) as [x|] eqn:Fx; [|discriminate].
    apply Qeq_bool_eq in C2. exists i, er, x.
    destruct (inv_deleted_at i); [discriminate|]. auto 10.
  - intros (i & er & x & Hi & Di & Her & Eid & Fx & Ex) C.
    assert (In er (flat_map
       (fun i => filter (fun er => (er_id er =? id)%Z
                                   && fx_is (inv_fx_rate_thbkrw i) (er_rate er))
                        (exchange_rates db))
       (filter (fun i => is_null (inv_deleted_at i)) (invoices db)))) as Hin.
    { apply in_flat_map. exists i. split.
      - apply filter_In. split; [exact Hi|]. rewrite Di. reflexivity.
      - apply filter_In. split; [exact Her|]. rewrite Eid, Z.eqb_refl, Fx. simpl.
        apply Qeq_bool_iff. exact Ex. }
    rewrite C in Hin. exact Hin.
Qed.

Lemma live_rate_spec db id row :
  live_rate db id = Some row ->
  In row (exchange_rates db) /\ er_id row = id /\ er_deleted_at row = None.
Proof.
  unfold live_rate. intros H.
  destruct (filter _ _) as [|r rest] eqn:E; [discriminate|]. inversion H; subst r.
  assert (In row (row :: rest)) as Hin by (left; reflexivity).
  rewrite <- E in Hin. apply filter_In in Hin as (Hin & C).
  apply andb_true_iff in C as (C1 & C2). apply Z.eqb_eq in C1.
  destruct (er_deleted_at row); [discriminate|]. auto.
Qed.

Lemma live_rate_none db id :
  live_rate db id = None <->
  forall r, In r (exchange_rates db) -> er_id r = id -> er_deleted_at r <> None.
Proof.
  unfold live_rate. split.
  - intros H r Hr E D.
    assert (In r (filter (fun r => (er_id r =? id)%Z && is_null (er_deleted_at r))
                         (exchange_rates db))) as Hin.
    { apply filter_In. split; [exact Hr|]. rewrite E, Z.eqb_refl, D. reflexivity. }
    destruct (filter _ _); [exact Hin | discriminate].
  - intros H. destruct (filter _ _) as [|r rest] eqn:E; [reflexivity|]. exfalso.
    assert (In r (r :: rest)) as Hin by (left; reflexivity).
    rewrite <- E in Hin. apply filter_In in Hin as (Hin & C).
    apply andb_true_iff in C as (C1 & C2). apply Z.eqb_eq in C1.
    apply (H r Hin C1). destruct (er_deleted_at r); [discriminate | reflexivity].
Qed.

(** The answers of the two settings routes to an administrator.  Without a
    live rate of the id both answer 404.  A rate that is locked, or whose id
    has a row with the value a live invoice froze, is refused by both with
    EXCHANGE_RATE_LOCKED.  In the three cases the store stays as it was.
    Otherwise DELETE soft-deletes the rate: no live rate of the id is left,
    and no later rate lookup returns a row of that id. *)
Theorem rate_settings_guard (duplicate_entry : list ExchangeRate -> bool)
    now id payload db :
  (live_rate db id = None ->
   deleteExchangeRate now true id db = (RateNotFound, db)
   /\ putExchangeRate duplicate_entry true id payload db = (RateNotFound, db))
  /\ (forall row, live_rate db id = Some row ->
        er_locked row = true \/ used_by_invoice db id ->
        deleteExchangeRate now true id db = (RateLocked, db)
        /\ putExchangeRate duplicate_entry true id payload db = (RateLocked, db))
  /\ (forall row, live_rate db id = Some row ->
        er_locked row = false -> ~ used_by_invoice db id ->
        exists db',
          deleteExchangeRate now true id db = (RateDeleted, db')
          /\ live_rate db' id = None
          /\ (forall d r, fxRows db' d = Some r -> er_id r <> id)
          /\ invoices db' = invoices db /\ billing_events db' = billing_events db)
  /\ deleteExchangeRate now false id db = (RateForbidden, db)
  /\ putExchangeRate duplicate_entry false id payload db = (RateForbidden, db).
Proof.
  unfold deleteExchangeRate, putExchangeRate, rate_in_use. cbn [negb].
  split; [intros ->; split; reflexivity|]. split; [|split; [|split; reflexivity]].
  - intros row -> Hu.
    assert (er_locked row || (0 <? getExchangeRateUsageCount db id)%nat = true) as ->.
    { apply orb_true_iff. destruct Hu as [L|U]; [left; exact L|].
      right. apply usage_count_spec. exact U. }
    split; reflexivity.
  - intros row -> L U.
    assert ((0 <? getExchangeRateUsageCount db id)%nat = false) as ->.
    { apply not_true_is_false. intros C. apply U, usage_count_spec. exact C. }
    rewrite L. cbn [orb]. eexists. split; [reflexivity|].
    assert (forall r, In r (exchange_rates
              (set_exchange_rates db
                 (map (fun r => if (er_id r =? id)%Z && is_null (er_deleted_at r)
                                then delete_rate now r else r) (exchange_rates db)))) ->
              er_id r = id -> er_deleted_at r <> None) as Gone.
    { cbn. intros r Hr E. apply in_map_iff in Hr as (r0 & E0 & _).
      destruct ((er_id r0 =? id)%Z && is_null (er_deleted_at r0)) eqn:C.
      - subst r. discriminate.
      - subst r0. rewrite E, Z.eqb_refl in C. cbn in C.
        destruct (er_deleted_at r); [discriminate | discriminate C]. }
    split; [apply live_rate_none; exact Gone|]. split; [|split; reflexivity].
    intros d r Hr E. apply fxRows_spec in Hr. destruct Hr as (Hin & (_ & _ & D & _) & _).
    apply (Gone r Hin E). exact D.
Qed.

(** A store with a second, unused rate and the invoice of the demo store. *)
Definition spare_rate : ExchangeRate :=
  mkRate 2 (mkDate 2026 2 1) "THB" "KRW" (40 # 1) rate_active false None.

Definition settings_store : Store :=
  set_exchange_rates demo_generated (exchange_rates demo_generated ++ [spare_rate]).

Lemma rate_settings_guard_demo :
  live_rate settings_store 1 = Some (mkRate 1 (mkDate 2026 1 1) "THB" "KRW" (391234 # 10000)
                                           rate_active true None)
  /\ deleteExchangeRate 0 true 1 settings_store = (RateLocked, settings_store)
  /\ live_rate settings_store 2 = Some spare_rate
  /\ ~ used_by_invoice settings_store 2
  /\ fst (deleteExchangeRate 0 true 2 settings_store) = RateDeleted
  /\ live_rate (snd (deleteExchangeRate 0 true 2 settings_store)) 2 = None
  /\ live_rate settings_store 3 = None
  /\ deleteExchangeRate 0 true 3 settings_store = (RateNotFound, settings_store).
Proof.
  pose proof (rate_settings_guard (fun _ => false) 0 1
                (mkRatePayload (mkDate 2026 1 1) 1 false rate_active) settings_store)
    as (_ & G1 & _).
  pose proof (rate_settings_guard (fun _ => false) 0 2
                (mkRatePayload (mkDate 2026 1 1) 1 false rate_active) settings_store)
    as (_ & _ & G2 & _).
  pose proof (rate_settings_guard (fun _ => false) 0 3
                (mkRatePayload (mkDate 2026 1 1) 1 false rate_active) settings_store)
    as (G3 & _).
  assert (~ used_by_invoice settings_store 2) as U.
  { intros C. apply usage_count_spec in C. vm_compute in C. discriminate C. }
  split; [vm_compute; reflexivity|].
  split; [apply (G1 _ eq_refl); left; reflexivity|].
  split; [vm_compute; reflexivity|]. split; [exact U|].
  destruct (G2 spare_rate eq_refl eq_refl U) as (db' & E & L & _).
  rewrite E. cbn [fst snd]. split; [reflexivity|]. split; [exact L|].
  split; [vm_compute; reflexivity|]. apply G3. vm_compute. reflexivity.
Defined.

(** ** A rate that generation used stays as it is *)

Definition rows_of_rate (id : Z) (db : Store) : list ExchangeRate :=
  filter (fun r => (er_id r =? id)%Z) (exchange_rates db).

Lemma rows_of_rate_map id (h : ExchangeRate -> ExchangeRate) (l : list ExchangeRate) :
  (forall r, In r l -> er_id (h r) = er_id r) ->
  (forall r, In r l -> er_id r = id -> h r = r) ->
  filter (fun r => (er_id r =? id)%Z) (map h l) = filter (fun r => (er_id r =? id)%Z) l.
Proof.
  induction l as [|x l IH]; intros Hid Hfix; simpl; [reflexivity|].
  rewrite (Hid x (or_introl eq_refl)).
  rewrite IH; [|intros r Hr; apply Hid; right; exact Hr
               |intros r Hr; apply Hfix; right; exact Hr].
  destruct (er_id x =? id)%Z eqn:E; [|reflexivity].
  apply Z.eqb_eq in E. rewrite (Hfix x (or_introl eq_refl) E). reflexivity.
Qed.

(** All rows of a rate id are locked and one of them is live. *)
Definition rate_frozen (id : Z) (db : Store) : Prop :=
  (forall r, In r (exchange_rates db) -> er_id r = id -> er_locked r = true)
  /\ exists r, In r (exchange_rates db) /\ er_id r = id /\ er_deleted_at r = None.

Lemma rows_of_rate_in id db r :
  In r (rows_of_rate id db) <-> In r (exchange_rates db) /\ er_id r = id.
Proof. unfold rows_of_rate. rewrite filter_In, Z.eqb_eq. tauto. Qed.

Lemma rate_frozen_rows id db db' :
  rows_of_rate id db' = rows_of_rate id db -> rate_frozen id db -> rate_frozen id db'.
Proof.
  intros E (L & r & Hr & Hid & D). split.
  - intros r' Hr' Hid'. apply (L r'); [|exact Hid'].
    apply (rows_of_rate_in id db r'). rewrite <- E. apply rows_of_rate_in. tauto.
  - exists r. split; [|tauto].
    apply (rows_of_rate_in id db' r). rewrite E. apply rows_of_rate_in. tauto.
Qed.

Lemma lock_rate_rows id g db :
  rate_frozen id db -> rows_of_rate id (lock_rate db g) = rows_of_rate id db.
Proof.
  intros (L & _). unfold rows_of_rate, lock_rate. cbn. apply rows_of_rate_map.
  - intros r _. destruct (er_id r =? g)%Z; reflexivity.
  - intros r Hr E. destruct (er_id r =? g)%Z; [|reflexivity].
    pose proof (L r Hr E) as Lr. destruct r; cbn in *. rewrite Lr. reflexivity.
Qed.

Lemma lock_rate_frozen db r :
  In r (exchange_rates db) -> er_deleted_at r = None ->
  rate_frozen (er_id r) (lock_rate db (er_id r)).
Proof.
  intros Hr D. unfold lock_rate; cbn. split.
  - intros r' Hr' E. apply in_map_iff in Hr' as (r0 & E0 & _).
    destruct (er_id r0 =? er_id r)%Z eqn:C; subst r'; [reflexivity|].
    apply Z.eqb_neq in C. contradiction.
  - exists (mkRate (er_id r) (er_rate_date r) (er_base_currency r) (er_quote_currency r)
                   (er_rate r) (er_status r) true (er_deleted_at r)).
    split; [|split; [reflexivity | exact D]].
    apply in_map_iff. exists r. rewrite Z.eqb_refl. split; [reflexivity | exact Hr].
Qed.

(** The live rows of a rate id are locked and there is one. *)
Definition rate_held (id : Z) (db : Store) : Prop :=
  (forall r, In r (exchange_rates db) -> er_id r = id -> er_deleted_at r = None ->
             er_locked r = true)
  /\ exists r, In r (exchange_rates db) /\ er_id r = id /\ er_deleted_at r = None.

(** What an engine operation does to table exchange_rates. *)
Lemma run_rates op db :
  exchange_rates (run op db) = exchange_rates db
  \/ exists g, exchange_rates (run op db) = exchange_rates (lock_rate db g).
Proof.
  destruct op as [now us p|id|id|id|ids]; simpl.
  - destruct (generate_outcome now us p db)
      as [->|(existing & _ & [(_ & ->)|(_ & _ & ->)])]; cbn [snd]; try (left; reflexivity).
    destruct (generation_store_frame now p db) as (Er & _).
    destruct (generate_fresh_cases us p (generation_store now p db))
      as [(_ & ->)|[(r & _ & _ & ->)|(inv & n & f & db' & H)]]; cbn [snd].
    + left. exact Er.
    + right. exists (er_id r). unfold lock_rate. cbn. rewrite Er. reflexivity.
    + rewrite H. cbn [snd]. apply generate_fresh_ok in H.
      destruct H as (fxRow & i & _ & _ & _ & _ & _ & _ & _ & _ & _ & _ & _ & _ & _ & _
                     & _ & _ & _ & Hr).
      right. exists (er_id fxRow). rewrite Hr. unfold lock_rate. cbn. rewrite Er. reflexivity.
  - destruct (issue_cases id db) as [(_ & ->)|[(row & _ & _ & ->)|(row & _ & _ & ->)]];
      left; reflexivity.
  - destruct (markPaid_cases id db) as [(_ & ->)|[(row & _ & _ & ->)|(row & _ & _ & ->)]];
      left; reflexivity.
  - destruct (duplicate_cases id db)
      as [(_ & ->)|[(row & _ & _ & ->)|(row & copy & db' & _ & _ & -> & no & _ & _ & Hr)]];
      left; try reflexivity. exact Hr.
  - left. unfold markEventsPending, withTransaction, markPending_callback.
    destruct (markPending_rows db ids); [reflexivity|].
    destruct (filter is_blocked _); reflexivity.
Qed.

Section Settings.

Variable duplicate_entry : list ExchangeRate -> bool.

(** The operations on the store: the five of the engine and the two settings
    routes. *)
Inductive SettingsOperation : Type :=
| OpEngine (op : Operation)
| OpPutRate (is_admin : bool) (id : Z) (payload : RatePayload)
| OpDeleteRate (now : Z) (is_admin : bool) (id : Z).

Definition run_settings (op : SettingsOperation) (db : Store) : Store :=
  match op with
  | OpEngine op => run op db
  | OpPutRate is_admin id payload =>
      snd (putExchangeRate duplicate_entry is_admin id payload db)
  | OpDeleteRate now is_admin id => snd (deleteExchangeRate now is_admin id db)
  end.

Definition run_settings_all (ops : list SettingsOperation) (db : Store) : Store :=
  fold_left (fun s op => run_settings op s) ops db.

Lemma held_rate_refused id db :
  rate_held id db ->
  forall now is_admin payload,
    snd (deleteExchangeRate now is_admin id db) = db
    /\ snd (putExchangeRate duplicate_entry is_admin id payload db) = db
    /\ deleteExchangeRate now true id db = (RateLocked, db)
    /\ putExchangeRate duplicate_entry true id payload db = (RateLocked, db).
Proof.
  intros (L & r & Hr & Hid & D) now is_admin payload.
  unfold deleteExchangeRate, putExchangeRate.
  destruct (live_rate db id) as [row|] eqn:Live.
  - apply live_rate_spec in Live. destruct Live as (Hrow & Erow & Drow).
    unfold rate_in_use. rewrite (L row Hrow Erow Drow). cbn [orb negb].
    destruct is_admin; repeat split; reflexivity.
  - exfalso. rewrite live_rate_none in Live. apply (Live r Hr Hid D).
Qed.

Lemma frozen_rate_refused id db :
  rate_frozen id db ->
  forall now is_admin payload,
    snd (deleteExchangeRate now is_admin id db) = db
    /\ snd (putExchangeRate duplicate_entry is_admin id payload db) = db
    /\ deleteExchangeRate now true id db = (RateLocked, db)
    /\ putExchangeRate duplicate_entry true id payload db = (RateLocked, db).
Proof.
  intros (L & E). apply held_rate_refused. split; [|exact E].
  intros r Hr Hid _. apply L; assumption.
Qed.

Lemma settings_other_rate id g (h : ExchangeRate -> ExchangeRate) db :
  g <> id -> (forall r, er_id (h r) = er_id r) ->
  filter (fun r => (er_id r =? id)%Z)
         (map (fun r => if (er_id r =? g)%Z && is_null (er_deleted_at r) then h r else r)
              (exchange_rates db))
  = rows_of_rate id db.
Proof.
  intros N Hh. apply rows_of_rate_map.
  - intros r _. destruct ((er_id r =? g)%Z && is_null (er_deleted_at r)); [apply Hh | reflexivity].
  - intros r _ E. assert ((er_id r =? g)%Z = false) as ->; [|reflexivity].
    apply Z.eqb_neq. congruence.
Qed.

Lemma run_settings_rows id op db :
  rate_frozen id db -> rows_of_rate id (run_settings op db) = rows_of_rate id db.
Proof.
  intros Fz. destruct op as [op|a g payload|now a g]; cbn [run_settings].
  - destruct (run_rates op db) as [E|(g & E)]; unfold rows_of_rate at 1; rewrite E.
    + reflexivity.
    + apply (lock_rate_rows id g db Fz).
  - destruct (Z.eq_dec g id) as [->|N].
    + destruct (frozen_rate_refused id db Fz 0%Z a payload) as (_ & -> & _). reflexivity.
    + unfold putExchangeRate. destruct (negb a); [reflexivity|].
      destruct (live_rate db g); [|reflexivity].
      destruct (rate_in_use db g e); [reflexivity|]. cbv zeta.
      destruct (duplicate_entry _); [reflexivity|].
      destruct (filter _ (exchange_rates db)); cbn [snd]; unfold rows_of_rate at 1; cbn;
        apply settings_other_rate; auto.
  - destruct (Z.eq_dec g id) as [->|N].
    + destruct (frozen_rate_refused id db Fz now a (mkRatePayload (mkDate 0 0 0) 0 false rate_draft))
        as (-> & _). reflexivity.
    + unfold deleteExchangeRate. destruct (negb a); [reflexivity|].
      destruct (live_rate db g); [|reflexivity].
      destruct (rate_in_use db g e); [reflexivity|]. cbn [snd].
      unfold rows_of_rate at 1; cbn. apply settings_other_rate; auto.
Qed.

Lemma run_settings_all_rows id ops db :
  rate_frozen id db ->
  rows_of_rate id (run_settings_all ops db) = rows_of_rate id db
  /\ rate_frozen id (run_settings_all ops db).
Proof.
  revert db. induction ops as [|op ops IH]; intros db Fz; simpl; [split; auto|].
  pose proof (run_settings_rows id op db Fz) as E.
  destruct (IH _ (rate_frozen_rows _ _ _ E Fz)) as (E' & Fz').
  split; [rewrite E'; exact E | exact Fz'].
Qed.

(** The rate a successful generation returns is frozen for good.  Whatever
    engine operations and rate updates or deletions follow it, the rows of
    that rate id stay exactly as generation left them, one of them live and
    holding the rate value the invoice froze, and every attempt of an
    administrator to update or delete the rate is answered
    EXCHANGE_RATE_LOCKED and changes nothing. *)
Theorem used_rate_is_frozen now us p db inv n f db' ops t payload :
  generateInvoice now us p db = (Returned (Ok (Fresh inv n f)), db') ->
  let s := run_settings_all ops db' in
  rows_of_rate f s = rows_of_rate f db'
  /\ (exists i r, inv = Some i /\ In r (exchange_rates s) /\ er_id r = f
                  /\ er_deleted_at r = None /\ er_locked r = true
                  /\ inv_fx_rate_thbkrw i = Fin (er_rate r))
  /\ deleteExchangeRate t true f s = (RateLocked, s)
  /\ putExchangeRate duplicate_entry true f payload s = (RateLocked, s).
Proof.
  intros H s. apply generate_reaches_fresh, generate_fresh_ok in H.
  destruct H as (fxRow & i & Hfx & -> & _ & _ & -> & _ & _ & _ & _ & _ & Hrate & _ & _ & _
                 & _ & _ & _ & Hr).
  apply fxRows_spec in Hfx. destruct Hfx as (Hin & (_ & _ & D & _) & _).
  assert (rate_frozen (er_id fxRow) db') as Fz.
  { apply (rate_frozen_rows _ (lock_rate (generation_store now p db) (er_id fxRow))).
    - unfold rows_of_rate. rewrite Hr. reflexivity.
    - apply lock_rate_frozen; assumption. }
  destruct (run_settings_all_rows (er_id fxRow) ops db' Fz) as (E & Fz'). fold s in E, Fz'.
  split; [exact E|]. split.
  - exists i, (mkRate (er_id fxRow) (er_rate_date fxRow) (er_base_currency fxRow)
                      (er_quote_currency fxRow) (er_rate fxRow) (er_status fxRow) true
                      (er_deleted_at fxRow)).
    split; [reflexivity|]. split.
    + apply (rows_of_rate_in (er_id fxRow) s). rewrite E. apply rows_of_rate_in.
      split; [|reflexivity]. rewrite Hr. unfold lock_rate; cbn.
      apply in_map_iff. exists fxRow. rewrite Z.eqb_refl. split; [reflexivity | exact Hin].
    + repeat split; try assumption.
  - destruct (frozen_rate_refused _ _ Fz' t true payload) as (_ & _ & Hd & Hp).
    split; assumption.
Qed.

(** A generation that fails for want of pending events has frozen the rate
    it looked up all the same: from then on the settings routes refuse to
    update or delete it. *)
Theorem eventless_generation_freezes_rate now us p db db' ops t payload :
  generateInvoice now us p db = (Returned (Failed NO_PENDING_EVENTS), db') ->
  let s := run_settings_all ops db' in
  exists r,
    fxRows db (invoice_date p) = Some r
    /\ invoices db' = invoices (generation_store now p db)
    /\ deleteExchangeRate t true (er_id r) s = (RateLocked, s)
    /\ putExchangeRate duplicate_entry true (er_id r) payload s = (RateLocked, s).
Proof.
  intros H s.
  destruct (generate_outcome now us p db)
    as [E|(existing & _ & [(_ & E)|(_ & _ & E)])]; rewrite E in H; try discriminate H.
  destruct (generate_fresh_cases us p (generation_store now p db))
    as [(_ & C)|[(r & Hfx & _ & C)|(inv & n & f & db1 & C)]];
    rewrite C in H; cbn [fst snd] in H; try discriminate H.
  inversion H; subst db'; clear H.
  exists r. pose proof Hfx as Hfx'. rewrite fxRows_generation_store in Hfx'.
  split; [exact Hfx'|]. split; [reflexivity|].
  apply fxRows_spec in Hfx. destruct Hfx as (Hin & (_ & _ & D & _) & _).
  pose proof (lock_rate_frozen _ r Hin D) as Fz.
  destruct (run_settings_all_rows (er_id r) ops _ Fz) as (_ & Fz'). fold s in Fz'.
  destruct (frozen_rate_refused _ _ Fz' t true payload) as (_ & _ & Hd & Hp).
  split; assumption.
Qed.

(** An update that the settings route accepts rewrites the live rows of the
    id with the date, value, status and lock of the payload; and an accepted
    update that sets the lock cannot be taken back: the route refuses every
    later update or deletion of that rate. *)
Theorem accepted_update db id payload data db' :
  putExchangeRate duplicate_entry true id payload db = (RateUpdated data, db') ->
  (exists row, live_rate db id = Some row /\ data = Some (update_rate payload row)
               /\ er_locked row = false /\ ~ used_by_invoice db id)
  /\ (forall r, In r (exchange_rates db') -> er_id r = id -> er_deleted_at r = None ->
        er_rate_date r = rp_rate_date payload /\ er_rate r = rp_rate payload
        /\ er_status r = rp_status payload /\ er_locked r = rp_locked payload)
  /\ invoices db' = invoices db
  /\ billing_events db' = billing_events db
  /\ (rp_locked payload = true ->
      forall t payload',
        deleteExchangeRate t true id db' = (RateLocked, db')
        /\ putExchangeRate duplicate_entry true id payload' db' = (RateLocked, db')).
Proof.
  unfold putExchangeRate. cbn [negb].
  destruct (live_rate db id) as [row|] eqn:Live; [|discriminate].
  destruct (rate_in_use db id row) eqn:Use; [discriminate|]. cbv zeta.
  destruct (duplicate_entry _); [discriminate|].
  unfold live_rate in Live.
  destruct (filter _ (exchange_rates db)) as [|r0 rest] eqn:M; [discriminate|].
  cbn in Live. inversion Live; subst r0; clear Live.
  intros H. inversion H; subst; clear H.
  set (h := fun r => if (er_id r =? id)%Z && is_null (er_deleted_at r)
                     then update_rate payload r else r) in *.
  assert (forall l, filter (fun r => (er_id r =? id)%Z && is_null (er_deleted_at r)) (map h l)
                    = map (update_rate payload)
                          (filter (fun r => (er_id r =? id)%Z && is_null (er_deleted_at r)) l))
    as Hf.
  { induction l as [|x l IH]; cbn [map filter]; [reflexivity|]. rewrite IH.
    assert ((er_id (h x) =? id)%Z && is_null (er_deleted_at (h x))
            = (er_id x =? id)%Z && is_null (er_deleted_at x)) as ->.
    { unfold h. destruct ((er_id x =? id)%Z && is_null (er_deleted_at x)) eqn:C;
        exact C. }
    destruct ((er_id x =? id)%Z && is_null (er_deleted_at x)) eqn:C; [|reflexivity].
    cbn [map]. f_equal. unfold h. rewrite C. reflexivity. }
  apply orb_false_iff in Use as (Lk & Us).
  assert (forall r, In r (map h (exchange_rates db)) -> er_id r = id -> er_deleted_at r = None ->
            er_rate_date r = rp_rate_date payload /\ er_rate r = rp_rate payload
            /\ er_status r = rp_status payload /\ er_locked r = rp_locked payload) as Hrows.
  { intros r Hr E D. apply in_map_iff in Hr as (r1 & E1 & _). unfold h in E1.
    destruct ((er_id r1 =? id)%Z && is_null (er_deleted_at r1)) eqn:C.
    - subst r. repeat split; reflexivity.
    - subst r1. rewrite E, D, Z.eqb_refl in C. discriminate C. }
  split; [|split; [exact Hrows|split; [reflexivity|split; [reflexivity|]]]].
  - exists row. split; [reflexivity|]. split.
    + unfold live_rate. cbn. rewrite Hf, M. reflexivity.
    + split; [exact Lk|]. intros C. apply usage_count_spec in C. congruence.
  - intros Hl t payload'.
    assert (rate_held id (set_exchange_rates db (map h (exchange_rates db)))) as Hd.
    { split.
      - cbn. intros r Hr E D. destruct (Hrows r Hr E D) as (_ & _ & _ & ->). exact Hl.
      - exists (update_rate payload row). cbn.
        assert (In (update_rate payload row)
                   (filter (fun r => (er_id r =? id)%Z && is_null (er_deleted_at r))
                           (map h (exchange_rates db)))) as Hin.
        { rewrite Hf, M. left. reflexivity. }
        apply filter_In in Hin as (Hin & C). apply andb_true_iff in C as (C1 & C2).
        apply Z.eqb_eq in C1. cbn in C1, C2.
        split; [exact Hin|]. split; [exact C1|].
        destruct (er_deleted_at row); [discriminate | reflexivity]. }
    destruct (held_rate_refused _ _ Hd t true payload') as (_ & _ & Hdel & Hput).
    split; assumption.
Qed.

End Settings.

Lemma used_rate_is_frozen_demo :
  generateInvoice 0 None demo_payload demo_store
  = (Returned (Ok (Fresh (Some demo_invoice) 2 1)), demo_generated)
  /\ deleteExchangeRate 9 true 1
       (run_settings_all (fun _ => false)
          [OpEngine (OpIssue 1); OpDeleteRate 5 true 1;
           OpPutRate true 1 (mkRatePayload (mkDate 2026 1 2) 40 false rate_draft)]
          demo_generated)
     = (RateLocked,
        run_settings_all (fun _ => false)
          [OpEngine (OpIssue 1); OpDeleteRate 5 true 1;
           OpPutRate true 1 (mkRatePayload (mkDate 2026 1 2) 40 false rate_draft)]
          demo_generated).
Proof.
  split; [exact demo_generate|].
  apply (used_rate_is_frozen (fun _ => false) 0 None demo_payload demo_store
           (Some demo_invoice) 2%nat 1
           demo_generated
           [OpEngine (OpIssue 1); OpDeleteRate 5 true 1;
            OpPutRate true 1 (mkRatePayload (mkDate 2026 1 2) 40 false rate_draft)]
           9 (mkRatePayload (mkDate 2026 1 2) 40 false rate_draft) demo_generate).
Defined.

(** On the store with one unlocked rate and no event the rate can be deleted;
    once a generation has failed there for want of events it cannot. *)
Lemma eventless_generation_freezes_rate_demo :
  fst (deleteExchangeRate 9 true 1 idle_store) = RateDeleted
  /\ fst (generateInvoice 0 None demo_payload idle_store)
     = Returned (Failed NO_PENDING_EVENTS)
  /\ deleteExchangeRate 9 true 1 (snd (generateInvoice 0 None demo_payload idle_store))
     = (RateLocked, snd (generateInvoice 0 None demo_payload idle_store)).
Proof.
  split; [vm_compute; reflexivity|]. split; [vm_compute; reflexivity|].
  assert (generateInvoice 0 None demo_payload idle_store
          = (Returned (Failed NO_PENDING_EVENTS),
             snd (generateInvoice 0 None demo_payload idle_store))) as H
    by (vm_compute; reflexivity).
  destruct (eventless_generation_freezes_rate (fun _ => false) 0 None demo_payload idle_store
              _ [] 9 (mkRatePayload (mkDate 2026 1 2) 40 false rate_draft) H)
    as (r & Hr & _ & Hd & _).
  vm_compute in Hr. inversion Hr; subst r. exact Hd.
Defined.

Lemma accepted_update_demo :
  putExchangeRate (fun _ => false) true 2
    (mkRatePayload (mkDate 2026 2 2) 41 true rate_active) settings_store
  = (RateUpdated (Some (mkRate 2 (mkDate 2026 2 2) "THB" "KRW" 41 rate_active true None)),
     snd (putExchangeRate (fun _ => false) true 2
            (mkRatePayload (mkDate 2026 2 2) 41 true rate_active) settings_store))
  /\ deleteExchangeRate 9 true 2
       (snd (putExchangeRate (fun _ => false) true 2
               (mkRatePayload (mkDate 2026 2 2) 41 true rate_active) settings_store))
     = (RateLocked,
        snd (putExchangeRate (fun _ => false) true 2
               (mkRatePayload (mkDate 2026 2 2) 41 true rate_active) settings_store)).
Proof.
  assert (putExchangeRate (fun _ => false) true 2
            (mkRatePayload (mkDate 2026 2 2) 41 true rate_active) settings_store
          = (RateUpdated (Some (mkRate 2 (mkDate 2026 2 2) "THB" "KRW" 41 rate_active true None)),
             snd (putExchangeRate (fun _ => false) true 2
                    (mkRatePayload (mkDate 2026 2 2) 41 true rate_active) settings_store))) as H
    by (vm_compute; reflexivity).
  split; [exact H|].
  destruct (accepted_update (fun _ => false) _ _ _ _ _ H) as (_ & _ & _ & _ & L).
  destruct (L eq_refl 9%Z (mkRatePayload (mkDate 2026 2 2) 41 true rate_active)) as (Hd & _).
  exact Hd.
Defined.






Definition shipping_payload : EventPayload :=
  mkEventPayload 1 "TH_SHIPPING" (mkDate 2026 1 5) (VNum (Fin 3)) THB_BASED
                 (VNum (Fin 40)) VUndefined VUndefined VUndefined.


(** Once an event of a client has been recorded with a date in a month, no
    generation for that client and month answers NO_PENDING_EVENTS. *)
Theorem created_event_is_picked_up payload db now us p :
  (1 <= d_month (ep_event_date payload) <= 12)%Z ->
  (1 <= d_day (ep_event_date payload))%Z ->
  client_id p = ep_client_id payload ->
  m_year (invoice_month p) = d_year (ep_event_date payload) ->
  m_month (invoice_month p) = d_month (ep_event_date payload) ->
  let row := fst (createBillingEvent payload db) in
  let db' := snd (createBillingEvent payload db) in
  In row (consumed p (generation_store now p db'))
  /\ fst (generateInvoice now us p db') <> Returned (Failed NO_PENDING_EVENTS).
Proof.
  intros Hm Hd Hc Hy Hmo row db'.
  assert (In row (consumed p (generation_store now p db'))) as Hin.
  { apply consumed_spec. split.
    - unfold generation_store.
      assert (In row (billing_events db')) as Hrow.
      { unfold db', row, createBillingEvent. cbn. apply in_or_app. right. left. reflexivity. }
      destruct (existingRows db' (client_id p) (invoice_month p)) as [existing|]; [|exact Hrow].
      destruct (is_draft (inv_status existing) && regenerate_draft p); [|exact Hrow].
      unfold discard_draft. cbn [billing_events set_billing_events set_invoice_items set_invoices].
      apply in_map_iff. exists row. split; [reflexivity | exact Hrow].
    - assert (date_leb (fst (monthRange (invoice_month p))) (ep_event_date payload)
              && date_ltb (ep_event_date payload) (snd (monthRange (invoice_month p))) = true)
        as R.
      { apply (monthRange_covers (invoice_month p) (ep_event_date payload) Hm Hd).
        split; symmetry; assumption. }
      apply andb_true_iff in R as (R1 & R2).
      unfold pending_event, row, createBillingEvent.
      cbn [fst be_client_id be_status be_deleted_at be_event_date is_pending is_null].
      rewrite R1, R2, <- Hc, Z.eqb_refl. reflexivity. }
  split; [exact Hin|]. intros C.
  destruct (generate_outcome now us p db')
    as [E|(existing & _ & [(_ & E)|(_ & _ & E)])]; rewrite E in C; try discriminate C.
  destruct (generate_fresh_cases us p (generation_store now p db'))
    as [(_ & F)|[(r & _ & Hnone & _)|(inv & n & f & db1 & F)]].
  - rewrite F in C. discriminate C.
  - rewrite Hnone in Hin. exact Hin.
  - rewrite F in C. discriminate C.
Qed.

Lemma created_event_is_picked_up_demo :
  fst (generateInvoice 0 None demo_payload idle_store) = Returned (Failed NO_PENDING_EVENTS)
  /\ fst (generateInvoice 0 None demo_payload (snd (createBillingEvent shipping_payload idle_store)))
     <> Returned (Failed NO_PENDING_EVENTS).
Proof.
  split; [vm_compute; reflexivity|].
  apply (created_event_is_picked_up shipping_payload idle_store 0 None demo_payload);
    try reflexivity; simpl; lia.
Defined.

(** ** Duplicating an invoice *)

(** What an item says, apart from its id, its invoice and its deletion mark. *)
Definition item_content (it : InvoiceItem) : string * string * num * num * num :=
  (it_service_code it, it_description it, it_qty it, it_unit_price_krw it, it_amount_krw it).

Lemma filter_key_row (l : list Invoice) row :
  NoDup (map inv_id l) -> In row l ->
  filter (fun i => (inv_id i =? inv_id row)%Z) l = [row].
Proof.
  induction l as [|x l IH]; simpl; intros Hn Hin; [destruct Hin|].
  inversion Hn as [|? ? Hx Hl]; subst.
  assert (forall y, In y l -> (inv_id y =? inv_id x)%Z = false) as Hother.
  { intros y Hy. apply Z.eqb_neq. intros E. apply Hx. rewrite <- E. apply in_map. exact Hy. }
  destruct Hin as [->|Hin].
  - rewrite Z.eqb_refl. f_equal.
    assert (forall m, incl m l -> filter (fun i => (inv_id i =? inv_id row)%Z) m = []) as G.
    { induction m as [|y m IHm]; intros Hm; simpl; [reflexivity|].
      rewrite (Hother y (Hm y (or_introl eq_refl))). apply IHm.
      intros z Hz. apply Hm. right. exact Hz. }
    apply G, incl_refl.
  - rewrite Z.eqb_sym, (Hother row Hin). apply IH; assumption.
Qed.

Lemma copied_items_content newId k (l : list InvoiceItem) :
  map item_content (map (copy_item newId) (number_from k l)) = map item_content l.
Proof.
  revert k. induction l as [|x l IH]; intros k; simpl; [reflexivity|].
  rewrite IH. reflexivity.
Qed.

Lemma copied_items_owned newId k (l : list InvoiceItem) :
  Forall (fun it => it_invoice_id it = newId /\ it_deleted_at it = None)
         (map (copy_item newId) (number_from k l)).
Proof.
  revert k. induction l as [|x l IH]; intros k; simpl; constructor; [split; reflexivity|].
  apply IH.
Qed.

Lemma filter_all {A} (f : A -> bool) (l : list A) :
  Forall (fun x => f x = true) l -> filter f l = l.
Proof.
  induction 1 as [|x l Hx _ IH]; simpl; [reflexivity|]. rewrite Hx, IH. reflexivity.
Qed.

Lemma filter_none {A} (f : A -> bool) (l : list A) :
  Forall (fun x => f x = false) l -> filter f l = [].
Proof.
  induction 1 as [|x l Hx _ IH]; simpl; [reflexivity|]. rewrite Hx. exact IH.
Qed.

(** A successful duplicate-admin call, on a store where invoice ids are a
    key and items point to existing invoices: the source is live and not a
    draft; one invoice row is added, a live draft under a new id and the next
    number of the client and month, with the client, month, frozen rate,
    subtotal, VAT and total of the source; its live items repeat those of the
    source, line by line, in order; the source, its items and the billing
    events are untouched. *)
Theorem duplicate_copies_the_invoice id db copy db' :
  invoice_key db ->
  items_reference_invoices db ->
  duplicateInvoiceForAdmin id db = (Returned (Ok copy), db') ->
  exists source c,
    live_invoice db id = Some source
    /\ inv_status source <> draft
    /\ copy = Some c
    /\ invoices db' = invoices db ++ [c]
    /\ inv_id c = fresh_id (map inv_id (invoices db))
    /\ inv_status c = draft
    /\ inv_deleted_at c = None
    /\ inv_invoice_no c
       = mkInvoiceNo (inv_client_id source) (inv_invoice_month source)
           (fst (resolveInvoiceSequence db (inv_client_id source) (inv_invoice_month source)))
    /\ inv_client_id c = inv_client_id source
    /\ inv_invoice_month c = inv_invoice_month source
    /\ inv_fx_rate_thbkrw c = inv_fx_rate_thbkrw source
    /\ inv_subtotal_krw c = inv_subtotal_krw source
    /\ inv_vat_krw c = inv_vat_krw source
    /\ inv_total_krw c = inv_total_krw source
    /\ map item_content (items_of db' (inv_id c)) = map item_content (items_of db id)
    /\ items_of db' id = items_of db id
    /\ billing_events db' = billing_events db.
Proof.
  intros Hkey Hfk.
  unfold duplicateInvoiceForAdmin, withTransaction, duplicate_callback.
  destruct (live_invoice db id) as [source|] eqn:Live; [|discriminate].
  destruct (is_draft (inv_status source)) eqn:S; [discriminate|].
  pose proof (resolveInvoiceSequence_frame db (inv_client_id source) (inv_invoice_month source))
    as Fr. cbv zeta in Fr.
  destruct (resolveInvoiceSequence db (inv_client_id source) (inv_invoice_month source))
    as [seq db1] eqn:Rs. cbn [snd fst] in Fr |- *.
  destruct db1 as [rates1 events1 invoices1 items1 sequences1 catalog1 flag1].
  cbn in Fr. destruct Fr as (-> & -> & -> & -> & -> & ->).
  cbn [invoices set_invoices set_invoice_items invoice_items billing_events
       exchange_rates invoice_sequences service_catalog has_invoice_date].
  apply live_invoice_in in Live. destruct Live as (Hin & Hid & Hdel).
  pose proof (filter_key_row (invoices db) source Hkey Hin) as Fk. rewrite Hid in Fk.
  rewrite Fk. cbn [number_from map].
  rewrite filter_app, filter_fresh_nil.
  set (newId := fresh_id (map inv_id (invoices db))).
  set (c := copy_invoice (has_invoice_date db)
              (mkInvoiceNo (inv_client_id source) (inv_invoice_month source) seq)
              (newId, source)).
  cbn [filter app].
  change (inv_id c) with newId. rewrite Z.eqb_refl. cbn [hd_error].
  intros H. inversion H; subst copy db'; clear H.
  exists source, c. split; [reflexivity|]. split.
  { intros C. rewrite C in S. discriminate S. }
  do 12 (split; [first [reflexivity | rewrite Rs; reflexivity]|]).
  unfold items_of. cbn [invoice_items set_invoice_items set_invoices billing_events].
  change (inv_id c) with newId. rewrite !filter_app.
  assert (filter (fun it => (it_invoice_id it =? newId)%Z && is_null (it_deleted_at it))
                 (invoice_items db) = []) as ->.
  { apply filter_none, Forall_forall. intros it Hit.
    assert ((it_invoice_id it =? newId)%Z = false) as ->; [|reflexivity].
    apply Z.eqb_neq. pose proof (fresh_id_gt _ _ (Hfk it Hit)). unfold newId. lia. }
  split; [|split; [|reflexivity]].
  - cbn [app]. rewrite (filter_all _ (map (copy_item newId) _)).
    + apply copied_items_content.
    + eapply Forall_impl; [|apply copied_items_owned].
      intros it (-> & ->). rewrite Z.eqb_refl. reflexivity.
  - rewrite (filter_none _ (map (copy_item newId) _)); [apply app_nil_r|].
    eapply Forall_impl; [|apply copied_items_owned].
    intros it (-> & _).
    assert ((newId =? id)%Z = false) as ->; [|reflexivity].
    apply Z.eqb_neq. pose proof (fresh_id_gt _ _ (in_map inv_id _ _ Hin)).
    unfold newId. lia.
Qed.

Lemma demo_issued_key : invoice_key demo_issued.
Proof. unfold invoice_key. vm_compute. repeat constructor. simpl. tauto. Qed.

Lemma demo_issued_items : items_reference_invoices demo_issued.
Proof.
  intros it Hit. vm_compute in Hit. vm_compute.
  destruct Hit as [<-|[<-|[<-|[]]]]; left; reflexivity.
Qed.

Lemma duplicate_copies_the_invoice_demo :
  invoice_key demo_issued
  /\ items_reference_invoices demo_issued
  /\ fst (duplicateInvoiceForAdmin 1 demo_issued)
     = Returned (Ok (hd_error (filter (fun i => (inv_id i =? 2)%Z) (invoices demo_copied))))
  /\ map item_content (items_of demo_copied 2) = map item_content (items_of demo_issued 1).
Proof.
  split; [exact demo_issued_key|]. split; [exact demo_issued_items|].
  assert (duplicateInvoiceForAdmin 1 demo_issued
          = (Returned (Ok (hd_error (filter (fun i => (inv_id i =? 2)%Z)
                                            (invoices demo_copied)))), demo_copied)) as H
    by (vm_compute; reflexivity).
  split; [rewrite H; reflexivity|].
  destruct (duplicate_copies_the_invoice 1 demo_issued _ _ demo_issued_key demo_issued_items H)
    as (source & c & _ & _ & Hc & _ & Hid & _ & _ & _ & _ & _ & _ & _ & _ & _ & Hitems & _).
  assert (inv_id c = 2%Z) as E by (rewrite Hid; vm_compute; reflexivity).
  rewrite E in Hitems. exact Hitems.
Defined.

(** ** An invoice that left draft stays as it is *)

Lemma filter_map_fixed {A} (P : A -> bool) (h : A -> A) (l : list A) :
  (forall r, In r l -> P r = true -> h r = r) ->
  (forall r, In r l -> P r = false -> P (h r) = false) ->
  filter P (map h l) = filter P l.
Proof.
  induction l as [|x l IH]; intros Hfix Hout; simpl; [reflexivity|].
  rewrite IH; [|intros r Hr; apply Hfix; right; exact Hr
               |intros r Hr; apply Hout; right; exact Hr].
  destruct (P x) eqn:Px.
  - rewrite (Hfix x (or_introl eq_refl) Px), Px. reflexivity.
  - rewrite (Hout x (or_introl eq_refl) Px). reflexivity.
Qed.

Lemma filter_app_none {A} (P : A -> bool) (l added : list A) :
  Forall (fun x => P x = false) added -> filter P (l ++ added) = filter P l.
Proof.
  intros H. rewrite filter_app, (filter_none P added H). apply app_nil_r.
Qed.

(** The three predicates by which an invoice is read. *)
Definition invoice_is (id : Z) (i : Invoice) : bool :=
  (inv_id i =? id)%Z && is_null (inv_deleted_at i).

Definition item_of (id : Z) (it : InvoiceItem) : bool :=
  (it_invoice_id it =? id)%Z && is_null (it_deleted_at it).

Definition event_of (id : Z) (e : BillingEvent) : bool :=
  opt_id_eqb (be_invoice_id e) id && is_null (be_deleted_at e).

(** What is kept of an invoice [row] with items and events: a store holds it
    sealed when the live row of the id is [row] up to a status other than
    draft, and its live items and linked events are the given ones. *)
Definition sealed (id : Z) (row : Invoice) (items : list InvoiceItem)
    (events : list BillingEvent) (db : Store) : Prop :=
  invoice_key db
  /\ NoDup (map be_id (billing_events db))
  /\ (exists st, st <> draft /\ live_invoice db id = Some (set_status st row))
  /\ items_of db id = items
  /\ linked_events db id = events.

Lemma sealed_tables id row items events db db' :
  invoice_key db' ->
  map be_id (billing_events db') = map be_id (billing_events db) ->
  filter (invoice_is id) (invoices db') = filter (invoice_is id) (invoices db) ->
  filter (item_of id) (invoice_items db') = filter (item_of id) (invoice_items db) ->
  filter (event_of id) (billing_events db') = filter (event_of id) (billing_events db) ->
  sealed id row items events db -> sealed id row items events db'.
Proof.
  intros K Eid Ei Eit Eev (_ & Hn & (st & Hst & Hl) & Hit & Hev).
  split; [exact K|]. split; [rewrite Eid; exact Hn|]. split; [|split].
  - exists st. split; [exact Hst|]. unfold live_invoice in *.
    change (fun i => (inv_id i =? id)%Z && is_null (inv_deleted_at i)) with (invoice_is id) in *.
    rewrite Ei. exact Hl.
  - unfold items_of in *.
    change (fun it => (it_invoice_id it =? id)%Z && is_null (it_deleted_at it))
      with (item_of id) in *.
    rewrite Eit. exact Hit.
  - unfold linked_events in *.
    change (fun e => opt_id_eqb (be_invoice_id e) id && is_null (be_deleted_at e))
      with (event_of id) in *.
    rewrite Eev. exact Hev.
Qed.

Lemma sealed_row id row items events db :
  sealed id row items events db ->
  In id (map inv_id (invoices db))
  /\ forall i, In i (invoices db) -> inv_id i = id -> inv_deleted_at i = None ->
               inv_status i <> draft.
Proof.
  intros (K & _ & (st & Hst & Hl) & _).
  apply live_invoice_in in Hl. destruct Hl as (Hin & Hid & _). split.
  - rewrite <- Hid at 1. apply in_map. exact Hin.
  - intros i Hi Ei _.
    assert (i = set_status st row) as ->.
    { apply (NoDup_map_inj_in inv_id (invoices db)); try assumption. congruence. }
    exact Hst.
Qed.

(** Taking a draft apart leaves a sealed invoice alone. *)
Lemma discard_draft_sealed now id row items events db existing :
  In existing (invoices db) -> inv_deleted_at existing = None ->
  inv_status existing = draft ->
  sealed id row items events db ->
  sealed id row items events (discard_draft now db (inv_id existing)).
Proof.
  intros Hin Hdel Hdraft Hs.
  destruct (sealed_row _ _ _ _ _ Hs) as (_ & Hnd).
  assert (inv_id existing <> id) as Hne.
  { intros E. apply (Hnd existing Hin E Hdel). exact Hdraft. }
  destruct (discard_draft_frame now db (inv_id existing)) as (_ & Eid & Einv & _).
  apply (sealed_tables id row items events db); try exact Hs.
  - unfold invoice_key. rewrite Einv. apply Hs.
  - exact Eid.
  - unfold discard_draft; cbn. apply filter_map_fixed.
    + intros r _ P. apply andb_true_iff in P as (P & _). apply Z.eqb_eq in P.
      assert ((inv_id r =? inv_id existing)%Z = false) as ->; [|reflexivity].
      apply Z.eqb_neq. congruence.
    + intros r _ P. destruct (inv_id r =? inv_id existing)%Z eqn:E; [|exact P].
      unfold invoice_is. cbn. apply Z.eqb_eq in E. rewrite E.
      assert ((inv_id existing =? id)%Z = false) as ->; [|reflexivity].
      apply Z.eqb_neq. exact Hne.
  - unfold discard_draft; cbn. apply filter_map_fixed.
    + intros r _ P. apply andb_true_iff in P as (P & _). apply Z.eqb_eq in P.
      assert ((it_invoice_id r =? inv_id existing)%Z = false) as ->; [|reflexivity].
      apply Z.eqb_neq. congruence.
    + intros r _ P.
      destruct ((it_invoice_id r =? inv_id existing)%Z && is_null (it_deleted_at r)) eqn:E;
        [|exact P].
      apply andb_true_iff in E as (E & _). apply Z.eqb_eq in E.
      unfold item_of. cbn. rewrite E.
      assert ((inv_id existing =? id)%Z = false) as ->; [|reflexivity].
      apply Z.eqb_neq. exact Hne.
  - unfold discard_draft; cbn. apply filter_map_fixed.
    + intros r _ P. apply andb_true_iff in P as (P & _). apply opt_id_eqb_spec in P.
      rewrite P. cbn.
      assert ((id =? inv_id existing)%Z = false) as ->; [|reflexivity].
      apply Z.eqb_neq. congruence.
    + intros r _ P.
      destruct (opt_id_eqb (be_invoice_id r) (inv_id existing) && is_null (be_deleted_at r));
        [reflexivity | exact P].
Qed.

Lemma generation_store_sealed now p id row items events db :
  sealed id row items events db -> sealed id row items events (generation_store now p db).
Proof.
  intros Hs. unfold generation_store.
  destruct (existingRows db (client_id p) (invoice_month p)) as [existing|] eqn:Ex;
    [|exact Hs].
  destruct (is_draft (inv_status existing)) eqn:D; [|exact Hs].
  destruct (regenerate_draft p); [|exact Hs]. cbn [andb].
  apply existingRows_spec in Ex. destruct Ex as (Hin & (_ & _ & Hdel) & _).
  apply discard_draft_sealed; try assumption.
  destruct (inv_status existing); [reflexivity | discriminate D | discriminate D].
Qed.

Lemma fresh_not_sealed id row items events db :
  sealed id row items events db -> (id <? fresh_id (map inv_id (invoices db)))%Z = true.
Proof.
  intros Hs. destruct (sealed_row _ _ _ _ _ Hs) as (Hin & _).
  apply Z.ltb_lt. apply fresh_id_gt. exact Hin.
Qed.

(** Generation proper leaves a sealed invoice alone, its events being
    INVOICED. *)
Lemma generate_fresh_sealed us p id row items events db0 :
  Forall (fun e => be_status e = INVOICED) events ->
  sealed id row items events db0 ->
  sealed id row items events (snd (generate_fresh us p db0)).
Proof.
  intros Hinv Hs.
  pose proof (fresh_not_sealed _ _ _ _ _ Hs) as Hlt. apply Z.ltb_lt in Hlt.
  destruct (generate_fresh_cases us p db0)
    as [(_ & ->)|[(r & _ & _ & ->)|(inv & n & f & db' & H)]]; cbn [snd].
  - exact Hs.
  - apply (sealed_tables id row items events db0); try exact Hs; try reflexivity.
    apply Hs.
  - rewrite H. cbn [snd]. pose proof H as H'. apply generate_fresh_ok in H'.
    destruct H' as (fxRow & i & Hfx & _ & _ & _ & _ & Hid & _ & _ & _ & _ & _ & _ & _ & _
                    & Hinvs & Hev & Hit & _).
    destruct Hs as (K & Hn & Hrow & Hitems & Hevents).
    assert (billing_events db'
            = map (fun r => if mem_id (be_id r) (map be_id (consumed p db0))
                            then stamped (gen_rate p db0) (new_invoice_id db0) r else r)
                  (billing_events db0)) as Htable.
    { rewrite Hev. unfold gen_events.
      apply consume_events_table;
        [exact Hn | apply consumed_NoDup; exact Hn
         | intros x Hx; apply consumed_spec in Hx; tauto]. }
    destruct (generated_items p db0) as (lines & Eg & F).
    rewrite Eg in Hit. cbn [snd] in Hit.
    apply (sealed_tables id row items events db0);
      [| | | | |repeat split; assumption].
    + pose proof (generate_fresh_ranks us p db0) as (_ & K'). rewrite H in K'. apply K', K.
    + rewrite Htable, map_map. apply map_ext. intros r.
      destruct (mem_id (be_id r) (map be_id (consumed p db0))); reflexivity.
    + rewrite Hinvs. apply filter_app_none. constructor; [|constructor].
      unfold invoice_is. rewrite Hid.
      assert ((new_invoice_id db0 =? id)%Z = false) as ->; [|reflexivity].
      apply Z.eqb_neq. unfold new_invoice_id. lia.
    + rewrite Hit, <- app_assoc. apply filter_app_none. apply Forall_app. split.
      * pose proof (line_ok_owned _ _ _ F) as O.
        eapply Forall_impl; [|exact O]. intros it (E & _). unfold item_of. rewrite E.
        assert ((new_invoice_id db0 =? id)%Z = false) as ->; [|reflexivity].
        apply Z.eqb_neq. unfold new_invoice_id. lia.
      * constructor; [|constructor]. unfold item_of.
        cbn [vat_item it_invoice_id it_deleted_at is_null].
        assert ((new_invoice_id db0 =? id)%Z = false) as ->; [|reflexivity].
        apply Z.eqb_neq. unfold new_invoice_id. lia.
    + rewrite Htable.
      assert (forall r, In r (billing_events db0) ->
                mem_id (be_id r) (map be_id (consumed p db0)) = true ->
                event_of id r = false) as Hpending.
      { intros r Hr M. apply not_true_is_false. intros P.
        assert (In r (linked_events db0 id)) as Hl by (apply filter_In; split; assumption).
        rewrite Hevents in Hl. rewrite Forall_forall in Hinv. pose proof (Hinv r Hl) as St.
        apply mem_id_In, in_map_iff in M as (e & E & He).
        assert (In e (billing_events db0)) as Hin by (apply consumed_spec in He; tauto).
        assert (e = r) by (apply (NoDup_map_inj_in be_id (billing_events db0)); assumption).
        subst e. apply consumed_spec in He. destruct He as (_ & Pe).
        unfold pending_event in Pe. rewrite St in Pe. cbn in Pe.
        rewrite andb_false_r in Pe. discriminate Pe. }
      apply filter_map_fixed.
      * intros r Hr P.
        destruct (mem_id (be_id r) (map be_id (consumed p db0))) eqn:M; [|reflexivity].
        rewrite (Hpending r Hr M) in P. discriminate P.
      * intros r Hr P.
        destruct (mem_id (be_id r) (map be_id (consumed p db0))); [|exact P].
        unfold event_of.
        cbn [stamped invoice_event be_invoice_id be_deleted_at opt_id_eqb].
        assert ((new_invoice_id db0 =? id)%Z = false) as ->; [|reflexivity].
        apply Z.eqb_neq. unfold new_invoice_id. lia.
Qed.

Lemma update_status_sealed id row items events db id2 st2 row2 :
  live_invoice db id2 = Some row2 ->
  (id2 = id -> st2 <> draft) ->
  sealed id row items events db ->
  sealed id row items events (update_status db id2 st2).
Proof.
  intros L2 Hst (K & Hn & (st & Hne & Hl) & Hit & Hev).
  split.
  { unfold invoice_key, update_status. cbn. rewrite map_map.
    erewrite map_ext; [exact K|]. intros i. destruct (inv_id i =? id2)%Z; reflexivity. }
  split; [exact Hn|]. split; [|split; assumption].
  destruct (Z.eq_dec id2 id) as [->|N].
  - exists st2. split; [apply Hst; reflexivity|].
    unfold live_invoice, update_status in *. cbn.
    rewrite (live_after_update _ id st2 _ Hl). reflexivity.
  - exists st. split; [exact Hne|]. unfold live_invoice, update_status in *. cbn.
    change (fun i => (inv_id i =? id)%Z && is_null (inv_deleted_at i)) with (invoice_is id) in *.
    rewrite filter_map_fixed; [exact Hl| |].
    + intros r _ P. apply andb_true_iff in P as (P & _). apply Z.eqb_eq in P.
      assert ((inv_id r =? id2)%Z = false) as ->; [|reflexivity].
      apply Z.eqb_neq. congruence.
    + intros r _ P. destruct (inv_id r =? id2)%Z; exact P.
Qed.

(** What duplication appends to invoice_items. *)
Lemma duplicate_items id2 db :
  exists added,
    invoice_items (snd (duplicateInvoiceForAdmin id2 db)) = invoice_items db ++ added
    /\ Forall (fun it => it_invoice_id it = fresh_id (map inv_id (invoices db))) added.
Proof.
  unfold duplicateInvoiceForAdmin, withTransaction, duplicate_callback.
  destruct (live_invoice db id2) as [source|];
    [|exists []; split; [symmetry; apply app_nil_r | constructor]].
  destruct (is_draft (inv_status source));
    [exists []; split; [symmetry; apply app_nil_r | constructor]|].
  pose proof (resolveInvoiceSequence_frame db (inv_client_id source) (inv_invoice_month source))
    as Fr. cbv zeta in Fr.
  destruct (resolveInvoiceSequence db (inv_client_id source) (inv_invoice_month source))
    as [seq db1]. cbn [snd] in Fr |- *.
  destruct db1 as [rates1 events1 invoices1 items1 sequences1 catalog1 flag1].
  cbn in Fr. destruct Fr as (-> & -> & -> & -> & -> & ->).
  cbn [invoices set_invoices set_invoice_items invoice_items].
  eexists. split; [reflexivity|].
  eapply Forall_impl; [|apply copied_items_owned]. intros it (E & _). exact E.
Qed.

(** Each operation of the engine leaves a sealed invoice alone. *)
Lemma run_sealed op id row items events db :
  Forall (fun e => be_status e = INVOICED) events ->
  sealed id row items events db -> sealed id row items events (run op db).
Proof.
  intros Hinv Hs. pose proof (fresh_not_sealed _ _ _ _ _ Hs) as Hlt. apply Z.ltb_lt in Hlt.
  destruct op as [now us p|id2|id2|id2|ids]; cbn [run].
  - destruct (generate_outcome now us p db)
      as [->|(existing & _ & [(_ & ->)|(_ & _ & ->)])]; cbn [snd]; try exact Hs.
    apply generate_fresh_sealed; [exact Hinv|]. apply generation_store_sealed. exact Hs.
  - destruct (issue_cases id2 db) as [(_ & ->)|[(r & _ & _ & ->)|(r & Hl & Hst & ->)]];
      cbn [snd]; try exact Hs.
    apply (update_status_sealed _ _ _ _ _ _ _ r Hl); [discriminate | exact Hs].
  - destruct (markPaid_cases id2 db) as [(_ & ->)|[(r & _ & _ & ->)|(r & Hl & Hst & ->)]];
      cbn [snd]; try exact Hs.
    apply (update_status_sealed _ _ _ _ _ _ _ r Hl); [discriminate | exact Hs].
  - destruct (duplicate_items id2 db) as (added & Eit & Hadded).
    pose proof (run_ranks (OpDuplicate id2) db (proj1 Hs)) as (_ & K'). cbn [run] in K'.
    destruct (duplicate_cases id2 db)
      as [(_ & E)|[(r & _ & _ & E)|(r & copy & db' & _ & _ & E & no & Hi & He & _)]];
      rewrite E in *; cbn [snd] in *; try exact Hs.
    apply (sealed_tables id row items events db); try exact Hs; try exact K'.
    + rewrite He. reflexivity.
    + rewrite Hi. apply filter_app_none, Forall_forall. intros c Hc.
      apply in_map_iff in Hc as ([k i] & <- & Hk).
      destruct (number_from_ids (filter (fun i => (inv_id i =? id2)%Z) (invoices db))
                  (fresh_id (map inv_id (invoices db)))) as (_ & Hge).
      pose proof (Hge k (in_map fst _ _ Hk)) as G. unfold invoice_is. cbn.
      assert ((k =? id)%Z = false) as ->; [|reflexivity]. apply Z.eqb_neq. lia.
    + rewrite Eit. apply filter_app_none. eapply Forall_impl; [|exact Hadded].
      intros it E'. unfold item_of. rewrite E'.
      assert ((fresh_id (map inv_id (invoices db)) =? id)%Z = false) as ->; [|reflexivity].
      apply Z.eqb_neq. lia.
    + rewrite He. reflexivity.
  - destruct (markPending_cases ids db) as [(_ & ->)|[(_ & _ & ->)|(_ & Hfree & ->)]];
      cbn [snd]; try exact Hs.
    apply (sealed_tables id row items events db); try exact Hs.
    + apply Hs.
    + cbn. rewrite map_map. apply map_ext. intros e. destruct (targeted ids e); reflexivity.
    + reflexivity.
    + reflexivity.
    + cbn. apply filter_map_fixed.
      * intros e He P. destruct (targeted ids e) eqn:T; [|reflexivity]. exfalso.
        assert (filter is_blocked (markPending_rows db ids) <> []) as C; [|contradiction].
        apply markPending_rows_blocked. exists e. split; [exact He|]. split; [exact T|].
        destruct Hs as (_ & _ & (st & Hne & Hl) & _).
        apply live_invoice_in in Hl. destruct Hl as (Hin & Hid & Hdel).
        exists (set_status st row). split; [exact Hin|].
        apply andb_true_iff in P as (P & _). apply opt_id_eqb_spec in P.
        split; [rewrite Hid; exact P|]. split; [exact Hdel|].
        cbn. destruct st; [contradiction | left; reflexivity | right; reflexivity].
      * intros e _ P. destruct (targeted ids e); [reflexivity | exact P].
Qed.

Lemma run_all_sealed ops id row items events db :
  Forall (fun e => be_status e = INVOICED) events ->
  sealed id row items events db -> sealed id row items events (run_all ops db).
Proof.
  intros Hinv. revert db. induction ops as [|op ops IH]; intros db Hs; simpl; [exact Hs|].
  apply IH. apply run_sealed; assumption.
Qed.

Lemma set_status_same (i : Invoice) : set_status (inv_status i) i = i.
Proof. destruct i; reflexivity. Qed.

(** Once an invoice has left draft, no sequence of the five operations of the
    engine changes it.  On a store where invoice ids and event ids are keys
    and the events linked to the invoice are INVOICED: the invoice stays
    live, with every column but status as it was and a status other than
    draft; its live items stay the same rows; the live events linked to it
    stay the same rows. *)
Theorem finalized_invoice_is_immutable id db row ops :
  invoice_key db ->
  NoDup (map be_id (billing_events db)) ->
  live_invoice db id = Some row ->
  inv_status row <> draft ->
  (forall e, In e (linked_events db id) -> be_status e = INVOICED) ->
  (exists st, st <> draft /\ live_invoice (run_all ops db) id = Some (set_status st row))
  /\ items_of (run_all ops db) id = items_of db id
  /\ linked_events (run_all ops db) id = linked_events db id.
Proof.
  intros K Hn Hl Hst Hinv.
  assert (sealed id row (items_of db id) (linked_events db id) db) as Hs.
  { split; [exact K|]. split; [exact Hn|]. split; [|split; reflexivity].
    exists (inv_status row). split; [exact Hst|]. rewrite set_status_same. exact Hl. }
  apply (run_all_sealed ops) in Hs; [|apply Forall_forall; exact Hinv].
  destruct Hs as (_ & _ & Hrow & Hit & Hev). auto.
Qed.

Lemma demo_issued_events : NoDup (map be_id (billing_events demo_issued)).
Proof. vm_compute. repeat constructor; simpl; intuition discriminate. Qed.

(** The issued demo invoice through a regeneration request, an attempt to
    revert its events, a duplication and its payment. *)
Lemma finalized_invoice_is_immutable_demo :
  invoice_key demo_issued
  /\ NoDup (map be_id (billing_events demo_issued))
  /\ live_invoice demo_issued 1 = Some (set_status issued demo_invoice)
  /\ live_invoice
       (run_all [OpGenerate 7 None (mkPayload 1 (mkMonth 2026 1) (mkDate 2026 1 31) true None);
                 OpMarkPending [1%Z; 2%Z]; OpDuplicate 1; OpMarkPaid 1] demo_issued) 1
     = Some (set_status paid demo_invoice)
  /\ items_of
       (run_all [OpGenerate 7 None (mkPayload 1 (mkMonth 2026 1) (mkDate 2026 1 31) true None);
                 OpMarkPending [1%Z; 2%Z]; OpDuplicate 1; OpMarkPaid 1] demo_issued) 1
     = items_of demo_issued 1
  /\ linked_events
       (run_all [OpGenerate 7 None (mkPayload 1 (mkMonth 2026 1) (mkDate 2026 1 31) true None);
                 OpMarkPending [1%Z; 2%Z]; OpDuplicate 1; OpMarkPaid 1] demo_issued) 1
     = linked_events demo_issued 1.
Proof.
  assert (live_invoice demo_issued 1 = Some (set_status issued demo_invoice)) as L
    by (vm_compute; reflexivity).
  split; [exact demo_issued_key|]. split; [exact demo_issued_events|]. split; [exact L|].
  split; [vm_compute; reflexivity|].
  destruct (finalized_invoice_is_immutable 1 demo_issued (set_status issued demo_invoice)
              [OpGenerate 7 None (mkPayload 1 (mkMonth 2026 1) (mkDate 2026 1 31) true None);
               OpMarkPending [1%Z; 2%Z]; OpDuplicate 1; OpMarkPaid 1]
              demo_issued_key demo_issued_events L) as (_ & Hit & Hev).
  - discriminate.
  - intros e He. vm_compute in He. destruct He as [<-|[<-|[]]]; reflexivity.
  - split; assumption.
Defined.

(** ** Regenerating a draft *)

Lemma filter_map_comm {A} (P : A -> bool) (h : A -> A) (l : list A) :
  (forall x, In x l -> P (h x) = P x) -> filter P (map h l) = map h (filter P l).
Proof.
  induction l as [|x l IH]; intros H; simpl; [reflexivity|].
  rewrite (H x (or_introl eq_refl)), IH; [|intros y Hy; apply H; right; exact Hy].
  destruct (P x); reflexivity.
Qed.

Lemma insert_by_id_map {A} (id : A -> Z) (h : A -> A) x (l : list A) :
  (forall y, id (h y) = id y) ->
  insert_by_id id (h x) (map h l) = map h (insert_by_id id x l).
Proof.
  intros H. induction l as [|y l IH]; simpl; [reflexivity|].
  rewrite !H. destruct (id x <=? id y)%Z; simpl; [reflexivity|]. rewrite IH. reflexivity.
Qed.

Lemma order_by_id_map {A} (id : A -> Z) (h : A -> A) (l : list A) :
  (forall y, id (h y) = id y) ->
  order_by_id id (map h l) = map h (order_by_id id l).
Proof.
  intros H. unfold order_by_id. induction l as [|x l IH]; simpl; [reflexivity|].
  rewrite IH. apply insert_by_id_map. exact H.
Qed.

Lemma first_by_map {A} (before : A -> A -> bool) (h : A -> A) (l : list A) :
  (forall a b, before (h a) (h b) = before a b) ->
  first_by before (map h l) = option_map h (first_by before l).
Proof.
  intros H. induction l as [|x l IH]; simpl; [reflexivity|].
  rewrite IH. destruct (first_by before l) as [y|]; simpl; [|reflexivity].
  rewrite H. destruct (before y x); reflexivity.
Qed.

(** Locking a rate does not change which rate a date selects. *)
Definition locked_row (r : ExchangeRate) : ExchangeRate :=
  mkRate (er_id r) (er_rate_date r) (er_base_currency r) (er_quote_currency r)
         (er_rate r) (er_status r) true (er_deleted_at r).

Lemma fxRows_lock_rate db g d :
  fxRows (lock_rate db g) d
  = option_map (fun r => if (er_id r =? g)%Z then locked_row r else r) (fxRows db d).
Proof.
  unfold fxRows, lock_rate. cbn [exchange_rates set_exchange_rates].
  change (fun r => if (er_id r =? g)%Z
                   then mkRate (er_id r) (er_rate_date r) (er_base_currency r)
                               (er_quote_currency r) (er_rate r) (er_status r) true
                               (er_deleted_at r)
                   else r)
    with (fun r => if (er_id r =? g)%Z then locked_row r else r).
  rewrite filter_map_comm.
  - apply first_by_map. intros a b.
    destruct (er_id a =? g)%Z, (er_id b =? g)%Z; reflexivity.
  - intros r _. destruct (er_id r =? g)%Z; reflexivity.
Qed.

(** Generation leaves the service catalogue alone. *)
Lemma generate_fresh_catalog us p db0 :
  service_catalog (snd (generate_fresh us p db0)) = service_catalog db0.
Proof.
  unfold generate_fresh.
  destruct (monthRange (invoice_month p)) as [from to].
  destruct (fxRows db0 (invoice_date p)) as [fxRow|]; [|reflexivity].
  destruct (pendingEvents _ _ _ _) as [|e0 events]; [reflexivity|].
  pose proof (resolveInvoiceSequence_frame (lock_rate db0 (er_id fxRow)) (client_id p)
                (invoice_month p)) as Fr.
  destruct (resolveInvoiceSequence _ _ _) as [nextSeq db2].
  cbv zeta in Fr. cbn [snd] in Fr. destruct Fr as (_ & _ & _ & _ & Fc & _).
  destruct (consume_events _ _ _ _) as [table grouped].
  destruct (emit_items _ _ _ _) as [acc items].
  destruct (totals acc) as [[sub vat] tot]. cbn. exact Fc.
Qed.

(** The row of an event that was invoiced and reverted is invoiced again for
    the same amount. *)
Lemma normalizedAmount_restamped fx id e :
  normalizedAmount fx (revert_event (stamped fx id e)) = normalizedAmount fx e.
Proof.
  unfold normalizedAmount at 1.
  cbn [revert_event stamped invoice_event be_pricing_policy be_amount_thb be_unit_price_thb
       be_qty be_amount_krw be_unit_price_krw present Number].
  destruct (be_pricing_policy e) eqn:P.
  - unfold normalizedAmount. rewrite P. reflexivity.
  - destruct (normalizedAmount_hundreds fx e) as (k & ->). apply trunc100_idem.
Qed.

Lemma accumulate_restamped fx id (events : list BillingEvent) g :
  fold_left (fun g e => accumulate g e (normalizedAmount fx e))
            (map (fun e => revert_event (stamped fx id e)) events) g
  = fold_left (fun g e => accumulate g e (normalizedAmount fx e)) events g.
Proof.
  revert g. induction events as [|e events IH]; intros g; simpl; [reflexivity|].
  rewrite IH, normalizedAmount_restamped. reflexivity.
Qed.

(** The accumulated subtotal depends on the groups alone. *)
Lemma emit_items_fst names id (g : Grouped) acc table :
  fst (fold_left (emit_item names id) g (acc, table))
  = fold_left (fun a en => nadd a (trunc100 (VNum (agg_amount_krw (snd en))))) g acc.
Proof.
  revert acc table. induction g as [|en g IH]; intros acc table; simpl; [reflexivity|].
  unfold emit_item at 2. cbn [fst snd]. apply IH.
Qed.

Lemma line_of_content names id1 id2 g l1 l2 :
  Forall2 (line_of names id1) g l1 -> Forall2 (line_of names id2) g l2 ->
  map item_content l1 = map item_content l2.
Proof.
  intros F1. revert l2. induction F1 as [|en it g l1 H1 _ IH]; intros l2 F2;
    inversion F2 as [|? it2 ? l2' H2 F2']; subst; simpl; [reflexivity|].
  rewrite (IH _ F2'). f_equal.
  destruct H1 as ((_ & _ & C1 & Q1 & A1 & _) & D1 & U1).
  destruct H2 as ((_ & _ & C2 & Q2 & A2 & _) & D2 & U2).
  unfold item_content. rewrite U1, U2, C1, C2, D1, D2, Q1, Q2, A1, A2. reflexivity.
Qed.

(** The rows generation selects, as a predicate on the table. *)
Definition selected (p : GeneratePayload) (db0 : Store) (r : BillingEvent) : bool :=
  mem_id (be_id r) (map be_id (consumed p db0)).

Lemma selected_spec p db0 r :
  NoDup (map be_id (billing_events db0)) -> In r (billing_events db0) ->
  selected p db0 r = true <-> In r (consumed p db0).
Proof.
  intros Hkey Hr. unfold selected. rewrite mem_id_In. split.
  - intros M. apply in_map_iff in M as (e & E & He).
    assert (In e (billing_events db0)) as Hin by (apply consumed_spec in He; tauto).
    assert (e = r) by (apply (NoDup_map_inj_in be_id (billing_events db0)); assumption).
    subst e. exact He.
  - apply in_map.
Qed.

(** The event table and the events of the new invoice after a successful
    generation, event ids being a key and event links pointing to existing
    invoices. *)
Lemma generate_fresh_linked us p db0 inv n f db' :
  NoDup (map be_id (billing_events db0)) ->
  events_reference_invoices db0 ->
  generate_fresh us p db0 = (Ok (Fresh inv n f), db') ->
  billing_events db'
  = map (fun r => if selected p db0 r
                  then stamped (gen_rate p db0) (new_invoice_id db0) r else r)
        (billing_events db0)
  /\ linked_events db' (new_invoice_id db0)
     = map (stamped (gen_rate p db0) (new_invoice_id db0))
           (filter (selected p db0) (billing_events db0)).
Proof.
  intros Hkey Hfk H. apply generate_fresh_ok in H.
  destruct H as (fxRow & i & _ & _ & _ & _ & _ & _ & _ & _ & _ & _ & _ & _ & _ & _ & _
                 & Hev & _).
  assert (billing_events db'
          = map (fun r => if selected p db0 r
                          then stamped (gen_rate p db0) (new_invoice_id db0) r else r)
                (billing_events db0)) as Htable.
  { rewrite Hev. unfold gen_events.
    apply consume_events_table;
      [exact Hkey | apply consumed_NoDup; exact Hkey
       | intros x Hx; apply consumed_spec in Hx; tauto]. }
  split; [exact Htable|]. unfold linked_events. rewrite Htable. apply filter_map_split.
  - intros r Hr S. apply (selected_spec p db0 r Hkey Hr) in S.
    apply consumed_spec in S. destruct S as (_ & P).
    unfold pending_event in P. rewrite !andb_true_iff in P.
    destruct P as ((((_ & _) & D) & _) & _). cbn. rewrite Z.eqb_refl. exact D.
  - intros r Hr _. destruct (be_invoice_id r) as [k|] eqn:K; [|reflexivity].
    cbn [opt_id_eqb]. assert ((k =? new_invoice_id db0)%Z = false) as ->; [|reflexivity].
    apply Z.eqb_neq. unfold new_invoice_id.
    pose proof (fresh_id_gt _ _ (Hfk r k Hr K)). lia.
Qed.

(** The event table once the new draft is taken apart again. *)
Lemma discard_generated now' us p db0 inv n f db' :
  NoDup (map be_id (billing_events db0)) ->
  events_reference_invoices db0 ->
  generate_fresh us p db0 = (Ok (Fresh inv n f), db') ->
  billing_events (discard_draft now' db' (new_invoice_id db0))
  = map (fun r => if selected p db0 r
                  then revert_event (stamped (gen_rate p db0) (new_invoice_id db0) r) else r)
        (billing_events db0).
Proof.
  intros Hkey Hfk H.
  destruct (generate_fresh_linked us p db0 inv n f db' Hkey Hfk H) as (Htable & _).
  unfold discard_draft. cbn [billing_events set_billing_events set_invoice_items set_invoices].
  rewrite Htable, map_map. apply map_ext_in. intros r Hr.
  destruct (selected p db0 r) eqn:S.
  - apply (selected_spec p db0 r Hkey Hr) in S.
    apply consumed_spec in S. destruct S as (_ & P).
    unfold pending_event in P. rewrite !andb_true_iff in P.
    destruct P as ((((_ & _) & D) & _) & _).
    cbn [stamped invoice_event be_invoice_id be_deleted_at opt_id_eqb].
    rewrite Z.eqb_refl, D. reflexivity.
  - destruct (be_invoice_id r) as [k|] eqn:K; [|reflexivity].
    cbn [opt_id_eqb]. assert ((k =? new_invoice_id db0)%Z = false) as ->; [|reflexivity].
    apply Z.eqb_neq. unfold new_invoice_id.
    pose proof (fresh_id_gt _ _ (Hfk r k Hr K)). lia.
Qed.

(** The events a store selects when its table is the table of [db0] with the
    selected rows invoiced and reverted. *)
Lemma consumed_again p p' db0 gs1 fx id :
  NoDup (map be_id (billing_events db0)) ->
  client_id p' = client_id p -> invoice_month p' = invoice_month p ->
  billing_events gs1
  = map (fun r => if selected p db0 r then revert_event (stamped fx id r) else r)
        (billing_events db0) ->
  consumed p' gs1 = map (fun e => revert_event (stamped fx id e)) (consumed p db0).
Proof.
  intros Hkey Hc Hm Ht. unfold consumed, pendingEvents. rewrite Ht, Hc, Hm.
  set (from := fst (monthRange (invoice_month p))).
  set (to := snd (monthRange (invoice_month p))).
  set (g := fun r => if selected p db0 r then revert_event (stamped fx id r) else r).
  assert (forall r, In r (billing_events db0) ->
            pending_event (client_id p) from to (g r) = pending_event (client_id p) from to r)
    as Hp.
  { intros r Hr. unfold g. destruct (selected p db0 r) eqn:S; [|reflexivity].
    apply (selected_spec p db0 r Hkey Hr) in S. apply consumed_spec in S.
    destruct S as (_ & P). fold from to in P. rewrite P.
    unfold pending_event in P |- *. rewrite !andb_true_iff in P.
    destruct P as ((((C & _) & D) & L) & U).
    cbn [revert_event stamped invoice_event be_client_id be_status be_deleted_at
         be_event_date is_pending].
    rewrite C, D, L, U. reflexivity. }
  rewrite (filter_map_comm _ g _ Hp).
  rewrite order_by_id_map by (intros y; unfold g; destruct (selected p db0 y); reflexivity).
  apply map_ext_in. intros r Hr. unfold g.
  assert (selected p db0 r = true) as ->; [|reflexivity].
  unfold selected. apply mem_id_In, in_map. exact Hr.
Qed.

(** Linking an event to another invoice. *)
Definition relink (invoiceId : Z) (e : BillingEvent) : BillingEvent :=
  mkEvent (be_id e) (be_client_id e) (be_service_code e) (be_event_date e)
          (be_qty e) (be_pricing_policy e) (be_unit_price_thb e) (be_amount_thb e)
          (be_unit_price_krw e) (be_amount_krw e) (be_fx_rate_thbkrw e) (be_status e)
          (Some invoiceId) (be_deleted_at e).

Lemma restamped_relinked fx id1 id2 e :
  stamped fx id2 (revert_event (stamped fx id1 e)) = relink id2 (stamped fx id1 e).
Proof.
  unfold stamped at 1. rewrite normalizedAmount_restamped. reflexivity.
Qed.

Lemma existingRows_generated db0 db' i c m :
  invoices db' = invoices db0 ++ [i] ->
  inv_id i = new_invoice_id db0 ->
  inv_client_id i = c -> inv_invoice_month i = m -> inv_deleted_at i = None ->
  existingRows db' c m = Some i.
Proof.
  intros Hinv Hid Hc Hm Hd.
  assert (In i (invoices db')) as Hin by (rewrite Hinv; apply in_or_app; right; left; reflexivity).
  assert (live_for c m i) as Hl by (repeat split; assumption).
  destruct (existingRows db' c m) as [x|] eqn:E.
  - apply existingRows_spec in E. destruct E as (Hx & _ & Hmax).
    pose proof (Hmax i Hin Hl) as G. rewrite Hinv in Hx.
    apply in_app_or in Hx. destruct Hx as [Hx|[<-|[]]]; [|reflexivity].
    exfalso. pose proof (fresh_id_gt _ _ (in_map inv_id _ _ Hx)).
    rewrite Hid in G. unfold new_invoice_id in G. lia.
  - exfalso. apply existingRows_none in E.
    assert (In i (filter (fun i => (inv_client_id i =? c)%Z
                                   && month_eqb (inv_invoice_month i) m
                                   && is_null (inv_deleted_at i)) (invoices db'))) as C.
    { apply filter_In. split; [exact Hin | apply live_for_spec; exact Hl]. }
    rewrite E in C. destruct C.
Qed.

(** Regenerating a draft right after it was generated reproduces it.  On a
    store where event ids are a key and event links point to existing
    invoices, a successful generation followed by a regeneration for the same
    client, month and invoice date succeeds under a new id with the same
    rate, the same number of events, the same subtotal, VAT and total and the
    same content of the appended items; the first draft is soft-deleted, and
    the events that were linked to it are linked to the new invoice,
    otherwise unchanged. *)
Theorem regeneration_reproduces_the_draft now us p db i1 n f db1 now' us' p' :
  NoDup (map be_id (billing_events db)) ->
  events_reference_invoices db ->
  generateInvoice now us p db = (Returned (Ok (Fresh (Some i1) n f)), db1) ->
  client_id p' = client_id p ->
  invoice_month p' = invoice_month p ->
  invoice_date p' = invoice_date p ->
  regenerate_draft p' = true ->
  exists i2 db2 a1 a2,
    generateInvoice now' us' p' db1 = (Returned (Ok (Fresh (Some i2) n f)), db2)
    /\ inv_id i2 = (inv_id i1 + 1)%Z
    /\ inv_fx_rate_thbkrw i2 = inv_fx_rate_thbkrw i1
    /\ inv_subtotal_krw i2 = inv_subtotal_krw i1
    /\ inv_vat_krw i2 = inv_vat_krw i1
    /\ inv_total_krw i2 = inv_total_krw i1
    /\ live_invoice db2 (inv_id i1) = None
    /\ invoice_items db1 = invoice_items (generation_store now p db) ++ a1
    /\ invoice_items db2 = invoice_items (generation_store now' p' db1) ++ a2
    /\ map item_content a2 = map item_content a1
    /\ linked_events db2 (inv_id i2) = map (relink (inv_id i2)) (linked_events db1 (inv_id i1)).
Proof.
  intros Hkey Hfk H Hc Hm Hd Hr.
  apply generate_reaches_fresh in H.
  set (gs0 := generation_store now p db) in *.
  assert (NoDup (map be_id (billing_events gs0))) as Hkey0.
  { unfold gs0. destruct (generation_store_frame now p db) as (_ & -> & _). exact Hkey. }
  pose proof (events_reference_generation_store now p db Hfk) as Hfk0. fold gs0 in Hfk0.
  pose proof H as H0. apply generate_fresh_ok in H0.
  destruct H0 as (fxRow & i & Hfx & Hf & Hn & Hne & Hi & Hid & Hcl & Hmo & Hst & Hdel & Hrate
                  & Hsub & Hvat & Htot & Hinv & _ & Hit & Hrates).
  inversion Hi; subst i; clear Hi.
  assert (gen_rate p gs0 = Fin (er_rate fxRow)) as Grate.
  { unfold gen_rate. rewrite Hfx. reflexivity. }
  (* the second call reaches generation on the store with the draft taken apart *)
  pose proof (existingRows_generated gs0 db1 i1 (client_id p') (invoice_month p') Hinv Hid)
    as Hex.
  rewrite Hc, Hm in Hex. specialize (Hex Hcl Hmo Hdel).
  assert (generation_store now' p' db1 = discard_draft now' db1 (inv_id i1)) as Hgs.
  { unfold generation_store. rewrite Hc, Hm, Hex, Hst, Hr. reflexivity. }
  set (gs1 := discard_draft now' db1 (inv_id i1)) in *.
  assert (generateInvoice now' us' p' db1
          = (Returned (fst (generate_fresh us' p' gs1)), snd (generate_fresh us' p' gs1))) as Hcall.
  { unfold generateInvoice, withTransaction, generate_callback.
    rewrite Hc, Hm, Hex, Hst, Hr. cbn [is_draft negb]. fold gs1.
    destruct (generate_fresh us' p' gs1); reflexivity. }
  (* its tables *)
  destruct (discard_draft_frame now' db1 (inv_id i1)) as (Er & Eid & Einv & _ & Ecat & _).
  fold gs1 in Er, Eid, Einv, Ecat.
  assert (billing_events gs1
          = map (fun r => if selected p gs0 r
                          then revert_event (stamped (Fin (er_rate fxRow)) (inv_id i1) r) else r)
                (billing_events gs0)) as Htable1.
  { unfold gs1. rewrite Hid, <- Grate.
    apply (discard_generated now' us p gs0 _ _ _ db1 Hkey0 Hfk0 H). }
  assert (consumed p' gs1
          = map (fun e => revert_event (stamped (Fin (er_rate fxRow)) (inv_id i1) e))
                (consumed p gs0)) as Hcons.
  { apply (consumed_again p p' gs0 gs1 _ _ Hkey0 Hc Hm Htable1). }
  assert (fxRows gs1 (invoice_date p') = Some (locked_row fxRow)) as Hfx1.
  { unfold fxRows. rewrite Er, Hrates, Hd.
    change (first_by rate_before
              (filter (applicable_rate (invoice_date p))
                      (exchange_rates (lock_rate gs0 (er_id fxRow)))))
      with (fxRows (lock_rate gs0 (er_id fxRow)) (invoice_date p)).
    rewrite fxRows_lock_rate, Hfx. cbn [option_map]. rewrite Z.eqb_refl. reflexivity. }
  assert (gen_rate p' gs1 = Fin (er_rate fxRow)) as Grate1.
  { unfold gen_rate. rewrite Hfx1. reflexivity. }
  assert (snd (gen_events p' gs1) = snd (gen_events p gs0)) as Hgroups.
  { unfold gen_events, consume_events. rewrite !consume_events_snd. cbn [snd].
    rewrite Grate1, Grate, Hcons. apply accumulate_restamped. }
  assert (new_invoice_id gs1 = (inv_id i1 + 1)%Z) as Hid2.
  { unfold new_invoice_id. rewrite Einv, Hinv, map_app. cbn [map].
    rewrite Hid. unfold new_invoice_id, fresh_id.
    rewrite fold_right_app. cbn [fold_right].
    assert (forall (l : list Z) a, (0 <= a)%Z ->
              (forall x, In x l -> x <= a)%Z ->
              fold_right Z.max a l = a) as G.
    { induction l as [|x l IH]; intros a Ha Hl; simpl; [reflexivity|].
      rewrite IH; [|exact Ha|intros y Hy; apply Hl; right; exact Hy].
      pose proof (Hl x (or_introl eq_refl)). lia. }
    assert (forall l : list Z, (0 <= fold_right Z.max 0 l)%Z) as G0.
    { induction l as [|x l IH]; simpl; lia. }
    pose proof (G0 (map inv_id (invoices gs0))) as G1.
    rewrite G; [lia | lia |].
    intros x Hx. pose proof (fold_max_ge _ _ Hx). lia. }
  (* it succeeds *)
  destruct (generate_fresh_cases us' p' gs1)
    as [(C & _)|[(r & _ & C & _)|(inv2 & n2 & f2 & db2 & H2)]].
  { rewrite Hfx1 in C. discriminate C. }
  { rewrite Hcons in C. apply map_eq_nil in C. contradiction. }
  rewrite H2 in Hcall. cbn [fst snd] in Hcall.
  pose proof H2 as H2'. apply generate_fresh_ok in H2'.
  destruct H2' as (fxRow2 & i2 & Hfx2 & Hf2 & Hn2 & _ & Hi2 & Hid2' & _ & _ & _ & Hdel2
                   & Hrate2 & Hsub2 & Hvat2 & Htot2 & Hinv2 & _ & Hit2 & _).
  rewrite Hfx1 in Hfx2. inversion Hfx2; subst fxRow2; clear Hfx2. subst inv2.
  assert (fst (gen_items p' gs1) = fst (gen_items p gs0)) as Hacc.
  { unfold gen_items, emit_items. rewrite !emit_items_fst, Hgroups. reflexivity. }
  assert (gen_totals p' gs1 = gen_totals p gs0) as Htotals.
  { unfold gen_totals. rewrite Hacc. reflexivity. }
  (* the appended items *)
  assert (serviceNameMap gs1 = serviceNameMap gs0) as Hnames.
  { unfold serviceNameMap. rewrite Ecat.
    pose proof (generate_fresh_catalog us p gs0) as Fc. rewrite H in Fc. cbn [snd] in Fc.
    rewrite Fc. reflexivity. }
  destruct (emit_items_detail (serviceNameMap gs0) (new_invoice_id gs0)
              (snd (gen_events p gs0)) (Fin 0) (invoice_items gs0)) as (l1 & E1 & F1).
  destruct (emit_items_detail (serviceNameMap gs1) (new_invoice_id gs1)
              (snd (gen_events p' gs1)) (Fin 0) (invoice_items gs1)) as (l2 & E2 & F2).
  change (gen_items p gs0 = (sum_amounts l1, invoice_items gs0 ++ l1)) in E1.
  change (gen_items p' gs1 = (sum_amounts l2, invoice_items gs1 ++ l2)) in E2.
  rewrite E1 in Hit. rewrite E2 in Hit2. cbn [snd] in Hit, Hit2.
  rewrite <- app_assoc in Hit, Hit2.
  rewrite Hnames, Hgroups in F2.
  (* the events *)
  assert (NoDup (map be_id (billing_events gs1))) as Hkey1.
  { rewrite Eid. pose proof H as Hx.
    destruct (generate_fresh_linked us p gs0 _ _ _ db1 Hkey0 Hfk0 H) as (T & _).
    rewrite T, map_map. erewrite map_ext; [exact Hkey0|].
    intros r. destruct (selected p gs0 r); reflexivity. }
  assert (events_reference_invoices gs1) as Hfk1.
  { intros e k He Hk. rewrite Htable1 in He. apply in_map_iff in He as (r & E & Hr0).
    destruct (selected p gs0 r); [subst e; discriminate Hk|]. subst r.
    rewrite Einv, Hinv, map_app. apply in_or_app. left. apply (Hfk0 e k Hr0 Hk). }
  destruct (generate_fresh_linked us p gs0 _ _ _ db1 Hkey0 Hfk0 H) as (_ & L1).
  destruct (generate_fresh_linked us' p' gs1 _ _ _ db2 Hkey1 Hfk1 H2) as (_ & L2).
  rewrite Grate in L1. rewrite Grate1 in L2. rewrite <- Hid in L1. rewrite <- Hid2' in L2.
  exists i2, db2, (l1 ++ [vat_item (fresh_id (map it_id (invoice_items gs0 ++ l1)))
                            (new_invoice_id gs0) (snd (fst (gen_totals p gs0)))]),
         (l2 ++ [vat_item (fresh_id (map it_id (invoice_items gs1 ++ l2)))
                          (new_invoice_id gs1) (snd (fst (gen_totals p' gs1)))]).
  split.
  { rewrite Hcall, Hn2, Hn, Hcons, length_map, Hf2, Hf. reflexivity. }
  split; [rewrite Hid2'; exact Hid2|].
  split; [rewrite Hrate2, Hrate; reflexivity|].
  split; [rewrite Hsub2, Hsub, Htotals; reflexivity|].
  split; [rewrite Hvat2, Hvat, Htotals; reflexivity|].
  split; [rewrite Htot2, Htot, Htotals; reflexivity|].
  split.
  { apply live_invoice_none. intros x Hx Ex. rewrite Hinv2 in Hx.
    apply in_app_or in Hx. destruct Hx as [Hx|[<-|[]]].
    - unfold gs1, discard_draft in Hx. cbn in Hx.
      apply in_map_iff in Hx as (y & Ey & _).
      destruct (inv_id y =? inv_id i1)%Z eqn:C.
      + subst x. discriminate.
      + subst y. apply Z.eqb_neq in C. contradiction.
    - rewrite Hid2', Hid2 in Ex. lia. }
  split; [exact Hit|]. split; [rewrite Hgs; exact Hit2|]. split.
  { rewrite !map_app. f_equal.
    - symmetry. eapply line_of_content; eassumption.
    - cbn [map item_content vat_item it_service_code it_description it_qty
           it_unit_price_krw it_amount_krw].
      rewrite Htotals. reflexivity. }
  rewrite L2, L1, Htable1.
  rewrite (filter_map_comm (selected p' gs1)).
  - rewrite !map_map.
    assert (forall r, selected p' gs1 r = selected p gs0 r) as Hsel.
    { intros r. unfold selected. rewrite Hcons, map_map. reflexivity. }
    rewrite (filter_ext _ _ Hsel). apply map_ext_in. intros r Hr0.
    apply filter_In in Hr0 as (_ & S). rewrite S. apply restamped_relinked.
  - intros r _. unfold selected.
    destruct (mem_id (be_id r) (map be_id (consumed p gs0))); reflexivity.
Qed.

Lemma regeneration_reproduces_the_draft_demo :
  NoDup (map be_id (billing_events demo_store))
  /\ events_reference_invoices demo_store
  /\ generateInvoice 0 None demo_payload demo_store
     = (Returned (Ok (Fresh (Some demo_invoice) 2 1)), demo_generated)
  /\ exists i2 db2,
       generateInvoice 3 None (mkPayload 1 (mkMonth 2026 1) (mkDate 2026 1 31) true None)
                       demo_generated
       = (Returned (Ok (Fresh (Some i2) 2 1)), db2)
       /\ inv_id i2 = 2%Z
       /\ inv_subtotal_krw i2 = Fin 15100
       /\ inv_vat_krw i2 = Fin 1000
       /\ inv_total_krw i2 = Fin 16100
       /\ live_invoice db2 1 = None.
Proof.
  split; [exact demo_event_ids|]. split; [exact demo_events_reference|].
  split; [exact demo_generate|].
  destruct (regeneration_reproduces_the_draft 0 None demo_payload demo_store demo_invoice
              2%nat 1 demo_generated 3 None
              (mkPayload 1 (mkMonth 2026 1) (mkDate 2026 1 31) true None)
              demo_event_ids demo_events_reference demo_generate
              eq_refl eq_refl eq_refl eq_refl)
    as (i2 & db2 & a1 & a2 & Hcall & Hid & _ & Hs & Hv & Ht & Hl & _).
  exists i2, db2. repeat split; assumption.
Defined.

(** ** Reading the CSV export back *)

(** A reader of quoted records: fields in quotes, a doubled quote standing
    for a quote, commas between fields and line feeds between records. *)
Inductive ReaderState : Type := AtField | InQuotes | AfterQuote.

Fixpoint read_csv (s : string) (state : ReaderState) (field : string)
    (record : list string) (records : list (list string))
    : option (list (list string)) :=
  match s with
  | EmptyString =>
      match state with
      | AfterQuote => Some (records ++ [record ++ [field]])
      | _ => None
      end
  | String c rest =>
      match state with
      | AtField =>
          if Ascii.eqb c quote then read_csv rest InQuotes EmptyString record records
          else None
      | InQuotes =>
          if Ascii.eqb c quote then read_csv rest AfterQuote field record records
          else read_csv rest InQuotes (field ++ String c EmptyString) record records
      | AfterQuote =>
          if Ascii.eqb c quote
          then read_csv rest InQuotes (field ++ String quote EmptyString) record records
          else if Ascii.eqb c comma
          then read_csv rest AtField EmptyString (record ++ [field]) records
          else if Ascii.eqb c newline
          then read_csv rest AtField EmptyString [] (records ++ [record ++ [field]])
          else None
      end
  end.

Lemma append_assoc (a b c : string) : ((a ++ b) ++ c = a ++ (b ++ c))%string.
Proof. induction a as [|x a IH]; simpl; [reflexivity|]. rewrite IH. reflexivity. Qed.

Lemma append_nil_r (a : string) : (a ++ EmptyString = a)%string.
Proof. induction a as [|x a IH]; simpl; [reflexivity|]. rewrite IH. reflexivity. Qed.

Lemma read_quoted (s tail field : string) record records :
  read_csv (double_quotes s ++ String quote tail) InQuotes field record records
  = read_csv tail AfterQuote (field ++ s) record records.
Proof.
  revert field. induction s as [|c s IH]; intros field.
  - simpl. rewrite append_nil_r. reflexivity.
  - cbn [double_quotes]. destruct (Ascii.eqb c quote) eqn:E.
    + apply Ascii.eqb_eq in E. subst c. cbn [append read_csv].
      change (Ascii.eqb quote quote) with true. cbv iota.
      rewrite IH, append_assoc. reflexivity.
    + cbn [append read_csv]. rewrite E, IH, append_assoc. reflexivity.
Qed.

Lemma read_cell (v : cell) (tail : string) record records :
  read_csv (csv_cell v ++ tail) AtField EmptyString record records
  = read_csv tail AfterQuote (cell_text v) record records.
Proof.
  unfold csv_cell. cbn [append read_csv]. change (Ascii.eqb quote quote) with true.
  cbv iota. rewrite append_assoc. cbn [append]. apply read_quoted.
Qed.

(** A non-empty list as its front and its last element. *)
Fixpoint split_last {A} (v : A) (vs : list A) : list A * A :=
  match vs with
  | [] => ([], v)
  | v' :: rest => (v :: fst (split_last v' rest), snd (split_last v' rest))
  end.

Lemma join_cons sep (x y : string) (l : list string) :
  join sep (x :: y :: l) = (x ++ sep ++ join sep (y :: l))%string.
Proof. reflexivity. Qed.

Lemma read_comma (tail field : string) record records :
  read_csv (String comma EmptyString ++ tail) AfterQuote field record records
  = read_csv tail AtField EmptyString (record ++ [field]) records.
Proof. reflexivity. Qed.

Lemma read_newline (tail field : string) record records :
  read_csv (String newline EmptyString ++ tail) AfterQuote field record records
  = read_csv tail AtField EmptyString [] (records ++ [record ++ [field]]).
Proof. reflexivity. Qed.

Lemma read_cells (v : cell) (vs : list cell) (tail : string) record records :
  read_csv (join (String comma EmptyString) (map csv_cell (v :: vs)) ++ tail)
           AtField EmptyString record records
  = read_csv tail AfterQuote (cell_text (snd (split_last v vs)))
             (record ++ map cell_text (fst (split_last v vs))) records.
Proof.
  revert v record. induction vs as [|v' vs IH]; intros v record.
  - cbn [map join split_last fst snd]. rewrite read_cell, app_nil_r. reflexivity.
  - cbn [map]. rewrite join_cons, !append_assoc, read_cell, read_comma.
    change (csv_cell v' :: map csv_cell vs) with (map csv_cell (v' :: vs)).
    rewrite IH. cbn [split_last fst snd map]. rewrite <- app_assoc. reflexivity.
Qed.

Definition row_texts (r : ExportRow) : list string := map cell_text (row_values r).

Lemma read_line (r : ExportRow) (tail : string) records :
  read_csv (csv_line r ++ tail) AtField EmptyString [] records
  = read_csv tail AfterQuote (cell_text (x_status r))
             (removelast (row_texts r)) records.
Proof.
  unfold csv_line, row_values. rewrite read_cells. reflexivity.
Qed.

Lemma row_texts_last (r : ExportRow) :
  removelast (row_texts r) ++ [cell_text (x_status r)] = row_texts r.
Proof. reflexivity. Qed.

Lemma read_lines (r : ExportRow) (rs : list ExportRow) records :
  read_csv (join (String newline EmptyString) (map csv_line (r :: rs)))
           AtField EmptyString [] records
  = Some (records ++ map row_texts (r :: rs)).
Proof.
  revert r records. induction rs as [|r' rs IH]; intros r records.
  - cbn [map join]. rewrite <- (append_nil_r (csv_line r)), read_line.
    cbn [read_csv]. rewrite row_texts_last. reflexivity.
  - cbn [map]. rewrite join_cons, read_line, read_newline.
    change (csv_line r' :: map csv_line rs) with (map csv_line (r' :: rs)).
    rewrite IH, row_texts_last, <- app_assoc. reflexivity.
Qed.

Lemma append_cancel (a b c : string) : (a ++ b = a ++ c)%string -> b = c.
Proof.
  induction a as [|x a IH]; simpl; intros H; [exact H|]. inversion H. apply IH. assumption.
Qed.

Lemma string_tail c (a b : string) : String c a = String c b -> a = b.
Proof. intros H. inversion H. reflexivity. Qed.

Lemma append_length (a b : string) :
  String.length (a ++ b) = (String.length a + String.length b)%nat.
Proof. induction a as [|x a IH]; simpl; [reflexivity|]. rewrite IH. reflexivity. Qed.

Lemma csv_body_lines r rs :
  csv_body (r :: rs)
  = (csv_header ++ String newline (join (String newline EmptyString) (map csv_line (r :: rs))))%string.
Proof. reflexivity. Qed.

(** The export reads back.  Without rows the body is the header line alone.
    With rows it is the header line, a line feed, and one line per row that a
    reader of quoted records turns back into the texts of the rows, a null
    value reading as the empty text: commas, quotes and line feeds inside a
    value never shift a column or break a line.  Hence two exports are equal
    only if their rows carry the same texts. *)
Theorem csv_export_reads_back (rows rows' : list ExportRow) :
  csv_body [] = csv_header
  /\ (rows <> [] ->
      exists lines,
        csv_body rows = (csv_header ++ String newline lines)%string
        /\ read_csv lines AtField EmptyString [] [] = Some (map row_texts rows))
  /\ (csv_body rows = csv_body rows' -> map row_texts rows = map row_texts rows').
Proof.
  split; [reflexivity|]. split.
  - destruct rows as [|r rs]; [intros C; contradiction|]. intros _.
    eexists. split; [apply csv_body_lines|]. apply (read_lines r rs []).
  - destruct rows as [|r rs], rows' as [|r' rs']; intros H.
    + reflexivity.
    + exfalso. rewrite csv_body_lines in H. apply (f_equal String.length) in H.
      rewrite append_length in H. cbn [String.length] in H.
      change (csv_body []) with csv_header in H. lia.
    + exfalso. rewrite csv_body_lines in H. apply (f_equal String.length) in H.
      rewrite append_length in H. cbn [String.length] in H.
      change (csv_body []) with csv_header in H. lia.
    + rewrite !csv_body_lines in H. apply append_cancel, string_tail in H.
      pose proof (read_lines r rs []) as R. rewrite H, read_lines in R.
      assert (forall a b : list (list string), Some a = Some b -> a = b) as Inj
        by (intros a b E; inversion E; reflexivity).
      apply Inj in R. symmetry. exact R.
Qed.

(** A row whose reference holds a quote, a comma and a line feed. *)
Definition awkward_row : ExportRow :=
  mkExportRow (Some "2026-01-05"%string) (Some "ACME"%string) (Some "TH_SHIPPING"%string)
              (Some "1"%string) (Some "120"%string) None None (Some "SHIPPING"%string)
              (Some (String quote (String comma (String newline "x"))))
              None (Some "PENDING"%string).

Lemma csv_export_reads_back_demo :
  exists lines,
    csv_body [awkward_row; awkward_row] = (csv_header ++ String newline lines)%string
    /\ read_csv lines AtField EmptyString [] []
       = Some [row_texts awkward_row; row_texts awkward_row].
Proof.
  destruct (csv_export_reads_back [awkward_row; awkward_row] []) as (_ & H & _).
  apply H. discriminate.
Defined.

(** ** A generated invoice passes the checks of the detail route *)

Lemma mod100_hundreds (n : num) : hundreds n -> mod100_is_zero (Some n) = Some true.
Proof.
  intros (k & ->). cbn [mod100_is_zero]. f_equal. apply Qeq_bool_iff.
  assert (inject_Z (k * 100) / 100 == inject_Z k) as E.
  { rewrite inject_Z_hundred. field. }
  rewrite (Qfloor_comp _ _ E), Qfloor_Z, inject_Z_hundred. ring.
Qed.

Lemma mod100_zero : mod100_is_zero (Some (Fin 0)) = Some true.
Proof. reflexivity. Qed.

(** The invoice row generation returns carries its total in both total
    columns. *)
Lemma generate_fresh_total_amount us p db0 i n f db' :
  generate_fresh us p db0 = (Ok (Fresh (Some i) n f), db') ->
  inv_total_amount i = inv_total_krw i.
Proof.
  unfold generate_fresh.
  destruct (monthRange (invoice_month p)) as [from to].
  destruct (fxRows db0 (invoice_date p)) as [fxRow|]; [|discriminate].
  destruct (pendingEvents _ _ _ _) as [|e0 events]; [discriminate|].
  destruct (resolveInvoiceSequence _ _ _) as [nextSeq db2].
  destruct (consume_events _ _ _ _) as [table grouped].
  destruct (emit_items _ _ _ _) as [acc items].
  destruct (totals acc) as [[sub vat] tot].
  cbn [fst snd invoices billing_events invoice_items service_catalog has_invoice_date
       set_invoices set_billing_events set_invoice_items exchange_rates].
  rewrite map_app, map_fresh_untouched, filter_app, filter_fresh_nil.
  cbn [map filter app inv_id]. rewrite Z.eqb_refl. cbn [filter hd_error app inv_id set_totals].
  rewrite Z.eqb_refl. cbn [hd_error].
  intros H. inversion H; subst. reflexivity.
Qed.

(** The invoice of a successful generation as the detail route shows it, on a
    store whose items point to existing invoices and with a row of table
    clients for the client: whatever columns the schema probes find, the
    route finds the invoice, a draft, with its three flags subtotal_trunc100,
    vat_trunc100 and total_trunc100 true, and every item it lists (the live
    items of the invoice, when table invoice_items is found) has
    unit_price_trunc100 and amount_trunc100 true. *)
Theorem generated_invoice_passes_its_checks schema clients c now us p db inv n f db' :
  items_reference_invoices db ->
  generateInvoice now us p db = (Returned (Ok (Fresh inv n f)), db') ->
  hasInvoices schema = true ->
  In c clients -> cl_id c = client_id p ->
  exists i view items,
    inv = Some i
    /\ getInvoice schema clients (inv_id i) db' = InvoiceFound view items
    /\ v_id view = inv_id i
    /\ v_status view = draft
    /\ v_subtotal_trunc100 view = Some true
    /\ v_vat_trunc100 view = Some true
    /\ v_total_trunc100 view = Some true
    /\ Forall (fun iv => iv_unit_price_trunc100 iv = Some true
                          /\ iv_amount_trunc100 iv = Some true) items
    /\ (hasInvoiceItems schema = true ->
        Permutation (map iv_item items) (items_of db' (inv_id i))).
Proof.
  intros Hfk H Hs Hc Hcid.
  destruct (generated_invoice now us p db inv n f db' H)
    as (i & lines & -> & Hid & Hsub & Hvat & Htot & F & Hit).
  pose proof H as H0. apply generate_reaches_fresh in H0.
  set (db0 := generation_store now p db) in *.
  pose proof (generate_fresh_total_amount us p db0 i n f db' H0) as Hamount.
  apply generate_fresh_ok in H0.
  destruct H0 as (fxRow & i' & _ & _ & _ & _ & Hi & _ & Hcl & _ & Hst & Hdel & _ & _ & _ & _
                  & Hinv & _).
  inversion Hi; subst i'; clear Hi.
  set (v := vat_item (fresh_id (map it_id (invoice_items db0 ++ lines))) (inv_id i)
                     (inv_vat_krw i)) in *.
  assert (items_of db' (inv_id i) = lines ++ [v]) as Hitems.
  { unfold items_of. rewrite Hit, Hid. apply items_of_fresh.
    - apply items_reference_generation_store. exact Hfk.
    - apply Forall_app. split.
      + rewrite <- Hid. eapply line_ok_owned. exact F.
      + constructor; [|constructor]. split; [exact Hid | reflexivity]. }
  assert (Forall (fun it => hundreds (it_amount_krw it) /\ hundreds (it_unit_price_krw it))
                 (items_of db' (inv_id i))) as Hmoney.
  { rewrite Hitems. apply Forall_app. split; [eapply line_ok_money; exact F|].
    constructor; [|constructor]. cbn. rewrite Hvat. split; apply trunc100_num_hundreds. }
  assert (filter (fun x => (inv_id x =? inv_id i)%Z && is_null (inv_deleted_at x)) (invoices db')
          = [i]) as Hrow.
  { rewrite Hinv, filter_app.
    rewrite (filter_none _ (invoices db0)).
    - cbn [filter app]. rewrite Z.eqb_refl, Hdel. reflexivity.
    - apply Forall_forall. intros x Hx. rewrite Hid.
      unfold new_invoice_id. rewrite (fresh_id_neqb inv_id _ _ Hx). reflexivity. }
  assert (exists c0 rest, filter (fun x => (cl_id x =? inv_client_id i)%Z) clients = c0 :: rest)
    as (c0 & rest & Hclients).
  { destruct (filter (fun x => (cl_id x =? inv_client_id i)%Z) clients) as [|c0 rest] eqn:E.
    - exfalso. assert (In c (filter (fun x => (cl_id x =? inv_client_id i)%Z) clients)) as C.
      { apply filter_In. split; [exact Hc|]. rewrite Hcl, Hcid. apply Z.eqb_refl. }
      rewrite E in C. destruct C.
    - eauto. }
  exists i. unfold getInvoice. rewrite Hs. cbn [negb]. rewrite Hrow. cbn [flat_map].
  rewrite Hclients. cbn [map app].
  eexists _, _. split; [reflexivity|]. split; [reflexivity|].
  cbn [invoice_view v_id v_status v_subtotal_trunc100 v_vat_trunc100 v_total_trunc100].
  split; [reflexivity|]. split; [exact Hst|].
  split.
  { destruct (hasSubtotal schema); [|apply mod100_zero].
    apply mod100_hundreds. rewrite Hsub. apply trunc100_num_hundreds. }
  split.
  { destruct (hasVat schema); [|apply mod100_zero].
    apply mod100_hundreds. rewrite Hvat. apply trunc100_num_hundreds. }
  split.
  { destruct (hasTotalKrw schema); apply mod100_hundreds; [|rewrite Hamount];
      rewrite Htot; apply trunc100_num_hundreds. }
  change (filter (fun it => (it_invoice_id it =? inv_id i)%Z && is_null (it_deleted_at it))
                 (invoice_items db')) with (items_of db' (inv_id i)).
  destruct (hasInvoiceItems schema).
  - split.
    + apply Forall_forall. intros iv Hiv. apply in_map_iff in Hiv as (it & <- & Hin).
      apply (Permutation_in _ (order_by_id_perm it_id _)) in Hin.
      rewrite Forall_forall in Hmoney. destruct (Hmoney it Hin) as (Ha & Hu).
      cbn. split; apply mod100_hundreds; assumption.
    + intros _. rewrite map_map. cbn [item_view iv_item]. rewrite map_id.
      apply order_by_id_perm.
  - split; [constructor | discriminate].
Qed.

Definition demo_client : Client := mkClient 1 "ACME" "ACME KR".

Lemma generated_invoice_passes_its_checks_demo :
  items_reference_invoices demo_store
  /\ generateInvoice 0 None demo_payload demo_store
     = (Returned (Ok (Fresh (Some demo_invoice) 2 1)), demo_generated)
  /\ exists view items,
       getInvoice (mkInvoiceSchema true true true true true false true) [demo_client] 1
                  demo_generated
       = InvoiceFound view items
       /\ v_total_trunc100 view = Some true
       /\ List.length items = 3%nat.
Proof.
  split; [exact demo_items_reference|]. split; [exact demo_generate|].
  destruct (generated_invoice_passes_its_checks
              (mkInvoiceSchema true true true true true false true) [demo_client] demo_client
              0 None demo_payload demo_store _ _ _ _ demo_items_reference demo_generate
              eq_refl (or_introl eq_refl) eq_refl)
    as (i & view & items & Hi & Hget & _ & _ & _ & _ & Ht & _ & Hperm).
  inversion Hi; subst i. exists view, items. split; [exact Hget|]. split; [exact Ht|].
  rewrite <- (length_map iv_item), (Permutation_length (Hperm eq_refl)). reflexivity.
Defined.

(** ** Billing units through the legacy column *)

(** A service is written with its billing unit and the billing basis
    [mapBillingBasisFromUnit] derives from it (lines 363-375 and 398-411).
    Listed on a schema with column billing_unit it shows the unit it was
    written with.  Listed on a schema without that column it shows ORDER,
    BOX and SKU as written and every other unit as EVENT: the unit comes back
    unchanged exactly when it is ORDER, BOX, SKU or EVENT, so that CBM, PALLET
    and MONTH are listed as EVENT. *)
Theorem billing_unit_through_basis (unit : string) :
  billingUnitExpr true unit (mapBillingBasisFromUnit unit) = unit
  /\ (billingUnitExpr false unit (mapBillingBasisFromUnit unit) = unit
      <-> unit = "ORDER" \/ unit = "BOX" \/ unit = "SKU" \/ unit = "EVENT")%string
  /\ (unit <> "ORDER" -> unit <> "BOX" -> unit <> "SKU" ->
      billingUnitExpr false unit (mapBillingBasisFromUnit unit) = "EVENT")%string.
Proof.
  split; [reflexivity|]. unfold billingUnitExpr, mapBillingBasisFromUnit.
  destruct (String.eqb unit "ORDER") eqn:O.
  { apply String.eqb_eq in O. subst unit. cbn. split; [tauto|]. intros C. contradiction. }
  destruct (String.eqb unit "BOX") eqn:B.
  { apply String.eqb_eq in B. subst unit. cbn. split; [tauto|]. intros _ C. contradiction. }
  destruct (String.eqb unit "SKU") eqn:S.
  { apply String.eqb_eq in S. subst unit. cbn. split; [tauto|]. intros _ _ C. contradiction. }
  cbn. apply String.eqb_neq in O, B, S. split; [|reflexivity]. split.
  - intros E. right. right. right. symmetry. exact E.
  - intros [E|[E|[E|E]]]; try contradiction. symmetry. exact E.
Qed.

Lemma billing_unit_through_basis_demo :
  billingUnitExpr false "PALLET" (mapBillingBasisFromUnit "PALLET") = "EVENT"%string
  /\ billingUnitExpr false "SKU" (mapBillingBasisFromUnit "SKU") = "SKU"%string.
Proof.
  split.
  - destruct (billing_unit_through_basis "PALLET") as (_ & _ & H).
    apply H; discriminate.
  - destruct (billing_unit_through_basis "SKU") as (_ & H & _).
    apply H. right. right. left. reflexivity.
Defined.

(** ** Invoice numbers never repeat *)

Definition sequence_of (c : Z) (m : month) (r : InvoiceSequence) : bool :=
  (sq_client_id r =? c)%Z && month_eqb (sq_yyyymm r) m && is_null (sq_deleted_at r).

(** The last number the counter of a client and month has given out; 0 when
    there is no counter yet. *)
Definition issued_up_to (db : Store) (c : Z) (m : month) : Z :=
  match filter (sequence_of c m) (invoice_sequences db) with
  | [] => 0%Z
  | first :: _ => sq_last_seq first
  end.

(** A store whose counters cover its invoices: invoice ids and counter ids
    are keys, no two invoices share a number, and every invoice number lies
    at or below the counter of its client and month. *)
Definition numbered (db : Store) : Prop :=
  invoice_key db
  /\ NoDup (map sq_id (invoice_sequences db))
  /\ NoDup (map inv_invoice_no (invoices db))
  /\ forall i, In i (invoices db) ->
       (no_seq (inv_invoice_no i)
        <= issued_up_to db (no_client (inv_invoice_no i)) (no_yyyymm (inv_invoice_no i)))%Z.

Lemma sequence_of_spec c m r :
  sequence_of c m r = true
  <-> sq_client_id r = c /\ sq_yyyymm r = m /\ sq_deleted_at r = None.
Proof.
  unfold sequence_of. rewrite !andb_true_iff, Z.eqb_eq, month_eqb_spec.
  destruct (sq_deleted_at r); simpl; intuition discriminate.
Qed.

(** The sequencer gives out the number after the last one, moves the counter
    of its client and month there and leaves every other counter alone. *)
Lemma resolveInvoiceSequence_counter db c m :
  NoDup (map sq_id (invoice_sequences db)) ->
  let next := fst (resolveInvoiceSequence db c m) in
  let db' := snd (resolveInvoiceSequence db c m) in
  next = (issued_up_to db c m + 1)%Z
  /\ issued_up_to db' c m = next
  /\ (forall c' m', (c' <> c \/ m' <> m) -> issued_up_to db' c' m' = issued_up_to db c' m')
  /\ NoDup (map sq_id (invoice_sequences db')).
Proof.
  intros K. unfold resolveInvoiceSequence, issued_up_to.
  change (fun r => (sq_client_id r =? c)%Z && month_eqb (sq_yyyymm r) m
                   && is_null (sq_deleted_at r)) with (sequence_of c m).
  destruct (filter (sequence_of c m) (invoice_sequences db)) as [|first rest] eqn:E;
    cbn [fst snd invoice_sequences set_invoice_sequences].
  - split; [reflexivity|]. split; [|split].
    + rewrite filter_app, E. cbn [filter app].
      assert (sequence_of c m (mkSeq (fresh_id (map sq_id (invoice_sequences db))) c m 1 None)
              = true) as -> by (apply sequence_of_spec; cbn; tauto).
      reflexivity.
    + intros c' m' N. rewrite filter_app. cbn [filter].
      assert (sequence_of c' m' (mkSeq (fresh_id (map sq_id (invoice_sequences db))) c m 1 None)
              = false) as ->.
      { apply not_true_is_false. intros C. apply sequence_of_spec in C. cbn in C.
        destruct C as (C1 & C2 & _). destruct N as [N|N]; congruence. }
      rewrite app_nil_r. reflexivity.
    + rewrite map_app. apply NoDup_app; [exact K | repeat constructor; simpl; tauto|].
      intros x Hx [<-|[]]. cbn [sq_id] in Hx. apply fresh_id_gt in Hx. lia.
  - assert (In first (invoice_sequences db) /\ sequence_of c m first = true) as (Hin & Hkey).
    { apply filter_In. rewrite E. left. reflexivity. }
    set (h := fun r => if (sq_id r =? sq_id first)%Z
                       then mkSeq (sq_id r) (sq_client_id r) (sq_yyyymm r)
                                  (sq_last_seq first + 1) (sq_deleted_at r)
                       else r).
    assert (forall k r, sequence_of (fst k) (snd k) (h r) = sequence_of (fst k) (snd k) r) as Hh.
    { intros k r. unfold h. destruct (sq_id r =? sq_id first)%Z; reflexivity. }
    split; [reflexivity|]. split; [|split].
    + rewrite (filter_map_comm (sequence_of c m) h) by (intros r _; apply (Hh (c, m))).
      rewrite E. cbn [map]. unfold h at 1. rewrite Z.eqb_refl. reflexivity.
    + intros c' m' N. rewrite filter_map_fixed; [reflexivity| |].
      * intros r Hr P. unfold h. destruct (sq_id r =? sq_id first)%Z eqn:I; [|reflexivity].
        exfalso. apply Z.eqb_eq in I.
        assert (r = first) as -> by (apply (NoDup_map_inj_in sq_id (invoice_sequences db)); assumption).
        apply sequence_of_spec in P, Hkey. destruct N as [N|N]; intuition congruence.
      * intros r _ P. rewrite (Hh (c', m')). exact P.
    + rewrite map_map. erewrite map_ext; [exact K|]. intros r. unfold h.
      destruct (sq_id r =? sq_id first)%Z; reflexivity.
Qed.

(** Tables that keep the numbers of the invoices and the counters keep the
    store numbered. *)
Lemma numbered_same db db' :
  map inv_id (invoices db') = map inv_id (invoices db) ->
  map inv_invoice_no (invoices db') = map inv_invoice_no (invoices db) ->
  invoice_sequences db' = invoice_sequences db ->
  numbered db -> numbered db'.
Proof.
  intros Eid Eno Eseq (K & Ks & Kn & Hc). unfold numbered, invoice_key, issued_up_to in *.
  rewrite Eid, Eno, Eseq. repeat split; try assumption.
  intros i Hi. apply (in_map inv_invoice_no) in Hi. rewrite Eno in Hi.
  apply in_map_iff in Hi as (i0 & <- & Hi0). apply Hc. exact Hi0.
Qed.

(** Adding one invoice under a new id, with the number the sequencer gave
    out, keeps the store numbered. *)
Lemma numbered_add db db' c m i :
  numbered db ->
  invoices db' = invoices db ++ [i] ->
  inv_id i = fresh_id (map inv_id (invoices db)) ->
  inv_invoice_no i = mkInvoiceNo c m (fst (resolveInvoiceSequence db c m)) ->
  invoice_sequences db' = invoice_sequences (snd (resolveInvoiceSequence db c m)) ->
  numbered db'.
Proof.
  intros (K & Ks & Kn & Hc) Hinv Hid Hno Hseq.
  destruct (resolveInvoiceSequence_counter db c m Ks) as (Hnext & Hat & Hother & Ks').
  cbv zeta in *.
  assert (forall c' m', issued_up_to db' c' m'
                        = issued_up_to (snd (resolveInvoiceSequence db c m)) c' m') as Hup.
  { intros c' m'. unfold issued_up_to. rewrite Hseq. reflexivity. }
  unfold numbered, invoice_key. rewrite Hinv, !map_app, Hseq. cbn [map].
  split; [|split; [exact Ks'|split]].
  - apply NoDup_app; [exact K | repeat constructor; simpl; tauto|].
    intros x Hx [<-|[]]. rewrite Hid in Hx. apply fresh_id_gt in Hx. lia.
  - apply NoDup_app; [exact Kn | repeat constructor; simpl; tauto|].
    intros x Hx [<-|[]]. apply in_map_iff in Hx as (j & Ej & Hj).
    pose proof (Hc j Hj) as B. rewrite Ej, Hno in B. cbn in B. lia.
  - intros j Hj. apply in_app_or in Hj. destruct Hj as [Hj|[<-|[]]].
    + pose proof (Hc j Hj) as B. rewrite Hup.
      destruct (Z.eq_dec (no_client (inv_invoice_no j)) c) as [Ec|Nc].
      * destruct (month_eqb (no_yyyymm (inv_invoice_no j)) m) eqn:Em.
        -- apply month_eqb_spec in Em. rewrite Ec, Em in B |- *. rewrite Hat. lia.
        -- rewrite Hother; [exact B|]. right. intros C. rewrite C in Em.
           assert (month_eqb m m = true) by (apply month_eqb_spec; reflexivity). congruence.
      * rewrite Hother; [exact B|]. left. exact Nc.
    + rewrite Hup, Hno. cbn. rewrite Hat. lia.
Qed.

Lemma numbered_lock_rate db f : numbered db -> numbered (lock_rate db f).
Proof. apply numbered_same; reflexivity. Qed.

Lemma discard_draft_numbered now db id : numbered db -> numbered (discard_draft now db id).
Proof.
  apply numbered_same; try reflexivity; unfold discard_draft;
    cbn [invoices set_invoices set_invoice_items set_billing_events];
    rewrite map_map; apply map_ext; intros i;
    destruct (inv_id i =? id)%Z; reflexivity.
Qed.

Lemma update_status_numbered db id st : numbered db -> numbered (update_status db id st).
Proof.
  apply numbered_same; try reflexivity; unfold update_status;
    cbn [invoices set_invoices];
    rewrite map_map; apply map_ext; intros i;
    destruct (inv_id i =? id)%Z; reflexivity.
Qed.

Lemma generate_fresh_numbered us p db0 :
  numbered db0 -> numbered (snd (generate_fresh us p db0)).
Proof.
  intros N. unfold generate_fresh.
  destruct (monthRange (invoice_month p)) as [from to].
  destruct (fxRows db0 (invoice_date p)) as [fxRow|]; [|exact N].
  pose proof (numbered_lock_rate db0 (er_id fxRow) N) as N1.
  destruct (pendingEvents (lock_rate db0 (er_id fxRow)) (client_id p) from to)
    as [|e0 events]; [exact N1|].
  pose proof (resolveInvoiceSequence_frame (lock_rate db0 (er_id fxRow)) (client_id p)
                (invoice_month p)) as Fr.
  pose proof (fun i db' => numbered_add (lock_rate db0 (er_id fxRow)) db' (client_id p)
                             (invoice_month p) i N1) as Add.
  destruct (resolveInvoiceSequence (lock_rate db0 (er_id fxRow)) (client_id p) (invoice_month p))
    as [nextSeq db2].
  cbv zeta in Fr. cbn [fst snd] in Fr, Add. destruct Fr as (_ & _ & Fr3 & _).
  destruct (consume_events _ _ _ _) as [table grouped].
  destruct (emit_items _ _ _ _) as [acc items].
  destruct (totals acc) as [[sub vat] tot].
  cbn [snd]. eapply Add.
  - cbn [invoices set_invoices set_invoice_items set_billing_events].
    rewrite map_app, map_fresh_untouched. cbn [map inv_id]. rewrite Z.eqb_refl.
    rewrite Fr3. cbn [invoices lock_rate set_exchange_rates]. reflexivity.
  - reflexivity.
  - reflexivity.
  - reflexivity.
Qed.

Lemma generate_numbered now us p db :
  numbered db -> numbered (snd (generateInvoice now us p db)).
Proof.
  intros N. unfold generateInvoice, withTransaction, generate_callback.
  destruct (existingRows db (client_id p) (invoice_month p)) as [existing|].
  - destruct (negb (is_draft (inv_status existing))); [exact N|].
    destruct (negb (regenerate_draft p)); [exact N|].
    pose proof (generate_fresh_numbered us p _ (discard_draft_numbered now db (inv_id existing) N))
      as G.
    destruct (generate_fresh us p (discard_draft now db (inv_id existing))). exact G.
  - pose proof (generate_fresh_numbered us p db N) as G.
    destruct (generate_fresh us p db). exact G.
Qed.

Lemma duplicate_numbered id db :
  numbered db -> numbered (snd (duplicateInvoiceForAdmin id db)).
Proof.
  intros N. unfold duplicateInvoiceForAdmin, withTransaction, duplicate_callback.
  destruct (live_invoice db id) as [source|] eqn:L; [|exact N].
  destruct (is_draft (inv_status source)); [exact N|].
  destruct (live_invoice_in _ _ _ L) as (Hin & Hid & _).
  pose proof (resolveInvoiceSequence_frame db (inv_client_id source) (inv_invoice_month source))
    as Fr.
  pose proof (fun i db' => numbered_add db db' (inv_client_id source)
                             (inv_invoice_month source) i N) as Add.
  destruct (resolveInvoiceSequence db (inv_client_id source) (inv_invoice_month source))
    as [nextSeq db1].
  cbv zeta in Fr. cbn [fst snd] in Fr, Add. destruct Fr as (_ & _ & Fr3 & _).
  cbn [snd]. eapply Add.
  - cbn [invoices set_invoices set_invoice_items]. rewrite Fr3, <- Hid.
    rewrite (filter_key_row (invoices db) source (proj1 N) Hin). cbn [number_from map].
    reflexivity.
  - reflexivity.
  - reflexivity.
  - reflexivity.
Qed.

Lemma markPending_numbered ids db :
  numbered db -> numbered (snd (markEventsPending ids db)).
Proof.
  apply numbered_same; [f_equal; apply markPending_invoices
                       | f_equal; apply markPending_invoices |].
  unfold markEventsPending, withTransaction, markPending_callback.
  destruct (markPending_rows db ids); [reflexivity|].
  destruct (filter is_blocked _); reflexivity.
Qed.

Lemma run_numbered op db : numbered db -> numbered (run op db).
Proof.
  intros N. destruct op as [now us p|id|id|id|ids]; cbn [run].
  - apply generate_numbered; exact N.
  - destruct (issue_cases id db) as [(_ & ->)|[(row & _ & _ & ->)|(row & _ & _ & ->)]];
      cbn [snd]; try exact N. apply update_status_numbered; exact N.
  - destruct (markPaid_cases id db) as [(_ & ->)|[(row & _ & _ & ->)|(row & _ & _ & ->)]];
      cbn [snd]; try exact N. apply update_status_numbered; exact N.
  - apply duplicate_numbered; exact N.
  - apply markPending_numbered; exact N.
Qed.

Lemma run_all_numbered ops db : numbered db -> numbered (run_all ops db).
Proof.
  unfold run_all. revert db. induction ops as [|op ops IH]; intros db N; simpl; [exact N|].
  apply IH. apply run_numbered. exact N.
Qed.

Lemma NoDup_map_injective {A B} (f : A -> B) (l : list A) x y :
  NoDup (map f l) -> In x l -> In y l -> f x = f y -> x = y.
Proof.
  induction l as [|z l IH]; simpl; intros H Hx Hy E; [tauto|].
  inversion H as [|? ? Hz Hl]; subst.
  destruct Hx as [->|Hx], Hy as [->|Hy]; auto.
  - exfalso. apply Hz. rewrite E. apply in_map. exact Hy.
  - exfalso. apply Hz. rewrite <- E. apply in_map. exact Hx.
Qed.

(** Invoice numbers never repeat.  From a store whose counters cover
    its invoices, whatever generations, regenerations, issues, payments,
    administrator copies and reverts to pending follow, two rows of the
    invoice table that carry the same number are the same row, deleted
    drafts included: the number of a discarded draft is not given out again.
    The store stays covered by its counters. *)
Theorem invoice_numbers_never_repeat ops db :
  numbered db ->
  numbered (run_all ops db)
  /\ forall a b,
       In a (invoices (run_all ops db)) -> In b (invoices (run_all ops db)) ->
       inv_invoice_no a = inv_invoice_no b -> a = b.
Proof.
  intros N. pose proof (run_all_numbered ops db N) as N'. split; [exact N'|].
  intros a b Ha Hb E.
  exact (NoDup_map_injective inv_invoice_no _ a b (proj1 (proj2 (proj2 N'))) Ha Hb E).
Qed.

Lemma demo_store_numbered : numbered demo_store.
Proof.
  unfold numbered, invoice_key. cbn.
  split; [constructor|]. split; [constructor|]. split; [constructor|]. intros i [].
Qed.

(** A draft generated, issued and copied twice by an administrator: three
    rows, three numbers. *)
Definition demo_numbering : list Operation :=
  [OpGenerate 0 None demo_payload; OpIssue 1; OpDuplicate 1; OpDuplicate 1].

Lemma invoice_numbers_never_repeat_demo :
  numbered demo_store
  /\ map (fun i => no_seq (inv_invoice_no i)) (invoices (run_all demo_numbering demo_store))
     = [1; 2; 3]%Z
  /\ numbered (run_all demo_numbering demo_store)
  /\ forall a b,
       In a (invoices (run_all demo_numbering demo_store)) ->
       In b (invoices (run_all demo_numbering demo_store)) ->
       inv_invoice_no a = inv_invoice_no b -> a = b.
Proof.
  split; [exact demo_store_numbered|]. split; [vm_compute; reflexivity|].
  exact (invoice_numbers_never_repeat demo_numbering demo_store demo_store_numbered).
Defined.

(** ** The audit trail of inbound orders *)

Import Inbound.

(** The requests that write. *)
Inductive InboundRequest : Type :=
| PostOrder (user_sub : option Z) (payload : InboundPayload)
| PutOrder (user_sub : option Z) (id : Z) (payload : InboundPayload)
| DeleteOrder (now : Z) (user_sub : option Z) (id : Z).

Section Trail.

Variable constraint_error : list InboundOrder -> option DbError.
Variable toMysqlDateTime : option string -> option string.

Definition answer (r : InboundRequest) (db : InboundStore) : Answer * InboundStore :=
  match r with
  | PostOrder user_sub payload =>
      postInboundOrder constraint_error toMysqlDateTime user_sub payload db
  | PutOrder user_sub id payload =>
      putInboundOrder constraint_error toMysqlDateTime user_sub id payload db
  | DeleteOrder now user_sub id => deleteInboundOrder now user_sub id db
  end.

Definition serve (db : InboundStore) (r : InboundRequest) : InboundStore :=
  snd (answer r db).

Definition serve_all (requests : list InboundRequest) (db : InboundStore) : InboundStore :=
  fold_left serve requests db.

(** The status of the live order of an id, if there is one. *)
Definition state_of (db : InboundStore) (id : Z) : option string :=
  match existingRows id db with
  | o :: _ => Some (io_status o)
  | [] => None
  end.

(** A trail is chained from [prev] when each entry starts from the status the
    entry before it led to. *)
Fixpoint chained (prev : option string) (trail : list OrderLog) : Prop :=
  match trail with
  | [] => True
  | l :: rest => log_from_status l = prev /\ chained (log_to_status l) rest
  end.

(** The status a trail leads to. *)
Definition leads_to (prev : option string) (trail : list OrderLog) : option string :=
  fold_left (fun _ l => log_to_status l) trail prev.

Definition trail_of (id : Z) (db : InboundStore) : list OrderLog :=
  filter (fun l => (log_order_id l =? id)%Z) (inbound_order_logs db).

Definition ascending (ids : list Z) : Prop := StronglySorted Z.lt ids.

(** A store whose logs tell the story of its orders. *)
Definition consistent (db : InboundStore) : Prop :=
  NoDup (map io_id (inbound_orders db))
  /\ ascending (map log_id (inbound_order_logs db))
  /\ (forall l, In l (inbound_order_logs db) ->
        In (log_order_id l) (map io_id (inbound_orders db)))
  /\ forall id, chained None (trail_of id db)
                /\ leads_to None (trail_of id db) = state_of db id.

Lemma chained_app prev t l :
  chained prev (t ++ [l]) <-> chained prev t /\ log_from_status l = leads_to prev t.
Proof.
  revert prev. induction t as [|x t IH]; intros prev; simpl.
  - unfold leads_to. simpl. tauto.
  - rewrite IH. unfold leads_to. simpl. tauto.
Qed.

Lemma leads_to_app prev t l : leads_to prev (t ++ [l]) = log_to_status l.
Proof. unfold leads_to. rewrite fold_left_app. reflexivity. Qed.

Lemma ascending_app (ids : list Z) x :
  ascending ids -> (forall y, In y ids -> y < x)%Z -> ascending (ids ++ [x]).
Proof.
  intros H Hx. induction H as [|a l Hl IH Ha]; simpl.
  - constructor; constructor.
  - constructor.
    + apply IH. intros y Hy. apply Hx. right. exact Hy.
    + apply Forall_app. split; [exact Ha|]. constructor; [|constructor].
      apply Hx. left. reflexivity.
Qed.

Lemma ascending_filter {A} (id : A -> Z) (f : A -> bool) (l : list A) :
  ascending (map id l) -> ascending (map id (filter f l)).
Proof.
  induction l as [|x l IH]; simpl; intros H; [constructor|].
  inversion H as [|? ? Hl Hx]; subst.
  destruct (f x); simpl; [|apply IH; exact Hl].
  constructor; [apply IH; exact Hl|].
  rewrite Forall_forall in *. intros y Hy. apply Hx.
  apply in_map_iff in Hy as (z & <- & Hz). apply in_map. apply filter_In in Hz. tauto.
Qed.

Lemma order_by_id_ascending {A} (id : A -> Z) (l : list A) :
  ascending (map id l) -> order_by_id id l = l.
Proof.
  unfold order_by_id. induction l as [|x l IH]; simpl; intros H; [reflexivity|].
  inversion H as [|? ? Hl Hx]; subst. rewrite (IH Hl).
  destruct l as [|y l]; simpl; [reflexivity|].
  inversion Hx as [|? ? Hy _]; subst.
  assert ((id x <=? id y)%Z = true) as -> by (apply Z.leb_le; lia). reflexivity.
Qed.

(** GET /:id/logs on a store whose log ids ascend: the trail in insertion
    order. *)
Lemma getLogs_trail id db :
  ascending (map log_id (inbound_order_logs db)) -> getLogs id db = trail_of id db.
Proof.
  intros H. unfold getLogs, trail_of. apply order_by_id_ascending, ascending_filter. exact H.
Qed.

Lemma trail_of_append id order action from to note actor db :
  trail_of id (appendInboundOrderLog order action from to note actor db)
  = if (order =? id)%Z
    then trail_of id db
         ++ [mkOrderLog (fresh_id (map log_id (inbound_order_logs db))) order action from to
                        note actor]
    else trail_of id db.
Proof.
  unfold trail_of, appendInboundOrderLog. cbn [inbound_order_logs].
  rewrite filter_app. cbn [filter log_order_id].
  destruct (order =? id)%Z; [reflexivity | apply app_nil_r].
Qed.

Lemma append_consistent order action from to note actor db table :
  NoDup (map io_id table) ->
  ascending (map log_id (inbound_order_logs db)) ->
  (forall l, In l (inbound_order_logs db) -> In (log_order_id l) (map io_id table)) ->
  In order (map io_id table) ->
  (forall id,
     let db1 := mkInboundStore table (inbound_order_logs db) in
     if (order =? id)%Z
     then chained None (trail_of id db1)
          /\ from = leads_to None (trail_of id db1)
          /\ to = state_of db1 id
     else chained None (trail_of id db1)
          /\ leads_to None (trail_of id db1) = state_of db1 id) ->
  consistent (appendInboundOrderLog order action from to note actor
                (mkInboundStore table (inbound_order_logs db))).
Proof.
  intros K S F Hin T. split; [exact K|]. split; [|split].
  - unfold appendInboundOrderLog. cbn [inbound_order_logs]. rewrite map_app.
    apply ascending_app; [exact S|]. intros y Hy. apply fresh_id_gt. exact Hy.
  - unfold appendInboundOrderLog. cbn [inbound_order_logs inbound_orders].
    intros l Hl. apply in_app_or in Hl. destruct Hl as [Hl|[<-|[]]]; [apply F; exact Hl|].
    exact Hin.
  - intros id. rewrite trail_of_append. specialize (T id). cbv zeta in T.
    unfold state_of, existingRows in *. cbn [inbound_orders appendInboundOrderLog] in *.
    destruct (order =? id)%Z.
    + destruct T as (C & Hf & Ht). split.
      * apply chained_app. split; [exact C | exact Hf].
      * rewrite leads_to_app. exact Ht.
    + exact T.
Qed.

Lemma existing_in id db o rest :
  existingRows id db = o :: rest ->
  In o (inbound_orders db) /\ io_id o = id /\ io_deleted_at o = None.
Proof.
  intros E. assert (In o (existingRows id db)) as H by (rewrite E; left; reflexivity).
  unfold existingRows in H. apply filter_In in H as (H & C).
  apply andb_true_iff in C as (C & D). apply Z.eqb_eq in C.
  destruct (io_deleted_at o); [discriminate|]. auto.
Qed.

Lemma table_other_id (h : InboundOrder -> InboundOrder) id id' (table : list InboundOrder) :
  id <> id' ->
  (forall o, io_id (h o) = io_id o) ->
  filter (fun o => (io_id o =? id')%Z && is_null (io_deleted_at o))
         (map (fun o => if (io_id o =? id)%Z && is_null (io_deleted_at o) then h o else o)
              table)
  = filter (fun o => (io_id o =? id')%Z && is_null (io_deleted_at o)) table.
Proof.
  intros N Hh. apply filter_map_fixed.
  - intros o _ P. apply andb_true_iff in P as (P & _). apply Z.eqb_eq in P.
    assert ((io_id o =? id)%Z = false) as ->; [|reflexivity]. apply Z.eqb_neq. congruence.
  - intros o _ P. destruct ((io_id o =? id)%Z && is_null (io_deleted_at o)) eqn:C; [|exact P].
    apply andb_true_iff in C as (C & _). apply Z.eqb_eq in C. rewrite Hh, C.
    assert ((id =? id')%Z = false) as ->; [|reflexivity]. apply Z.eqb_neq. exact N.
Qed.

Lemma table_ids (h : InboundOrder -> InboundOrder) (c : InboundOrder -> bool)
    (table : list InboundOrder) :
  (forall o, io_id (h o) = io_id o) ->
  map io_id (map (fun o => if c o then h o else o) table) = map io_id table.
Proof.
  intros Hh. rewrite map_map. apply map_ext. intros o. destruct (c o); [apply Hh | reflexivity].
Qed.

(** Each request leaves a consistent store consistent. *)
Lemma serve_consistent r db : consistent db -> consistent (serve db r).
Proof.
  intros (K & S & F & T). unfold serve.
  destruct r as [us payload|us id payload|now us id]; cbn [answer].
  - unfold postInboundOrder.
    destruct (_ || _ || _ || _ || _); [exact (conj K (conj S (conj F T)))|]. cbv zeta.
    destruct (constraint_error _); [exact (conj K (conj S (conj F T)))|]. cbn [snd].
    set (newId := fresh_id (map io_id (inbound_orders db))).
    assert (~ In newId (map io_id (inbound_orders db))) as Hfresh.
    { intros C. apply fresh_id_gt in C. unfold newId in C. lia. }
    assert (trail_of newId db = []) as Hempty.
    { unfold trail_of. apply filter_none, Forall_forall. intros l Hl.
      apply Z.eqb_neq. intros E. apply Hfresh. rewrite <- E. apply F. exact Hl. }
    apply append_consistent; try assumption.
    + rewrite map_app. apply NoDup_app; [exact K | repeat constructor; simpl; tauto|].
      intros x Hx [<-|[]]. contradiction.
    + intros l Hl. rewrite map_app. apply in_or_app. left. apply F. exact Hl.
    + rewrite map_app. apply in_or_app. right. left. reflexivity.
    + intros id. cbv zeta.
      change (trail_of id (mkInboundStore (inbound_orders db ++ [_]) (inbound_order_logs db)))
        with (trail_of id db).
      unfold state_of, existingRows. cbn [inbound_orders]. rewrite filter_app.
      cbn [filter io_id io_deleted_at is_null].
      destruct (newId =? id)%Z eqn:E.
      * apply Z.eqb_eq in E. subst id. rewrite Hempty. cbn [andb app].
        assert (filter (fun o => (io_id o =? newId)%Z && is_null (io_deleted_at o))
                       (inbound_orders db) = []) as ->.
        { apply filter_none, Forall_forall. intros o Ho.
          assert ((io_id o =? newId)%Z = false) as ->; [|reflexivity].
          apply Z.eqb_neq. intros C. apply Hfresh. rewrite <- C. apply in_map. exact Ho. }
        repeat split.
      * cbn [andb]. rewrite app_nil_r. apply T.
  - unfold putInboundOrder.
    destruct (_ || _ || _ || _ || _ || _); [exact (conj K (conj S (conj F T)))|].
    destruct (existingRows id db) as [|existing rest] eqn:Ex; [exact (conj K (conj S (conj F T)))|].
    cbv zeta. destruct (constraint_error _); [exact (conj K (conj S (conj F T)))|]. cbn [snd].
    destruct (existing_in _ _ _ _ Ex) as (Hin & Hid & Hdel).
    set (status := match ip_status payload with Some s => s | None => EmptyString end).
    set (h := fun o => mkInboundOrder (io_id o) (ip_inbound_no payload) (ip_client_id payload)
                         (ip_warehouse_id payload) (ip_inbound_date payload) status
                         (or_null (ip_memo payload)) (ip_created_by payload)
                         (toMysqlDateTime (ip_received_at payload)) (io_deleted_at o)).
    assert (forall o, io_id (h o) = io_id o) as Hh by reflexivity.
    apply append_consistent; try assumption.
    + rewrite (table_ids h _ _ Hh). exact K.
    + intros l Hl. rewrite (table_ids h _ _ Hh). apply F. exact Hl.
    + rewrite (table_ids h _ _ Hh), <- Hid. apply in_map. exact Hin.
    + intros id'. cbv zeta.
      change (trail_of id' (mkInboundStore _ (inbound_order_logs db))) with (trail_of id' db).
      destruct (T id') as (C & L). unfold state_of, existingRows in *. cbn [inbound_orders].
      destruct (id =? id')%Z eqn:E.
      * apply Z.eqb_eq in E. subst id'. split; [exact C|].
        unfold existingRows in Ex. rewrite Ex in L. split; [symmetry; exact L|].
        rewrite (filter_map_comm (fun o => (io_id o =? id)%Z && is_null (io_deleted_at o))).
        -- rewrite Ex. cbn [map].
           assert ((io_id existing =? id)%Z && is_null (io_deleted_at existing) = true) as ->.
           { rewrite Hid, Z.eqb_refl, Hdel. reflexivity. }
           reflexivity.
        -- intros o _. destruct ((io_id o =? id)%Z && is_null (io_deleted_at o)) eqn:P;
             [exact P | exact P].
      * apply Z.eqb_neq in E. rewrite (table_other_id h id id' _ E Hh). split; assumption.
  - unfold deleteInboundOrder.
    destruct (existingRows id db) as [|existing rest] eqn:Ex; [exact (conj K (conj S (conj F T)))|].
    cbn [snd].
    destruct (existing_in _ _ _ _ Ex) as (Hin & Hid & Hdel).
    set (h := fun o => mkInboundOrder (io_id o) (io_inbound_no o) (io_client_id o)
                         (io_warehouse_id o) (io_inbound_date o) (io_status o)
                         (io_memo o) (io_created_by o) (io_received_at o) (Some now)).
    assert (forall o, io_id (h o) = io_id o) as Hh by reflexivity.
    apply append_consistent; try assumption.
    + rewrite (table_ids h _ _ Hh). exact K.
    + intros l Hl. rewrite (table_ids h _ _ Hh). apply F. exact Hl.
    + rewrite (table_ids h _ _ Hh), <- Hid. apply in_map. exact Hin.
    + intros id'. cbv zeta.
      change (trail_of id' (mkInboundStore _ (inbound_order_logs db))) with (trail_of id' db).
      destruct (T id') as (C & L). unfold state_of, existingRows in *. cbn [inbound_orders].
      destruct (id =? id')%Z eqn:E.
      * apply Z.eqb_eq in E. subst id'. split; [exact C|].
        unfold existingRows in Ex. rewrite Ex in L. split; [symmetry; exact L|].
        rewrite filter_none; [reflexivity|]. apply Forall_forall. intros o Ho.
        apply in_map_iff in Ho as (o0 & <- & _).
        destruct ((io_id o0 =? id)%Z && is_null (io_deleted_at o0)) eqn:P; [|exact P].
        cbn. apply andb_false_r.
      * apply Z.eqb_neq in E. rewrite (table_other_id h id id' _ E Hh). split; assumption.
Qed.

Lemma serve_all_consistent requests db :
  consistent db -> consistent (serve_all requests db).
Proof.
  revert db. induction requests as [|r requests IH]; intros db H; simpl; [exact H|].
  apply IH, serve_consistent. exact H.
Qed.

(** The log of an order replays its status.  On a store whose logs tell the
    story of its orders (the empty store is one), after any sequence of
    POST, PUT and DELETE requests, what GET /:id/logs returns for an id is
    chained: its first entry starts from no status and every later entry
    starts from the status the entry before it led to; and the status its
    last entry leads to is the status of the live order of that id, or none
    when the order is deleted or was never there. *)
Theorem inbound_log_replays_status requests db id :
  consistent db ->
  let s := serve_all requests db in
  consistent s
  /\ chained None (getLogs id s)
  /\ leads_to None (getLogs id s) = state_of s id.
Proof.
  intros H s. pose proof (serve_all_consistent requests db H) as Hs. fold s in Hs.
  split; [exact Hs|]. destruct Hs as (_ & S & _ & T).
  rewrite (getLogs_trail id s S). apply T.
Qed.

Lemma empty_string_spec s : empty_string s = true <-> s = EmptyString.
Proof. destruct s; simpl; split; intros H; try reflexivity; discriminate. Qed.

(** The action is "update" exactly when a status is kept. *)
Lemma deriveInboundAction_update from to :
  deriveInboundAction (Some from) to = "update"%string <-> from = to /\ from <> EmptyString.
Proof.
  unfold deriveInboundAction.
  destruct (empty_string from) eqn:Em.
  - apply empty_string_spec in Em. split; [discriminate | tauto].
  - assert (from <> EmptyString) as Hne.
    { intros C. apply empty_string_spec in C. congruence. }
    destruct (String.eqb from to) eqn:E.
    + apply String.eqb_eq in E. subst to.
      destruct (String.eqb from "submitted"), (String.eqb from "arrived"),
        (String.eqb from "received"), (String.eqb from "cancelled"); cbn; tauto.
    + apply String.eqb_neq in E.
      destruct (String.eqb to "submitted" && negb (String.eqb from "submitted")),
        (String.eqb to "arrived" && negb (String.eqb from "arrived")),
        (String.eqb to "received" && negb (String.eqb from "received")),
        (String.eqb to "cancelled" && negb (String.eqb from "cancelled")); cbn;
        (split; [discriminate | tauto]).
Qed.

Lemma resolveActorUserId_positive user_sub fallback u :
  resolveActorUserId user_sub fallback = Some u -> (0 < u)%Z.
Proof.
  unfold resolveActorUserId.
  destruct (match user_sub with Some x => x | None => 0%Z end >? 0)%Z eqn:A.
  - intros H. inversion H; subst. apply Z.gtb_lt in A. exact A.
  - destruct (match fallback with Some f => f | None => 0%Z end >? 0)%Z eqn:B; [|discriminate].
    intros H. inversion H; subst. apply Z.gtb_lt in B. exact B.
Qed.

(** What a request leaves behind.  A refused request (a missing field, no
    live order of the id, an error of the statement) leaves both tables as
    they were.  An accepted one appends exactly one log row: it names an
    order, starts from the status the live order of that id had (none for a
    creation), leads to the status it has now (none for a deletion), and its
    action is "update" exactly when the two are the same; the actor it
    records, if any, is a positive user id. *)
Theorem inbound_request_outcome r db :
  match fst (answer r db) with
  | Created _ | Updated _ | Deleted =>
      exists l,
        inbound_order_logs (snd (answer r db)) = inbound_order_logs db ++ [l]
        /\ log_from_status l = state_of db (log_order_id l)
        /\ log_to_status l = state_of (snd (answer r db)) (log_order_id l)
        /\ (log_action l = "update"%string <-> log_from_status l = log_to_status l)
        /\ (forall u, log_actor_user_id l = Some u -> (0 < u)%Z)
  | _ => snd (answer r db) = db
  end.
Proof.
  destruct r as [us payload|us id payload|now us id]; cbn [answer].
  - unfold postInboundOrder.
    destruct (_ || _ || _ || _ || _); [reflexivity|]. cbv zeta.
    destruct (constraint_error _) as [[| |]|]; try reflexivity. cbn [fst snd].
    eexists. split; [reflexivity|]. cbn [log_from_status log_to_status log_order_id log_action log_actor_user_id].
    unfold state_of, existingRows. cbn [inbound_orders appendInboundOrderLog].
    rewrite filter_app. cbn [filter io_id io_deleted_at is_null io_status].
    rewrite Z.eqb_refl. cbn [andb].
    assert (filter (fun o => (io_id o =? fresh_id (map io_id (inbound_orders db)))%Z
                             && is_null (io_deleted_at o)) (inbound_orders db) = []) as ->.
    { apply filter_none, Forall_forall. intros o Ho.
      rewrite (fresh_id_neqb io_id _ _ Ho). reflexivity. }
    split; [reflexivity|]. split; [reflexivity|].
    split; [split; discriminate | apply resolveActorUserId_positive].
  - unfold putInboundOrder.
    destruct (_ || _ || _ || _ || _ || _) eqn:Req; [reflexivity|].
    destruct (existingRows id db) as [|existing rest] eqn:Ex; [reflexivity|].
    cbv zeta. destruct (constraint_error _) as [[| |]|]; try reflexivity. cbn [fst snd].
    eexists. split; [reflexivity|]. cbn [log_from_status log_to_status log_order_id log_action log_actor_user_id].
    destruct (existing_in _ _ _ _ Ex) as (Hin & Hid & Hdel).
    unfold state_of. rewrite Ex.
    unfold existingRows in *. cbn [inbound_orders appendInboundOrderLog].
    split; [reflexivity|]. split; [|split; [|apply resolveActorUserId_positive]].
    + rewrite (filter_map_comm (fun o => (io_id o =? id)%Z && is_null (io_deleted_at o))).
      * rewrite Ex. cbn [map].
        assert ((io_id existing =? id)%Z && is_null (io_deleted_at existing) = true) as ->.
        { rewrite Hid, Z.eqb_refl, Hdel. reflexivity. }
        reflexivity.
      * intros o _. destruct ((io_id o =? id)%Z && is_null (io_deleted_at o)) eqn:P;
          [exact P | exact P].
    + rewrite deriveInboundAction_update.
      apply orb_false_iff in Req as (Req & _). apply orb_false_iff in Req as (_ & Hs).
      destruct (ip_status payload) as [s|]; [|discriminate Hs]. cbn in Hs.
      split.
      * intros (-> & _). reflexivity.
      * intros E. inversion E as [E']. split; [reflexivity|].
        intros C. rewrite <- E', C in Hs. discriminate Hs.
  - unfold deleteInboundOrder.
    destruct (existingRows id db) as [|existing rest] eqn:Ex; [reflexivity|].
    cbn [fst snd].
    eexists. split; [reflexivity|]. cbn [log_from_status log_to_status log_order_id log_action log_actor_user_id].
    unfold state_of. rewrite Ex.
    unfold existingRows. cbn [inbound_orders appendInboundOrderLog].
    split; [reflexivity|].
    split; [|split; [split; discriminate | apply resolveActorUserId_positive]].
    rewrite filter_none; [reflexivity|]. apply Forall_forall. intros o Ho.
    apply in_map_iff in Ho as (o0 & <- & _).
    destruct ((io_id o0 =? id)%Z && is_null (io_deleted_at o0)) eqn:P; [|exact P].
    cbn. apply andb_false_r.
Qed.

End Trail.

Lemma empty_store_consistent : consistent (mkInboundStore [] []).
Proof.
  split; [constructor|]. split; [constructor|]. split; [intros l []|].
  intros id. split; [exact I | reflexivity].
Qed.

(** An order created as draft, submitted, and deleted. *)
Definition demo_inbound : InboundPayload :=
  mkInboundPayload "IN-1" 1 1 "2026-01-05" None None 7 None.

Definition demo_submitted : InboundPayload :=
  mkInboundPayload "IN-1" 1 1 "2026-01-05" (Some "submitted"%string) None 7 None.

Lemma inbound_log_replays_status_demo :
  consistent (mkInboundStore [] [])
  /\ map log_action
         (getLogs 1 (serve_all (fun _ => None) (fun d => d)
                       [PostOrder None demo_inbound; PutOrder (Some 3%Z) 1 demo_submitted;
                        DeleteOrder 9 None 1]
                       (mkInboundStore [] [])))
     = ["create"; "submit"; "delete"]%string
  /\ chained None
        (getLogs 1 (serve_all (fun _ => None) (fun d => d)
                      [PostOrder None demo_inbound; PutOrder (Some 3%Z) 1 demo_submitted;
                       DeleteOrder 9 None 1]
                      (mkInboundStore [] []))).
Proof.
  split; [exact empty_store_consistent|]. split; [vm_compute; reflexivity|].
  apply (inbound_log_replays_status (fun _ => None) (fun d => d)
           [PostOrder None demo_inbound; PutOrder (Some 3%Z) 1 demo_submitted;
            DeleteOrder 9 None 1]
           (mkInboundStore [] []) 1 empty_store_consistent).
Defined.

Lemma inbound_request_outcome_demo :
  snd (answer (fun _ => Some ER_DUP_ENTRY) (fun d => d) (PostOrder None demo_inbound)
              (mkInboundStore [] []))
  = mkInboundStore [] []
  /\ fst (answer (fun _ => Some ER_DUP_ENTRY) (fun d => d) (PostOrder None demo_inbound)
                 (mkInboundStore [] []))
     = Duplicate.
Proof.
  split; [|reflexivity].
  exact (inbound_request_outcome (fun _ => Some ER_DUP_ENTRY) (fun d => d)
           (PostOrder None demo_inbound) (mkInboundStore [] [])).
Defined.
